(** * ReadThatPDF: rate limiting, scheduling and the delivery pipeline

    A shallow embedding of the Python backend
    ([rate_limiting/RateLimiter.py], [scheduling/*.py], [tasks.py],
    [models.py], the endpoints of [main.py]) together with the properties
    its specification states and further properties of the code.

    Conventions of the embedding:
    - Python [int] is [Z]; Python [float] (clock readings, bucket levels,
      refill rates, the safety buffer) is idealised as an exact rational
      [Q], so rounding of the binary representation is not modelled;
    - Python [str] is [string] and [len] is [String.length];
    - mutable objects are passed and returned explicitly, and calls run
      one at a time: the [asyncio] locks and the worker pool are not
      modelled;
    - [time.time()] reads a clock that is part of the state: every call
      returns the next reading of a sequence;
    - exceptions are values of an error type. *)

From Stdlib Require Import ZArith QArith Qround Qminmax Lia Lqa Ascii String.
From stdpp Require Import base option list strings gmap sorting pretty.

Local Open Scope Z_scope.

(** ** Python arithmetic helpers *)

(** [int(x)] on a float: truncation toward zero. *)
Definition py_int (x : Q) : Z := Z.quot (Qnum x) (Z.pos (Qden x)).

(** [min(a, b)]: the first argument unless the second is strictly smaller. *)
Definition py_min (a b : Q) : Q :=
  match Qcompare b a with Lt => b | _ => a end.

(** [max(a, b)] on integers: the first argument unless the second is
    strictly greater. *)
Definition py_max (a b : Z) : Z := if a <? b then b else a.

(** [len(s)] *)
Definition len (s : string) : Z := Z.of_nat (String.length s).

(** Normalisation of a slice bound against a sequence of length [n]:
    a negative bound counts from the end, and the result is clamped to
    [0 .. n]. *)
Definition slice_bound (n i : Z) : Z :=
  if i <? 0 then Z.max (i + n) 0 else Z.min i n.

(** [l[i:j]] on a list *)
Definition py_slice {A} (l : list A) (i j : Z) : list A :=
  let n := Z.of_nat (length l) in
  let i := slice_bound n i in
  let j := slice_bound n j in
  take (Z.to_nat (j - i)) (drop (Z.to_nat i) l).

(** [s[i:j]] on a string *)
Definition str_slice (s : string) (i j : Z) : string :=
  let i := slice_bound (len s) i in
  let j := slice_bound (len s) j in
  substring (Z.to_nat i) (Z.to_nat (j - i)) s.

(** [s[i]] on a string; [None] stands for [IndexError]. *)
Definition str_index (s : string) (i : Z) : option ascii :=
  let i := if i <? 0 then i + len s else i in
  if (0 <=? i) && (i <? len s) then String.get (Z.to_nat i) s else None.

(** [c.isspace()] for the code points below 256. *)
Definition isspace (c : ascii) : bool :=
  let n := nat_of_ascii c in
  ((9 <=? n) && (n <=? 13) || (28 <=? n) && (n <=? 32)
   || (n =? 133) || (n =? 160))%nat.

Fixpoint lstrip (s : string) : string :=
  match s with
  | String c s' => if isspace c then lstrip s' else s
  | EmptyString => EmptyString
  end.

Definition rstrip (s : string) : string := String.rev (lstrip (String.rev s)).

(** [s.strip()] *)
Definition strip (s : string) : string := rstrip (lstrip s).

(** [c in s] for a character [c] *)
Fixpoint char_in (c : ascii) (s : string) : bool :=
  match s with
  | String d s' => if Ascii.eqb c d then true else char_in c s'
  | EmptyString => false
  end.

(** [range(start, stop, -1)] searched for the first index satisfying [p]:
    the indices are [start, start - 1, ..., stop + 1]. *)
Fixpoint first_down (p : Z -> bool) (i : Z) (n : nat) : option Z :=
  match n with
  | O => None
  | S n' => if p i then Some i else first_down p (i - 1) n'
  end.

Definition range_down_find (p : Z -> bool) (start stop : Z) : option Z :=
  first_down p start (Z.to_nat (start - stop)).

(** ** The clock *)

Module Clock.

Record t := { readings : nat -> Q; ticks : nat }.

(** [time.time()] *)
Definition time (c : t) : Q * t :=
  (readings c (ticks c), {| readings := readings c; ticks := S (ticks c) |}).

Definition constant (q : Q) : t := {| readings := fun _ => q; ticks := 0 |}.


(** No reading from the current tick on is smaller than an earlier one. *)
Definition monotone (c : t) : Prop :=
  forall i j, (ticks c <= i)%nat -> (i <= j)%nat ->
              (readings c i <= readings c j)%Q.

End Clock.

(** ** rate_limiting/RateLimiter.py *)

Module RateLimiter.

Record RateLimitConfig := {
  daily_request_limit : Z;
  daily_token_limit : Z;
  request_burst_capacity : Z;
  request_refill_rate : Q;
  token_burst_capacity : Z;
  token_refill_rate : Q;
  max_tokens_per_request : Z;
  safety_buffer : Q
}.

Record UsageRecord := {
  chunk_length : Z;
  total_tokens : Z;
  prompt_tokens : Z;
  completion_tokens : Z;
  timestamp : Q;
  model : string
}.

(** *** class TokenBucket *)

Record TokenBucket := {
  capacity : Z;
  refill_rate : Q;
  tokens : Q;
  last_refill : Q
}.

(** [TokenBucket.__init__]; [now] is the value of [time.time()]. *)
Definition new_bucket (capacity : Z) (refill_rate : Q) (now : Q) : TokenBucket :=
  {| capacity := capacity; refill_rate := refill_rate;
     tokens := inject_Z capacity; last_refill := now |}.

(** [TokenBucket._refill]; [now] is the value of [time.time()]. *)
Definition _refill (now : Q) (b : TokenBucket) : TokenBucket :=
  let time_since_refill := (now - last_refill b)%Q in
  let tokens_to_add := (time_since_refill * refill_rate b)%Q in
  {| capacity := capacity b; refill_rate := refill_rate b;
     tokens := py_min (inject_Z (capacity b)) (tokens b + tokens_to_add)%Q;
     last_refill := now |}.

Definition with_tokens (b : TokenBucket) (t : Q) : TokenBucket :=
  {| capacity := capacity b; refill_rate := refill_rate b;
     tokens := t; last_refill := last_refill b |}.

(** [TokenBucket.consume] *)
Definition consume (now : Q) (required_tokens : Z) (b : TokenBucket)
  : bool * TokenBucket :=
  let b := _refill now b in
  if Qle_bool (inject_Z required_tokens) (tokens b)
  then (true, with_tokens b (tokens b - inject_Z required_tokens)%Q)
  else (false, b).

(** [TokenBucket.has_capacity] *)
Definition has_capacity (now : Q) (required_tokens : Z) (b : TokenBucket)
  : bool * TokenBucket :=
  let b := _refill now b in
  (Qle_bool (inject_Z required_tokens) (tokens b), b).

(** [TokenBucket.get_available_tokens] *)
Definition get_available_tokens (now : Q) (b : TokenBucket) : Q * TokenBucket :=
  let b := _refill now b in (tokens b, b).

(** *** class LLMRateLimiter *)

Record LLMRateLimiter := {
  config : RateLimitConfig;
  token_estimator : string -> Z;
  daily_requests_used : Z;
  daily_tokens_used : Z;
  daily_reset_time : Q;
  request_bucket : TokenBucket;
  token_bucket : TokenBucket;
  usage_history : list UsageRecord
}.

(** The limiter together with the clock its methods read. *)
Record World := { limiter : LLMRateLimiter; clock : Clock.t }.

Definition M (A : Type) : Type := World -> A * World.

Definition ret {A} (a : A) : M A := fun w => (a, w).
Definition bind {A B} (m : M A) (k : A -> M B) : M B :=
  fun w => let (a, w') := m w in k a w'.

Declare Scope rl_scope.
Delimit Scope rl_scope with rl.
Notation "x <- c1 ;; c2" := (bind c1 (fun x => c2))
  (at level 100, c1 at next level, right associativity) : rl_scope.
Notation "c1 ;; c2" := (bind c1 (fun _ => c2))
  (at level 100, right associativity) : rl_scope.
Local Open Scope rl_scope.

Definition time_time : M Q :=
  fun w => let (t, c) := Clock.time (clock w) in
           (t, {| limiter := limiter w; clock := c |}).

Definition get : M LLMRateLimiter := fun w => (limiter w, w).
Definition put (l : LLMRateLimiter) : M unit :=
  fun w => (tt, {| limiter := l; clock := clock w |}).

Definition set_request_bucket (l : LLMRateLimiter) (b : TokenBucket) :=
  {| config := config l; token_estimator := token_estimator l;
     daily_requests_used := daily_requests_used l;
     daily_tokens_used := daily_tokens_used l;
     daily_reset_time := daily_reset_time l;
     request_bucket := b; token_bucket := token_bucket l;
     usage_history := usage_history l |}.

Definition set_token_bucket (l : LLMRateLimiter) (b : TokenBucket) :=
  {| config := config l; token_estimator := token_estimator l;
     daily_requests_used := daily_requests_used l;
     daily_tokens_used := daily_tokens_used l;
     daily_reset_time := daily_reset_time l;
     request_bucket := request_bucket l; token_bucket := b;
     usage_history := usage_history l |}.

Definition set_daily (l : LLMRateLimiter) (r t : Z) (reset : Q) :=
  {| config := config l; token_estimator := token_estimator l;
     daily_requests_used := r; daily_tokens_used := t;
     daily_reset_time := reset;
     request_bucket := request_bucket l; token_bucket := token_bucket l;
     usage_history := usage_history l |}.

(** A method of the request bucket, run on the limiter's bucket. *)
Definition on_request_bucket {A} (f : Q -> TokenBucket -> A * TokenBucket) : M A :=
  now <- time_time;;
  l <- get;;
  let (a, b) := f now (request_bucket l) in
  put (set_request_bucket l b);;
  ret a.

Definition on_token_bucket {A} (f : Q -> TokenBucket -> A * TokenBucket) : M A :=
  now <- time_time;;
  l <- get;;
  let (a, b) := f now (token_bucket l) in
  put (set_token_bucket l b);;
  ret a.

(** [_default_token_estimator]: [max(1, len(text) // 4) + 30] *)
Definition _default_token_estimator (text : string) : Z :=
  py_max 1 (len text / 4) + 30.

(** [_get_next_daily_reset]: [(now // 86400 + 1) * 86400] *)
Definition _get_next_daily_reset : M Q :=
  now <- time_time;;
  ret (inject_Z ((Qfloor (now / 86400) + 1) * 86400)).

(** [_check_daily_reset] *)
Definition _check_daily_reset : M unit :=
  now <- time_time;;
  l <- get;;
  if Qle_bool (daily_reset_time l) now then
    reset <- _get_next_daily_reset;;
    l <- get;;
    put (set_daily l 0 0 reset)
  else ret tt.

(** The dictionary returned by [can_process_request]. *)
Inductive CheckResult :=
| Denied (reason : string)
| Allowed (estimated_tokens buffered_tokens : Z).

Definition allowed (r : CheckResult) : bool :=
  match r with Allowed _ _ => true | Denied _ => false end.

(** [int(total_estimated_tokens * (1 + safety_buffer))] *)
Definition buffer (cfg : RateLimitConfig) (total_estimated_tokens : Z) : Z :=
  py_int (inject_Z total_estimated_tokens * (1 + safety_buffer cfg))%Q.

(** [can_process_request] *)
Definition can_process_request (text : string) (estimated_completion_tokens : Z)
  : M CheckResult :=
  _check_daily_reset;;
  l <- get;;
  let prompt_tokens := token_estimator l text in
  let total_estimated_tokens := prompt_tokens + estimated_completion_tokens in
  let buffered_tokens := buffer (config l) total_estimated_tokens in
  if daily_request_limit (config l) <=? daily_requests_used l then
    ret (Denied "daily_request_limit_exceeded")
  else if daily_token_limit (config l) <? daily_tokens_used l + buffered_tokens then
    ret (Denied "daily_token_limit_exceeded")
  else
    r <- on_request_bucket (fun now => has_capacity now 1);;
    if negb r then ret (Denied "request_rate_limit_exceeded")
    else
      t <- on_token_bucket (fun now => has_capacity now buffered_tokens);;
      if negb t then ret (Denied "token_rate_limit_exceeded")
      else ret (Allowed total_estimated_tokens buffered_tokens).

(** [acquire_tokens] *)
Definition acquire_tokens (text : string) (estimated_completion_tokens : Z)
  : M bool :=
  check_result <- can_process_request text estimated_completion_tokens;;
  match check_result with
  | Denied _ => ret false
  | Allowed _ buffered_tokens =>
      request_acquired <- on_request_bucket (fun now => consume now 1);;
      token_acquired <- on_token_bucket (fun now => consume now buffered_tokens);;
      if negb (request_acquired && token_acquired) then ret false
      else ret true
  end.

(** [record_actual_usage]; the arguments are the three counts read from
    [actual_usage]. The history keeps its last 1000 entries. *)
Definition record_actual_usage (total prompt completion : Z) (text model : string)
  : M unit :=
  l <- get;;
  now <- time_time;;
  let record :=
    {| chunk_length := len text; total_tokens := total; prompt_tokens := prompt;
       completion_tokens := completion; timestamp := now; model := model |} in
  let history := usage_history l ++ [record] in
  let history :=
    if (1000 <? length history)%nat
    then py_slice history (-1000) (Z.of_nat (length history))
    else history in
  put {| config := config l; token_estimator := token_estimator l;
         daily_requests_used := daily_requests_used l + 1;
         daily_tokens_used := daily_tokens_used l + total;
         daily_reset_time := daily_reset_time l;
         request_bucket := request_bucket l; token_bucket := token_bucket l;
         usage_history := history |}.

(** [LLMRateLimiter.__init__] with the default estimator. The three
    clock readings are those of [_get_next_daily_reset] and of the two
    bucket constructors. *)
Definition new_limiter (cfg : RateLimitConfig) (c : Clock.t) : World :=
  let (t0, c) := Clock.time c in
  let (t1, c) := Clock.time c in
  let (t2, c) := Clock.time c in
  {| limiter :=
       {| config := cfg; token_estimator := _default_token_estimator;
          daily_requests_used := 0; daily_tokens_used := 0;
          daily_reset_time := inject_Z ((Qfloor (t0 / 86400) + 1) * 86400);
          request_bucket :=
            new_bucket (request_burst_capacity cfg) (request_refill_rate cfg) t1;
          token_bucket :=
            new_bucket (token_burst_capacity cfg) (token_refill_rate cfg) t2;
          usage_history := [] |};
     clock := c |}.

(** [ratelimitconfig] of [tasks.py] *)
Definition ratelimitconfig : RateLimitConfig :=
  {| daily_request_limit := 1000; daily_token_limit := 200000;
     request_burst_capacity := 5; request_refill_rate := 1 # 2;
     token_burst_capacity := 8000; token_refill_rate := 1000;
     max_tokens_per_request := 1700; safety_buffer := 1 # 10 |}.

(** *** Notions and states the statements below refer to *)

(** The level a bucket has after [_refill] at time [now]. *)
Definition refilled (now : Q) (b : TokenBucket) : Q :=
  py_min (inject_Z (capacity b))
         (tokens b + (now - last_refill b) * refill_rate b)%Q.

(** The limiter of [tasks.py], built and used at one instant. *)
Definition w0 : World := new_limiter ratelimitconfig (Clock.constant 1000).

(** The same limiter with its daily request counter at the limit. *)
Definition exhausted : World :=
  {| limiter := set_daily (limiter w0) 1000 0 (daily_reset_time (limiter w0));
     clock := clock w0 |}.

(** The same limiter a day later: its counter still at the limit, its
    clock past the daily reset time. *)
Definition exhausted_next_day : World :=
  {| limiter := limiter exhausted; clock := Clock.constant 90000 |}.


End RateLimiter.

(** ** tasks.py: text chunking *)

Module Segmenter.

(** What a call produces: the returned list, or no result within the
    given number of loop iterations. *)
Inductive outcome :=
| Returned (chunks : list string)
| OutOfFuel.

(** [int(max_chars * 0.8)] *)
Definition eighty_percent (max_chars : Z) : Z := Z.quot (max_chars * 4) 5.

(** [text[i-1:i+1] in ['. ', '! ', '? '] or text[i-1:i+1] == '\n\n'] *)
Definition sentence_end (text : string) (i : Z) : bool :=
  let w := str_slice text (i - 1) (i + 1) in
  String.eqb w ". " || String.eqb w "! " || String.eqb w "? "
  || String.eqb w (String "010" (String "010" EmptyString)).

(** [text[i] in '.!?\n '] *)
Definition break_char (c : ascii) : bool :=
  char_in c (String "." (String "!" (String "?" (String "010" (String " " EmptyString))))).

Definition soft_break (text : string) (i : Z) : bool :=
  match str_index text i with
  | Some c => break_char c
  | None => false
  end.

(** The body of the [if end_pos < len(text)] branch: the [for] loop
    over sentence endings and the loop of its [else] clause. *)
Definition find_break (text : string) (max_chars current_pos end_pos : Z) : Z :=
  let search_start :=
    Z.max (current_pos + eighty_percent max_chars) (current_pos + 100) in
  match range_down_find (sentence_end text) end_pos search_start with
  | Some i => i
  | None =>
      match range_down_find (soft_break text) end_pos search_start with
      | Some i => i + 1
      | None => end_pos
      end
  end.

(** One iteration of the [while] loop: the next position and the
    chunk, if it is not empty. *)
Definition step (text : string) (max_chars current_pos : Z) : Z * option string :=
  let end_pos := Z.min (current_pos + max_chars) (len text) in
  let end_pos :=
    if end_pos <? len text then find_break text max_chars current_pos end_pos
    else end_pos in
  let chunk := strip (str_slice text current_pos end_pos) in
  (end_pos, if String.eqb chunk "" then None else Some chunk).

Fixpoint chunk_loop (fuel : nat) (text : string) (max_chars current_pos : Z)
         (chunks : list string) : outcome :=
  if current_pos <? len text then
    match fuel with
    | O => OutOfFuel
    | S fuel' =>
        let (end_pos, chunk) := step text max_chars current_pos in
        chunk_loop fuel' text max_chars end_pos
                   (match chunk with Some c => chunks ++ [c] | None => chunks end)
    end
  else Returned chunks.

(** [simple_chunk_text] *)
Definition simple_chunk_text (fuel : nat) (text : string) (max_chars : Z) : outcome :=
  if len text <=? max_chars then Returned [text]
  else chunk_loop fuel text max_chars 0 [].

(** The longest run of characters of [s] with no break character. *)
Fixpoint longest_run_from (cur best : nat) (s : string) : nat :=
  match s with
  | EmptyString => Nat.max cur best
  | String c s' =>
      if break_char c then longest_run_from 0 (Nat.max cur best) s'
      else longest_run_from (S cur) best s'
  end.

Definition longest_run (s : string) : nat := longest_run_from 0 0 s.

(** *** Notions and states the statements below refer to *)

(** [s * n] *)
Fixpoint repeat_str (n : nat) (s : string) : string :=
  match n with
  | O => ""
  | S n' => s +:+ repeat_str n' s
  end.

(** Twenty short words, a one-letter word and a full stop at index 101,
    followed by a second sentence: 126 characters. *)
Definition short_words : string :=
  repeat_str 20 "word " +:+ "x. More text follows here.".

End Segmenter.

(** ** Python values and exceptions *)

Module Py.

(** The values a JSON-like request dictionary holds. *)
#[warnings="-register-all"]
Inductive val :=
| None_
| Bool (b : bool)
| Int (z : Z)
| Str (s : string)
| List (l : list val)
| Dict (d : gmap string val).

(** Truth value of an object in a condition. *)
Definition truthy (v : val) : bool :=
  match v with
  | None_ => false
  | Bool b => b
  | Int z => negb (z =? 0)
  | Str s => negb (String.eqb s "")
  | List l => match l with [] => false | _ => true end
  | Dict d => negb (bool_decide (size d = 0%nat))
  end.

(** [isinstance(v, int)], with the integer; [bool] is a subclass of
    [int]. *)
Definition as_int (v : val) : option Z :=
  match v with
  | Int z => Some z
  | Bool b => Some (if b then 1 else 0)
  | _ => None
  end.

(** [v == s] for a string [s] *)
Definition eq_str (v : val) (s : string) : bool :=
  match v with Str s' => String.eqb s' s | _ => false end.

(** [hash(v)] is defined *)
Definition hashable (v : val) : bool :=
  match v with List _ | Dict _ => false | _ => true end.

(** [d.get(k)] and [d.get(k, default)] *)
Definition get (d : gmap string val) (k : string) : val := default None_ (d !! k).
Definition get_or (d : gmap string val) (k : string) (dflt : val) : val :=
  default dflt (d !! k).

Inductive exn :=
| InvalidScheduleDataException (msg : string)
| RedisConnectionException (msg : string)
| ValueError (msg : string)
| AttributeError (msg : string)
| TypeError (msg : string)
| IndexError (msg : string)
| KeyError (msg : string)
| ConnectionError (msg : string)
| SMTPException (msg : string)
| CeleryRetry (msg : string).

(** [str(e)] *)
Definition str_of (e : exn) : string :=
  match e with
  | InvalidScheduleDataException m | RedisConnectionException m
  | ValueError m | AttributeError m | TypeError m | IndexError m
  | KeyError m | ConnectionError m | SMTPException m | CeleryRetry m => m
  end.

(** A computation that returns or raises. *)
Inductive res (A : Type) :=
| Ok (a : A)
| Raise (e : exn).
Arguments Ok {A} a.
Arguments Raise {A} e.

Definition bind {A B} (m : res A) (k : A -> res B) : res B :=
  match m with Ok a => k a | Raise e => Raise e end.

(** [try: m  except cls: h], where [catches] decides the classes
    caught. *)
Definition try_except {A} (m : res A) (catches : exn -> bool) (h : exn -> res A)
  : res A :=
  match m with
  | Ok a => Ok a
  | Raise e => if catches e then h e else Raise e
  end.

(** [s.split(sep)] for a one-character separator *)
Fixpoint split (sep : ascii) (s : string) : list string :=
  match s with
  | EmptyString => [EmptyString]
  | String c s' =>
      if Ascii.eqb c sep then EmptyString :: split sep s'
      else match split sep s' with
           | w :: ws => String c w :: ws
           | [] => [String c EmptyString]
           end
  end.

Definition digit (c : ascii) : option Z :=
  let n := nat_of_ascii c in
  if ((48 <=? n) && (n <=? 57))%nat then Some (Z.of_nat n - 48) else None.

(** The digits of an integer literal: single underscores may separate
    digits. [after_digit] tells whether the previous character was a
    digit. *)
Fixpoint digits (acc : Z) (after_digit : bool) (s : string) : option Z :=
  match s with
  | EmptyString => if after_digit then Some acc else None
  | String c s' =>
      match digit c with
      | Some d => digits (10 * acc + d) true s'
      | None =>
          if Ascii.eqb c "_" && after_digit then digits acc false s' else None
      end
  end.

(** [int(s)] on a string of code points below 128; [None] stands for
    [ValueError]. *)
Definition int_of_str (s : string) : option Z :=
  match strip s with
  | String "-" s' => Z.opp <$> digits 0 false s'
  | String "+" s' => digits 0 false s'
  | s' => digits 0 false s'
  end.

End Py.

(** ** models.py *)

Module Models.

(** [class ScheduleType(str, Enum)]: member names and values, in
    declaration order. *)
Definition ScheduleType : list (string * string) :=
  [("DAILY", "daily"); ("TWICE_DAILY", "twice_daily");
   ("EVERY_TWO_DAYS", "every_two_days"); ("MONTHLY", "monthly");
   ("WEEKLY", "weekly"); ("NONE", "none")].

(** [ScheduleType.<name>]: the member, or [AttributeError]. *)
Definition ScheduleType_attr (name : string) : Py.res string :=
  match List.find (fun m => String.eqb (fst m) name) ScheduleType with
  | Some m => Py.Ok (snd m)
  | None => Py.Raise (Py.AttributeError name)
  end.

(** [[e.value for e in ScheduleType]] *)
Definition ScheduleType_values : list string := map snd ScheduleType.

Record Chunk := {
  index : Z;
  text : string;
  token_count : Z;
  insight : option string
}.

End Models.

(** ** scheduling/validators.py *)

Module Validators.

Import Py.

Notation "x <- c1 ;; c2" := (Py.bind c1 (fun x => c2))
  (at level 100, c1 at next level, right associativity).
Notation "c1 ;; c2" := (Py.bind c1 (fun _ => c2))
  (at level 100, right associativity).

Section ScheduleValidator.

(** [VALID_TIMEZONES = set(pytz.all_timezones)]: the zone names of the
    installed [pytz]. *)
Variable VALID_TIMEZONES : gset string.

Definition MAX_HOURS_INTERVAL : Z := 24.
Definition MIN_HOURS_INTERVAL : Z := 1.
Definition MAX_CHUNKS_PER_DELIVERY : Z := 10.
Definition MIN_CHUNKS_PER_DELIVERY : Z := 1.

(** [raise e] when [cond] holds. *)
Definition raise_if (cond : bool) (e : exn) : res unit :=
  if cond then Raise e else Ok tt.

(** [hour, minute = map(int, schedule_time.split(':'))] *)
Definition parse_hour_minute (schedule_time : string) : res (Z * Z) :=
  match split ":" schedule_time with
  | [h; m] =>
      match int_of_str h, int_of_str m with
      | Some hour, Some minute => Ok (hour, minute)
      | _, _ => Raise (ValueError "invalid literal for int() with base 10")
      end
  | [_] | [] => Raise (ValueError "not enough values to unpack (expected 2)")
  | _ => Raise (ValueError "too many values to unpack (expected 2)")
  end.

(** [0 <= v <= hi]; comparing an integer with a value that is no number
    is a [TypeError]. *)
Definition in_range (v : val) (hi : Z) : res bool :=
  match as_int v with
  | Some z => Ok ((0 <=? z) && (z <=? hi))
  | None => Raise (TypeError "'<=' not supported between instances")
  end.

(** [_validate_schedule_time] *)
Definition _validate_schedule_time (schedule_time : val) : res unit :=
  try_except
    (match schedule_time with
     | Str s =>
         hm <- parse_hour_minute s;;
         let (hour, minute) := hm : Z * Z in
         raise_if (negb ((0 <=? hour) && (hour <=? 23))
                   || negb ((0 <=? minute) && (minute <=? 59)))
           (InvalidScheduleDataException
              "Invalid time format: hour must be 0-23, minute must be 0-59")
     | Dict d =>
         let hour := get_or d "hour" (Int 9) in
         let minute := get_or d "minute" (Int 0) in
         hour_ok <- in_range hour 23;;
         bad <- (if negb hour_ok then Ok true
                 else minute_ok <- in_range minute 59;; Ok (negb minute_ok));;
         raise_if bad
           (InvalidScheduleDataException
              "Invalid time format: hour must be 0-23, minute must be 0-59")
     | _ =>
         Raise (InvalidScheduleDataException
                  "schedule_time must be string (HH:MM) or dict")
     end)
    (fun e => match e with ValueError _ | AttributeError _ => true | _ => false end)
    (fun e => Raise (InvalidScheduleDataException
                       ("Invalid schedule_time format: " +:+ str_of e))).

(** [v not in cls.VALID_TIMEZONES]: membership in a set hashes [v]. *)
Definition not_in_timezones (v : val) : res bool :=
  if negb (hashable v) then Raise (TypeError "unhashable type")
  else match v with
       | Str s => Ok (negb (bool_decide (s ∈ VALID_TIMEZONES)))
       | _ => Ok true
       end.

(** [not isinstance(v, int) or not (lo <= v <= hi)] *)
Definition not_int_between (v : val) (lo hi : Z) : bool :=
  match as_int v with
  | Some z => negb ((lo <=? z) && (z <=? hi))
  | None => true
  end.

(** The body of the [try] block of [validate_schedule_data]. *)
Definition validate_body (user_data : gmap string val) : res (gmap string val) :=
  raise_if (negb (truthy (get user_data "user_id")))
    (InvalidScheduleDataException "user_id is required");;
  raise_if (match as_int (get user_data "total_chunks") with
            | Some n => n <=? 0
            | None => true
            end)
    (InvalidScheduleDataException "total_chunks must be a positive integer");;
  let schedule_type := get user_data "schedule_type" in
  raise_if (truthy schedule_type
            && negb (existsb (eq_str schedule_type) Models.ScheduleType_values))
    (InvalidScheduleDataException "Invalid schedule_type");;
  none <- Models.ScheduleType_attr "NONE";;
  if eq_str schedule_type none then Ok user_data
  else
    let user_timezone := get_or user_data "user_timezone" (Str "Asia/Kolkata") in
    bad_tz <- not_in_timezones user_timezone;;
    let user_data :=
      if bad_tz then <["user_timezone" := Str "Asia/Kolkata"]> user_data
      else user_data in
    let schedule_time := get user_data "schedule_time" in
    (if truthy schedule_time then _validate_schedule_time schedule_time
     else Ok tt);;
    every_n_hours <- Models.ScheduleType_attr "EVERY_N_HOURS";;
    (if eq_str schedule_type every_n_hours then
       let hours_interval := get user_data "hours_interval" in
       raise_if (negb (truthy hours_interval))
         (InvalidScheduleDataException
            "hours_interval is required for EVERY_N_HOURS schedule");;
       raise_if (not_int_between hours_interval MIN_HOURS_INTERVAL MAX_HOURS_INTERVAL)
         (InvalidScheduleDataException "hours_interval must be between 1 and 24")
     else Ok tt);;
    let chunks_per_delivery := get_or user_data "chunks_per_delivery" (Int 2) in
    let user_data :=
      if not_int_between chunks_per_delivery
           MIN_CHUNKS_PER_DELIVERY MAX_CHUNKS_PER_DELIVERY
      then <["chunks_per_delivery" := Int 2]> user_data
      else user_data in
    let immediate_chunks_count := get_or user_data "immediate_chunks_count" (Int 0) in
    match as_int immediate_chunks_count with
    | Some n =>
        if n <? 0 then Ok (<["immediate_chunks_count" := Int 0]> user_data)
        else
          match as_int (get user_data "total_chunks") with
          | Some total =>
              if total <? n
              then Ok (<["immediate_chunks_count" := get user_data "total_chunks"]>
                         user_data)
              else Ok user_data
          | None => Raise (TypeError "'>' not supported between instances")
          end
    | None => Ok (<["immediate_chunks_count" := Int 0]> user_data)
    end.

(** [ScheduleValidator.validate_schedule_data]: every exception of the
    body is re-raised as [InvalidScheduleDataException(str(e))]. *)
Definition validate_schedule_data (user_data : gmap string val)
  : res (gmap string val) :=
  try_except (validate_body user_data) (fun _ => true)
    (fun e => Raise (InvalidScheduleDataException (str_of e))).

End ScheduleValidator.

(** *** Notions and states the statements below refer to *)

(** A request that meets every rule: subject id, three chunks, a daily
    schedule at 09:00 in a recognised zone. *)
Definition daily_request : gmap string val :=
  <["user_id" := Str "u1"]>
    (<["total_chunks" := Int 3]>
       (<["schedule_type" := Str "daily"]>
          (<["schedule_time" := Str "09:00"]>
             (<["user_timezone" := Str "Asia/Kolkata"]> ∅)))).

(** A set of zone names that has the zone of the request. *)
Definition some_timezones : gset string :=
  {[ "Asia/Kolkata"; "UTC"; "America/New_York" ]}.

End Validators.

(** ** The shared environment: Redis, the beat schedule, the task queue
       and the SMTP server *)

Module Sys.

Import Py.

(** The dictionary [create_chunks_and_process] stores under
    [user_chunks:<id>], with the keys the code reads. [ud_completed_at]
    stands for the keys [status] and [completed_at], which only
    [cleanup_user_schedule] sets, and only on a document it finds under
    a schedule key. *)
Record UserData := {
  ud_user_id : string;
  ud_email : string;
  ud_chunks : list Models.Chunk;
  ud_total_chunks : Z;
  ud_schedule_type : option string;
  ud_processed_count : Z;
  ud_current_index : Z;
  ud_completed_at : option string
}.

Record Usage := {
  usage_total_tokens : Z;
  usage_prompt_tokens : Z;
  usage_completion_tokens : Z
}.

(** The dictionaries [process_chunk] returns. *)
Record InsightRecord := {
  chunk_index : Z;
  insight : option string;
  error : option string;
  usage : option Usage
}.

(** The dictionary of [_store_schedule_metadata]. *)
Record ScheduleMetadata := {
  sm_user_id : string;
  sm_task_name : string;
  sm_schedule_type : string;
  sm_schedule_time : string;
  sm_timezone : string;
  sm_chunks_per_delivery : Z;
  sm_start_index : Z;
  sm_remaining_chunks : Z;
  sm_created_at : string;
  sm_status : string;
  sm_hours_interval : option Z;
  sm_completed_at : option string
}.

(** The dictionary of [update_user_progress]; [p_completed_at] as
    [ud_completed_at]. *)
Record Progress := {
  current_index : Z;
  processed_count : Z;
  last_processed_at : string;
  last_task_id : nat;
  p_completed_at : option string
}.

(** What a Redis key holds: one of the values this program writes. The
    JSON documents are kept in decoded form; [Marker] is the text ["1"]
    of the delivery marker, which [json.loads] reads as the integer [1].
    Any key may hold any of them. Expiry of keys is not modelled. *)
Inductive value :=
| UserChunks (d : UserData)
| UserInsights (l : list InsightRecord)
| UserSchedule (m : ScheduleMetadata)
| UserProgress (p : Progress)
| Marker.

(** A value read with [redis_client.get] is true in a condition unless
    it is missing: no stored text is empty. *)
Definition raw_truthy (v : option value) : bool :=
  match v with
  | None => false
  | Some _ => true
  end.

(** Truth value of a decoded document: an empty list is false, a
    dictionary with keys and the integer [1] are true. *)
Definition doc_truthy (doc : value) : bool :=
  match doc with
  | UserInsights [] => false
  | _ => true
  end.

(** An entry of [celery_app.conf.beat_schedule]. *)
Record BeatEntry := {
  be_task : string;
  be_user_id : string;
  be_chunks_per_delivery : Z;
  be_start_index : Z
}.

(** A task handed to the queue with [.delay(...)]. *)
Inductive Task :=
| GenerateInsights (userId : string) (chunks : list Models.Chunk)
| SendEmailChunk (user_id : string) (chunk_index : Z) (parent_task_id : nat).

Record Email := {
  mail_from : string;
  mail_to : string;
  mail_subject : string;
  mail_body : string
}.

Record World := {
  redis : gmap string value;
  beat_schedule : gmap string BeatEntry;
  queue : list (nat * Task);
  next_task_id : nat;
  outbox : list Email
}.

(** The two connections to the store: the client of the
    [RedisManager] of the scheduler and the module-level [redis_client]
    of [tasks.py], which [main.py] uses as well. *)
Inductive client := Manager | Direct.

Inductive command := GET | SETEX | DEL | KEYS.

(** One access to the store: a command sent through a client for a key;
    for [KEYS] the pattern, and for the [DEL] of the keys of a pattern
    that pattern, stands in the place of the key. *)
Inductive access := Access (via : client) (cmd : command) (key : string).

(** What a call finds around it: which of its accesses to the store are
    answered, whether the SMTP server answers, the wall-clock timestamp,
    and [EMAIL_FROM]. No function of the program sends the same command
    for the same key through the same client twice in a call, so that
    every pattern of failures of a call is an environment: an access can
    fail after an earlier one succeeded. *)
Record Env := {
  redis_up : access -> bool;
  smtp_up : bool;
  now_iso : string;
  EMAIL_FROM : string
}.

Definition T (A : Type) : Type := Env -> World -> res A * World.

Definition ret {A} (a : A) : T A := fun _ w => (Ok a, w).
Definition raise {A} (e : exn) : T A := fun _ w => (Raise e, w).
Definition bind {A B} (m : T A) (k : A -> T B) : T B :=
  fun env w =>
    match m env w with
    | (Ok a, w') => k a env w'
    | (Raise e, w') => (Raise e, w')
    end.

(** [try: m  except Exception as e: h e] *)
Definition try_catch {A} (m : T A) (h : exn -> T A) : T A :=
  fun env w =>
    match m env w with
    | (Ok a, w') => (Ok a, w')
    | (Raise e, w') => h e env w'
    end.

Declare Scope sys_scope.
Delimit Scope sys_scope with sys.
Notation "x <- c1 ;; c2" := (bind c1 (fun x => c2))
  (at level 100, c1 at next level, right associativity) : sys_scope.
Notation "c1 ;; c2" := (bind c1 (fun _ => c2))
  (at level 100, right associativity) : sys_scope.
Local Open Scope sys_scope.

Definition ask : T Env := fun env w => (Ok env, w).
Definition get_world : T World := fun _ w => (Ok w, w).

Definition set_redis (w : World) (r : gmap string value) : World :=
  {| redis := r; beat_schedule := beat_schedule w; queue := queue w;
     next_task_id := next_task_id w; outbox := outbox w |}.

Definition set_beat_schedule (w : World) (b : gmap string BeatEntry) : World :=
  {| redis := redis w; beat_schedule := b; queue := queue w;
     next_task_id := next_task_id w; outbox := outbox w |}.

(** *** The Redis client *)

(** [client.get(key)] *)
Definition client_get (via : client) (key : string) : T (option value) :=
  fun env w =>
    if redis_up env (Access via GET key) then (Ok (redis w !! key), w)
    else (Raise (ConnectionError "redis"), w).

(** [client.setex(key, ttl, value)] *)
Definition client_setex (via : client) (key : string) (v : value) : T unit :=
  fun env w =>
    if redis_up env (Access via SETEX key)
    then (Ok tt, set_redis w (<[key := v]> (redis w)))
    else (Raise (ConnectionError "redis"), w).

(** [client.delete(key)] *)
Definition client_delete (via : client) (key : string) : T unit :=
  fun env w =>
    if redis_up env (Access via DEL key)
    then (Ok tt, set_redis w (delete key (redis w)))
    else (Raise (ConnectionError "redis"), w).

(** [redis_client.get(key)] and [redis_client.setex(key, ttl, value)] of
    [tasks.py] and [main.py] *)
Definition redis_get (key : string) : T (option value) := client_get Direct key.
Definition redis_setex (key : string) (v : value) : T unit :=
  client_setex Direct key v.

(** *** scheduling/redis_manager.py *)

Definition as_redis_exception {A} (m : T A) (what : string) : T A :=
  try_catch m (fun e => raise (RedisConnectionException (what +:+ str_of e))).

(** [RedisManager.get_json] *)
Definition get_json (key : string) : T (option value) :=
  as_redis_exception (client_get Manager key) "Failed to get Redis key: ".

(** [RedisManager.setex_json] *)
Definition setex_json (key : string) (v : value) : T unit :=
  as_redis_exception (client_setex Manager key v) "Failed to set Redis key: ".

(** [RedisManager.delete] *)
Definition delete_key (key : string) : T unit :=
  as_redis_exception (client_delete Manager key) "Failed to delete Redis key: ".

(** *** The queue and the mail server *)

(** [task.delay(...)]: the task is queued under a fresh id, which is
    returned. *)
Definition delay (t : Task) : T nat :=
  fun _ w =>
    (Ok (next_task_id w),
     {| redis := redis w; beat_schedule := beat_schedule w;
        queue := queue w ++ [(next_task_id w, t)];
        next_task_id := S (next_task_id w); outbox := outbox w |}).

(** The [with smtplib.SMTP(...)] block: the message is handed over, or
    the transport raises. *)
Definition smtp_send (m : Email) : T unit :=
  fun env w =>
    if smtp_up env then
      (Ok tt,
       {| redis := redis w; beat_schedule := beat_schedule w; queue := queue w;
          next_task_id := next_task_id w; outbox := outbox w ++ [m] |})
    else (Raise (SMTPException "send failed"), w).

(** *** Notions and states the statements below refer to *)

(** An empty store, no job, nothing queued or sent; and surroundings
    in which every service answers. *)
Definition empty_world : World :=
  {| redis := ∅; beat_schedule := ∅; queue := []; next_task_id := 0; outbox := [] |}.

Definition all_up : Env :=
  {| redis_up := fun _ => true; smtp_up := true;
     now_iso := "2025-01-01T09:00:00+05:30";
     EMAIL_FROM := "reader@example.org" |}.

(** The store answers every access of the call. *)
Definition reachable (env : Env) : Prop := forall a, redis_up env a = true.

(** The store answers no access of the call. *)
Definition unreachable (env : Env) : Prop := forall a, redis_up env a = false.

End Sys.

(** ** scheduling/scheduler.py *)

Module Scheduler.

Import Py Sys.
Local Open Scope sys_scope.

Definition schedule_key (user_id : string) : string := "user_schedule:" +:+ user_id.
Definition progress_key (user_id : string) : string := "user_progress:" +:+ user_id.
Definition chunks_key (user_id : string) : string := "user_chunks:" +:+ user_id.

(** *** Reading a decoded document

    A reader receives whatever the key holds. The dictionaries are the
    documents of [user_chunks], [user_schedule] and [user_progress]; a
    list of insight records and the integer of a marker have no method
    [get] and no key. *)

Definition no_get {A} : T A :=
  raise (AttributeError "object has no attribute 'get'").

(** [doc.get("current_index", dflt)]: a key of the progress document
    and of the document of [user_chunks]. *)
Definition get_current_index (doc : value) (dflt : Z) : T Z :=
  match doc with
  | UserProgress p => ret (current_index p)
  | UserChunks d => ret (ud_current_index d)
  | UserSchedule _ => ret dflt
  | UserInsights _ | Marker => no_get
  end.

(** [doc.get("processed_count", dflt)]: as [current_index]. *)
Definition get_processed_count (doc : value) (dflt : Z) : T Z :=
  match doc with
  | UserProgress p => ret (processed_count p)
  | UserChunks d => ret (ud_processed_count d)
  | UserSchedule _ => ret dflt
  | UserInsights _ | Marker => no_get
  end.

(** [doc.get("task_name")]: a key of the schedule metadata only. *)
Definition get_task_name (doc : value) : T (option string) :=
  match doc with
  | UserSchedule m => ret (Some (sm_task_name m))
  | UserProgress _ | UserChunks _ => ret None
  | UserInsights _ | Marker => no_get
  end.

(** [doc["chunks"]]: a key of the document of [user_chunks] only. *)
Definition item_chunks (doc : value) : T (list Models.Chunk) :=
  match doc with
  | UserChunks d => ret (ud_chunks d)
  | UserProgress _ | UserSchedule _ => raise (KeyError "chunks")
  | UserInsights _ => raise (TypeError "list indices must be integers or slices, not str")
  | Marker => raise (TypeError "'int' object is not subscriptable")
  end.

(** [doc.get("chunks", [])] *)
Definition get_chunks (doc : value) : T (list Models.Chunk) :=
  match doc with
  | UserChunks d => ret (ud_chunks d)
  | UserProgress _ | UserSchedule _ => ret []
  | UserInsights _ | Marker => no_get
  end.

Definition complete (m : ScheduleMetadata) (now : string) : ScheduleMetadata :=
  {| sm_user_id := sm_user_id m; sm_task_name := sm_task_name m;
     sm_schedule_type := sm_schedule_type m;
     sm_schedule_time := sm_schedule_time m; sm_timezone := sm_timezone m;
     sm_chunks_per_delivery := sm_chunks_per_delivery m;
     sm_start_index := sm_start_index m;
     sm_remaining_chunks := sm_remaining_chunks m;
     sm_created_at := sm_created_at m;
     sm_status := "completed";
     sm_hours_interval := sm_hours_interval m;
     sm_completed_at := Some now |}.

(** [doc["status"] = "completed"; doc["completed_at"] = now] on a
    dictionary; a list or an integer supports no such assignment. *)
Definition completed (doc : value) (now : string) : T value :=
  match doc with
  | UserSchedule m => ret (UserSchedule (complete m now))
  | UserProgress p =>
      ret (UserProgress
             {| current_index := current_index p;
                processed_count := processed_count p;
                last_processed_at := last_processed_at p;
                last_task_id := last_task_id p;
                p_completed_at := Some now |})
  | UserChunks d =>
      ret (UserChunks
             {| ud_user_id := ud_user_id d; ud_email := ud_email d;
                ud_chunks := ud_chunks d; ud_total_chunks := ud_total_chunks d;
                ud_schedule_type := ud_schedule_type d;
                ud_processed_count := ud_processed_count d;
                ud_current_index := ud_current_index d;
                ud_completed_at := Some now |})
  | UserInsights _ | Marker =>
      raise (TypeError "object does not support item assignment")
  end.

(** [del self.celery_app.conf.beat_schedule[task_name]] when
    [task_name and task_name in ...beat_schedule] *)
Definition remove_beat_entry (task_name : string) : T unit :=
  fun _ w =>
    if negb (String.eqb task_name "")
       && bool_decide (is_Some (beat_schedule w !! task_name))
    then (Ok tt, set_beat_schedule w (delete task_name (beat_schedule w)))
    else (Ok tt, w).

(** [UserScheduler.cleanup_user_schedule] *)
Definition cleanup_user_schedule (user_id : string) : T bool :=
  try_catch
    (schedule_data <- get_json (schedule_key user_id);;
     (match schedule_data with
      | Some doc =>
          if doc_truthy doc then
            task_name <- get_task_name doc;;
            (match task_name with
             | Some name => remove_beat_entry name
             | None => ret tt
             end);;
            env <- ask;;
            doc' <- completed doc (now_iso env);;
            setex_json (schedule_key user_id) doc'
          else ret tt
      | None => ret tt
      end);;
     delete_key (progress_key user_id);;
     ret true)
    (fun _ => ret false).

(** [UserScheduler.get_user_processing_state]: the pair
    [(current_index, processed_count)]. *)
Definition get_user_processing_state (user_id : string) (start_index : Z)
  : T (Z * Z) :=
  try_catch
    (progress_data <- get_json (progress_key user_id);;
     match progress_data with
     | Some doc =>
         if doc_truthy doc then
           current_index <- get_current_index doc start_index;;
           processed_count <- get_processed_count doc 0;;
           ret (current_index, processed_count)
         else ret (start_index, 0)
     | None => ret (start_index, 0)
     end)
    (fun _ => ret (start_index, 0)).

(** [UserScheduler.update_user_progress] *)
Definition update_user_progress (user_id : string) (new_index processed_count : Z)
           (task_id : nat) : T bool :=
  try_catch
    (env <- ask;;
     setex_json (progress_key user_id)
       (UserProgress {| current_index := new_index;
                        processed_count := processed_count;
                        last_processed_at := now_iso env;
                        last_task_id := task_id;
                        p_completed_at := None |});;
     ret true)
    (fun _ => ret false).

(** [UserScheduler.get_user_chunks] *)
Definition get_user_chunks (user_id : string) : T (option (list Models.Chunk)) :=
  try_catch
    (user_data <- get_json (chunks_key user_id);;
     match user_data with
     | Some doc =>
         if doc_truthy doc then
           chunks <- item_chunks doc;;
           ret (Some chunks)
         else ret None
     | None => ret None
     end)
    (fun _ => ret None).

(** [SchedulingMetrics.record_schedule_execution] and [record_error]
    (scheduling/metrics.py): the call [timedelta(days=7)] names a class
    the module does not import, so the [NameError] is caught by the
    method's own handler before anything is written. *)
Definition record_metric : T unit := ret tt.

End Scheduler.

(** ** tasks.py: the Celery tasks *)

Module Tasks.

Import Py Sys Scheduler.
Local Open Scope sys_scope.

Definition insights_key (userId : string) : string := "user_insights:" +:+ userId.

(** [f"email_sent:{user_id}:{chunk_index}"] *)
Definition marker_key (user_id : string) (chunk_index : Z) : string :=
  "email_sent:" +:+ user_id +:+ ":" +:+ pretty chunk_index.

(** *** generate_insights: merging and storing the results *)

(** [existing_map[r.get("chunk_index")] = r] for each [r] in turn.
    The dictionary comprehension over [existing] is the same loop. *)
Definition update_entries (m : gmap Z InsightRecord) (rs : list InsightRecord)
  : gmap Z InsightRecord :=
  foldl (fun m r => <[chunk_index r := r]> m) m rs.

(** [sorted(existing_map.keys())] *)
Definition sorted_keys (m : gmap Z InsightRecord) : list Z :=
  merge_sort Z.le (map fst (map_to_list m)).

(** [[existing_map[k] for k in sorted(existing_map.keys())]] *)
Definition merge_results (existing insights_results : list InsightRecord)
  : list InsightRecord :=
  let existing_map := update_entries ∅ existing in
  let existing_map := update_entries existing_map insights_results in
  omap (fun k => existing_map !! k) (sorted_keys existing_map).

(** [_get_redis_json(key)] followed by
    [if existing and isinstance(existing, list)]: the stored list, or
    the empty one. *)
Definition existing_insights (v : option value) : list InsightRecord :=
  match v with
  | Some (UserInsights l) => l
  | _ => []
  end.

Fixpoint enqueue_emails (userId : string) (task_id : nat)
         (items : list InsightRecord) : T unit :=
  match items with
  | [] => ret tt
  | item :: items' =>
      delay (SendEmailChunk userId (chunk_index item) task_id);;
      enqueue_emails userId task_id items'
  end.

(** The dictionary [generate_insights] returns: [processed] and
    [total_stored]. *)
Record InsightsSummary := { processed : Z; total_stored : Z }.

(** [generate_insights], from the merge on: [insights_results] is the
    list [asyncio.run(process_all_chunks())] returned, one record per
    chunk of the call. *)
Definition generate_insights (task_id : nat) (userId : string)
           (insights_results : list InsightRecord) : T InsightsSummary :=
  v <- redis_get (insights_key userId);;
  let final_results := merge_results (existing_insights v) insights_results in
  redis_setex (insights_key userId) (UserInsights final_results);;
  enqueue_emails userId task_id insights_results;;
  ret {| processed := Z.of_nat (length insights_results);
         total_stored := Z.of_nat (length final_results) |}.

(** *** process_scheduled_chunks *)

Inductive ScheduledResult :=
| UserDataNotFound
| Completed (total_processed : Z)
| BatchQueued (chunks_queued : Z) (generate_insights_task_id : nat)
              (batch_first batch_last : Z) (total_processed : Z) (remaining : Z).

Definition schedule_removed (user_id : string) : T ScheduledResult :=
  cleanup_user_schedule user_id;;
  ret UserDataNotFound.

(** [process_scheduled_chunks]; the handler of the outer [try] records
    the error and re-raises it. *)
Definition process_scheduled_chunks (user_id : string) (chunks_per_delivery : Z)
           (start_index : Z) : T ScheduledResult :=
  try_catch
    (all_chunks_data <- get_user_chunks user_id;;
     match all_chunks_data with
     | None | Some [] => schedule_removed user_id
     | Some _ =>
         raw <- redis_get (chunks_key user_id);;
         match raw with
         | None => schedule_removed user_id
         | Some user_data =>
           all_chunks <- get_chunks user_data;;
           match all_chunks with
           | [] => schedule_removed user_id
           | _ =>
               progress <- get_user_processing_state user_id start_index;;
               let (current_index, processed_count) := progress : Z * Z in
               let end_index :=
                 Z.min (current_index + chunks_per_delivery)
                       (Z.of_nat (length all_chunks)) in
               let chunks_to_process := py_slice all_chunks current_index end_index in
               match chunks_to_process with
               | [] =>
                   cleanup_user_schedule user_id;;
                   record_metric;;
                   ret (Completed processed_count)
               | _ =>
                   task_id <- delay (GenerateInsights user_id chunks_to_process);;
                   let new_processed_count :=
                     processed_count + Z.of_nat (length chunks_to_process) in
                   update_user_progress user_id end_index new_processed_count task_id;;
                   record_metric;;
                   ret (BatchQueued (Z.of_nat (length chunks_to_process)) task_id
                          current_index (end_index - 1) new_processed_count
                          (Z.of_nat (length all_chunks) - end_index))
               end
           end
         end
     end)
    (fun exc => record_metric;; raise exc).

(** *** send_email_chunk *)

Inductive SendStatus := AlreadySent | Sent.

(** [json.loads(insights_raw)] under [if insights_raw], as the loop
    [for entry in insights_list: entry.get("chunk_index")] reads it: the
    entries of the stored list, and none when the key is absent.
    Iterating a dictionary gives its keys, strings without [get]; an
    integer cannot be iterated. *)
Definition as_insights (v : option value) : T (list InsightRecord) :=
  match v with
  | None => ret []
  | Some (UserInsights l) => ret l
  | Some (UserChunks _) | Some (UserSchedule _) | Some (UserProgress _) =>
      raise (AttributeError "'str' object has no attribute 'get'")
  | Some Marker => raise (TypeError "'int' object is not iterable")
  end.

(** [all_user_data.get("email")]: a key of the document of
    [user_chunks] only. *)
Definition get_email (doc : value) : T (option string) :=
  match doc with
  | UserChunks d => ret (Some (ud_email d))
  | UserProgress _ | UserSchedule _ => ret None
  | UserInsights _ | Marker => no_get
  end.

(** [chunks[chunk_index]] after the guard [chunk_index >= len(chunks)]:
    a negative index counts from the end. *)
Definition chunk_at (chunks : list Models.Chunk) (chunk_index : Z)
  : T Models.Chunk :=
  let n := Z.of_nat (length chunks) in
  if n <=? chunk_index then raise (IndexError "chunk_index out of range")
  else
    let i := if chunk_index <? 0 then chunk_index + n else chunk_index in
    match (if i <? 0 then None else chunks !! Z.to_nat i) with
    | Some c => ret c
    | None => raise (IndexError "list index out of range")
    end.

(** [entry.get("insight", "") or entry.get("error", "")] of the first
    entry for [chunk_index]; [""] when there is none. *)
Definition insight_text_of (insights_list : list InsightRecord) (chunk_index : Z)
  : string :=
  match List.find (fun entry => Sys.chunk_index entry =? chunk_index) insights_list with
  | Some entry =>
      match insight entry with
      | Some s => if String.eqb s "" then default "" (error entry) else s
      | None => default "" (error entry)
      end
  | None => ""
  end.

Definition compose_email (from to chunk_text insight_text : string) : Email :=
  {| mail_from := from; mail_to := to;
     mail_subject := "Your Scheduled Reading Chunk";
     mail_body := chunk_text +:+ String "010" (String "010" "---")
                  +:+ String "010" "Insights:" +:+ String "010" insight_text |}.

(** The body of the [try] block of [send_email_chunk]. *)
Definition send_body (user_id : string) (chunk_index : Z) : T SendStatus :=
  user_chunks_raw <- redis_get (chunks_key user_id);;
  match user_chunks_raw with
  | None => raise (ValueError "user_chunks not found in redis")
  | Some all_user_data =>
      chunks <- get_chunks all_user_data;;
      chunk <- chunk_at chunks chunk_index;;
      let chunk_text := Models.text chunk in
      insights_raw <- redis_get (insights_key user_id);;
      insights_list <- as_insights insights_raw;;
      let insight_text := insight_text_of insights_list chunk_index in
      to_email <- get_email all_user_data;;
      let to_email := default "" to_email in
      (if String.eqb to_email "" then raise (ValueError "user email not found")
       else ret tt);;
      env <- ask;;
      smtp_send (compose_email (EMAIL_FROM env) to_email chunk_text insight_text);;
      redis_setex (marker_key user_id chunk_index) Marker;;
      ret Sent
  end.

(** [send_email_chunk]: the marker is looked up before the [try]; the
    handler gives the task back to Celery with [self.retry]. *)
Definition send_email_chunk (user_id : string) (chunk_index : Z)
           (parent_task_id : nat) : T SendStatus :=
  marker <- redis_get (marker_key user_id chunk_index);;
  if raw_truthy marker then ret AlreadySent
  else
    try_catch (send_body user_id chunk_index)
      (fun exc => raise (CeleryRetry (str_of exc))).

(** *** Notions and states the statements below refer to *)

(** The state after a delivery: the message in the outbox, the marker
    in the store. *)
Definition with_delivery (w : World) (key : string) (m : Email) : World :=
  {| redis := <[key := Marker]> (redis w); beat_schedule := beat_schedule w;
     queue := queue w; next_task_id := next_task_id w; outbox := outbox w ++ [m] |}.




(** The record written last for index [k] in a sequence of writes. *)
Definition last_write (rs : list InsightRecord) (k : Z) : option InsightRecord :=
  last (filter (fun r => chunk_index r = k) rs).

(** The dictionary [existing_map] once both loops have run. *)
Definition merged_map (existing results : list InsightRecord) : gmap Z InsightRecord :=
  update_entries (update_entries ∅ existing) results.

(** A successful record for chunk [i]. *)
Definition record_for (i : Z) (s : string) : InsightRecord :=
  {| chunk_index := i; insight := Some s; error := None; usage := None |}.

(** A subject with records for chunks 0 and 1, and a call that brings
    chunk 2 and a new record for chunk 0. *)
Definition stored_two : World :=
  set_redis empty_world
    {[ insights_key "u1" := UserInsights [record_for 0 "a"; record_for 1 "b"] ]}.

Definition new_results : list InsightRecord := [record_for 2 "c"; record_for 0 "a2"].

(** The progress [process_scheduled_chunks] works from: the two keys
    of the dictionary under the progress key, with [start_index] and
    [0] where a key, or the dictionary, is missing. *)
Definition stored_progress (w : World) (user_id : string) (start_index : Z) : Z * Z :=
  match redis w !! progress_key user_id with
  | Some (UserProgress p) => (current_index p, processed_count p)
  | Some (UserChunks d) => (ud_current_index d, ud_processed_count d)
  | _ => (start_index, 0)
  end.

(** The state after a batch was handed to the queue. *)
Definition after_dispatch (w : World) (env : Env) (user_id : string)
           (batch : list Models.Chunk) (end_index new_count : Z) : World :=
  {| redis := <[progress_key user_id :=
                  UserProgress {| current_index := end_index;
                                  processed_count := new_count;
                                  last_processed_at := now_iso env;
                                  last_task_id := next_task_id w;
                                  p_completed_at := None |}]> (redis w);
     beat_schedule := beat_schedule w;
     queue := queue w ++ [(next_task_id w, GenerateInsights user_id batch)];
     next_task_id := S (next_task_id w);
     outbox := outbox w |}.

(** The scenario of a subject with three chunks, the first processed at
    once: no progress is stored yet, the job starts at index 1 and
    delivers two chunks per firing. *)
Definition chunk_of (i : Z) (s : string) : Models.Chunk :=
  {| Models.index := i; Models.text := s; Models.token_count := 1;
     Models.insight := None |}.

Definition three_chunks : UserData :=
  {| ud_user_id := "u1"; ud_email := "u1@example.org";
     ud_chunks := [chunk_of 0 "one"; chunk_of 1 "two"; chunk_of 2 "three"];
     ud_total_chunks := 3; ud_schedule_type := Some "daily";
     ud_processed_count := 0; ud_current_index := 0;
     ud_completed_at := None |}.

Definition before_firing : World :=
  set_redis empty_world {[ chunks_key "u1" := UserChunks three_chunks ]}.


End Tasks.


(** ** rate_limiting/RateLimiter.py: statistics *)

Module UsageStats.

Import RateLimiter.
Local Open Scope rl_scope.

(** The dictionary of [get_usage_stats]. *)
Record Stats := {
  stat_requests_used : Z;
  stat_tokens_used : Z;
  daily_requests_remaining : Z;
  daily_tokens_remaining : Z;
  total_recorded_requests : Z;
  next_daily_reset : Q
}.

(** [get_usage_stats] *)
Definition get_usage_stats (l : LLMRateLimiter) : Stats :=
  {| stat_requests_used := daily_requests_used l;
     stat_tokens_used := daily_tokens_used l;
     daily_requests_remaining :=
       py_max 0 (daily_request_limit (config l) - daily_requests_used l);
     daily_tokens_remaining :=
       py_max 0 (daily_token_limit (config l) - daily_tokens_used l);
     total_recorded_requests := Z.of_nat (length (usage_history l));
     next_daily_reset := daily_reset_time l |}.

(** [k] calls of [consume(n)] in a row, all reading the clock at [now]:
    the answers, first call first, and the bucket they leave. *)
Fixpoint consume_times (k : nat) (now : Q) (n : Z) (b : TokenBucket)
  : list bool * TokenBucket :=
  match k with
  | O => ([], b)
  | S k' =>
      let (ok, b') := consume now n b in
      let (oks, b'') := consume_times k' now n b' in
      (ok :: oks, b'')
  end.

(** *** Notions and states the statements below refer to *)

(** A bucket at an integer level [j] that a refill at [now] leaves
    there: no time has passed since the last refill, or the bucket is
    full. *)
Definition settled (now : Q) (b : TokenBucket) (j : Z) : Prop :=
  (tokens b == inject_Z j)%Q
  /\ j <= capacity b
  /\ (0 <= (now - last_refill b) * refill_rate b)%Q
  /\ ((now - last_refill b) * refill_rate b == 0 \/ j = capacity b)%Q.

(** What the burst buckets are no part of: both daily counters, the
    reset time and the usage history. *)
Definition daily (l : LLMRateLimiter) : Z * Z * Q * list UsageRecord :=
  (daily_requests_used l, daily_tokens_used l, daily_reset_time l, usage_history l).

(** The limiter of [tasks.py] a day after it was built. *)
Definition next_day : World :=
  {| limiter := limiter w0; clock := Clock.constant 90000 |}.

End UsageStats.

(** ** Strings as sequences of characters *)

Module Text.

Fixpoint chars (s : string) : list ascii :=
  match s with
  | EmptyString => []
  | String c s' => c :: chars s'
  end.

(** No white space at either end. *)
Definition trimmed (s : string) : Prop :=
  (forall c, head (chars s) = Some c -> isspace c = false)
  /\ (forall c, last (chars s) = Some c -> isspace c = false).

(** The characters that are no white space, in order. *)
Definition ink (l : list ascii) : list ascii :=
  filter (fun c => isspace c = false) l.

(** The characters of the chunks, one chunk after the other. *)
Definition all_chars (chunks : list string) : list ascii :=
  concat (map chars chunks).

End Text.

(** ** scheduling/redis_manager.py and scheduler.py: the maintenance sweep *)

Module Sweep.

Import Py Sys Scheduler.
Local Open Scope sys_scope.

(** [client.keys(pattern)] for a pattern [prefix*] whose prefix has no
    special character, as the two patterns of [cleanup_expired_data]. *)
Definition keys_matching (p : string) (r : gmap string value) : list string :=
  filter (fun k => String.prefix p k = true) (map fst (map_to_list r)).

(** [RedisManager.cleanup_expired_keys]: the keys of the pattern are
    deleted and counted; a Redis error, of [keys] or of [delete], gives
    [0]. *)
Definition cleanup_expired_keys (p : string) : T Z :=
  fun env w =>
    if redis_up env (Access Manager KEYS p) then
      let keys := keys_matching p (redis w) in
      match keys with
      | [] => (Ok 0, w)
      | _ =>
          if redis_up env (Access Manager DEL p)
          then (Ok (Z.of_nat (length keys)),
                set_redis w (foldr delete (redis w) keys))
          else (Ok 0, w)
      end
    else (Ok 0, w).

(** The dictionary [cleanup_expired_data] returns. *)
Inductive CleanupReport :=
| Cleaned (metrics_cleaned progress_cleaned : Z)
| CleanupFailed (error : string).

(** [UserScheduler.cleanup_expired_data] *)
Definition cleanup_expired_data : T CleanupReport :=
  try_catch
    (metrics_cleaned <- cleanup_expired_keys "metrics:";;
     progress_cleaned <- cleanup_expired_keys "user_progress:";;
     ret (Cleaned metrics_cleaned progress_cleaned))
    (fun e => ret (CleanupFailed (str_of e))).

End Sweep.

(** ** scheduling/scheduler.py: setting up a schedule *)

Module Setup.

Import Py Sys Scheduler.
Local Open Scope sys_scope.

(** The dictionary [setup_user_schedule] returns. *)
Record SetupResult := {
  success : bool;
  message : string;
  sr_schedule_type : option val;
  sr_remaining_chunks : option Z
}.

(** A computation without effect as a step of a method. *)
Definition lift {A} (r : res A) : T A := fun _ w => (r, w).

(** [d[k]] *)
Definition item (d : gmap string val) (k : string) : res val :=
  match d !! k with
  | Some v => Ok v
  | None => Raise (KeyError k)
  end.

(** [a - b]: defined on integers among the values of a request. *)
Definition sub (a b : val) : res Z :=
  match as_int a, as_int b with
  | Some x, Some y => Ok (x - y)
  | _, _ => Raise (TypeError "unsupported operand type(s) for -")
  end.

Section UserScheduler.

Variable VALID_TIMEZONES : gset string.

(** [UserScheduler._create_schedule], which registers the job with
    Celery Beat and stores the metadata. *)
Variable _create_schedule : gmap string val -> T bool.

(** The body of the [try] block of [setup_user_schedule]. *)
Definition setup_body (user_data : gmap string val) : T SetupResult :=
  validated_data <- lift (Validators.validate_schedule_data VALID_TIMEZONES user_data);;
  let schedule_type := get validated_data "schedule_type" in
  none <- lift (Models.ScheduleType_attr "NONE");;
  if eq_str schedule_type none then
    ret {| success := true; message := "No scheduling required";
           sr_schedule_type := None; sr_remaining_chunks := None |}
  else
    let immediate_chunks_count := get_or validated_data "immediate_chunks_count" (Int 0) in
    total_chunks <- lift (item validated_data "total_chunks");;
    remaining_chunks <- lift (sub total_chunks immediate_chunks_count);;
    if remaining_chunks <=? 0 then
      ret {| success := true; message := "All chunks processed immediately";
             sr_schedule_type := None; sr_remaining_chunks := None |}
    else
      created <- _create_schedule validated_data;;
      if created : bool then
        record_metric;;
        ret {| success := true;
               message := "Schedule created for " +:+ pretty remaining_chunks +:+ " chunks";
               sr_schedule_type := Some schedule_type;
               sr_remaining_chunks := Some remaining_chunks |}
      else
        ret {| success := false; message := "Failed to create schedule";
               sr_schedule_type := None; sr_remaining_chunks := None |}.

(** [UserScheduler.setup_user_schedule]: the three handlers record the
    error and answer with a failure. *)
Definition setup_user_schedule (user_data : gmap string val) : T SetupResult :=
  try_catch (setup_body user_data)
    (fun e =>
       record_metric;;
       ret {| success := false;
              message :=
                match e with
                | InvalidScheduleDataException _ => "Invalid schedule data: " +:+ str_of e
                | RedisConnectionException _ => "Database connection failed"
                | _ => "Internal system error"
                end;
              sr_schedule_type := None; sr_remaining_chunks := None |}).

End UserScheduler.

End Setup.

(** ** main.py: the endpoints over the scheduler and the store *)

Module Api.

Import Py Sys Scheduler Tasks.
Local Open Scope sys_scope.

(** What an endpoint does: it returns a body, or raises
    [HTTPException(status_code, detail)], which FastAPI answers with
    that status. *)
Inductive outcome (A : Type) :=
| Returned (body : A)
| HTTPException (status_code : Z) (detail : string).
Arguments Returned {A} body.
Arguments HTTPException {A} status_code detail.

(** [except Exception as e: raise HTTPException(status_code=500, ...)]
    around the body of an endpoint: [HTTPException] is an [Exception],
    so one raised in the body is caught as well. *)
Definition except_500 {A} (body : T (outcome A)) (detail : string)
  : Env -> World -> outcome A * World :=
  fun env w =>
    match body env w with
    | (Ok (Returned a), w') => (Returned a, w')
    | (Ok (HTTPException _ _), w') => (HTTPException 500 detail, w')
    | (Raise _, w') => (HTTPException 500 detail, w')
    end.

(** [cancel_user_schedule] ([DELETE /user-schedule/{user_id}]) *)
Definition cancel_user_schedule (user_id : string)
  : Env -> World -> outcome string * World :=
  except_500
    (success <- cleanup_user_schedule user_id;;
     if success : bool then ret (Returned ("Schedule cancelled for user " +:+ user_id))
     else ret (HTTPException 404 "No active schedule found for user"))
    "Failed to cancel schedule".

(** The body [get_user_insights] returns: the subject, the decoded
    value and the time of the reading. *)
Record InsightsBody := {
  ib_user_id : string;
  ib_insights : value;
  ib_retrieved_at : string
}.

(** [get_user_insights] ([GET /user-insights/{user_id}]). Every stored
    text decodes, so that the handler of [JSONDecodeError] is not
    reached; the handler of [Exception] takes every exception of the
    body, the [HTTPException] of the body among them. *)
Definition get_user_insights (user_id : string)
  : Env -> World -> outcome InsightsBody * World :=
  except_500
    (insights_data <- redis_get (insights_key user_id);;
     match insights_data with
     | None => ret (HTTPException 404 "No insights found for this user")
     | Some insights =>
         env <- ask;;
         ret (Returned {| ib_user_id := user_id; ib_insights := insights;
                          ib_retrieved_at := now_iso env |})
     end)
    "Failed to retrieve insights".

(** [UserScheduleInfo]; [progress] is the dictionary under the
    progress key. *)
Record UserScheduleInfo := {
  usi_user_id : string;
  schedule_active : bool;
  usi_schedule_type : option string;
  next_execution : option string;
  chunks_remaining : option Z;
  usi_progress : option value
}.

(** [doc.get("remaining_chunks")]: a key of the schedule metadata
    only. *)
Definition get_remaining_chunks (doc : value) : T (option Z) :=
  match doc with
  | UserSchedule m => ret (Some (sm_remaining_chunks m))
  | UserProgress _ | UserChunks _ => ret None
  | UserInsights _ | Marker => no_get
  end.

(** [doc.get("status")]: [cleanup_user_schedule] sets it to
    [completed] together with [completed_at]. *)
Definition get_status (doc : value) : T (option string) :=
  match doc with
  | UserSchedule m => ret (Some (sm_status m))
  | UserProgress p => ret ((fun _ => "completed") <$> p_completed_at p)
  | UserChunks d => ret ((fun _ => "completed") <$> ud_completed_at d)
  | UserInsights _ | Marker => no_get
  end.

(** [doc.get("schedule_type")] *)
Definition get_schedule_type (doc : value) : T (option string) :=
  match doc with
  | UserSchedule m => ret (Some (sm_schedule_type m))
  | UserChunks d => ret (ud_schedule_type d)
  | UserProgress _ => ret None
  | UserInsights _ | Marker => no_get
  end.

(** Validation of the field [progress: Optional[Dict[str, Any]]]: a
    list or an integer is refused. *)
Definition as_dict (progress_data : option value) : T (option value) :=
  match progress_data with
  | Some (UserInsights _) | Some Marker =>
      raise (ValueError "Input should be a valid dictionary")
  | _ => ret progress_data
  end.

Definition inactive (user_id : string) : UserScheduleInfo :=
  {| usi_user_id := user_id; schedule_active := false;
     usi_schedule_type := None; next_execution := None;
     chunks_remaining := None; usi_progress := None |}.

(** [get_user_schedule_info] ([GET /user-schedule/{user_id}]); no
    document has a key [next_execution]. *)
Definition get_user_schedule_info (user_id : string)
  : Env -> World -> outcome UserScheduleInfo * World :=
  except_500
    (schedule_data <- get_json (schedule_key user_id);;
     match schedule_data with
     | None => ret (Returned (inactive user_id))
     | Some sd =>
         if negb (doc_truthy sd) then ret (Returned (inactive user_id))
         else
           progress_data <- get_json (progress_key user_id);;
           remaining <- get_remaining_chunks sd;;
           remaining_chunks <-
             (match remaining with
              | None => ret None
              | Some n =>
                  if n =? 0 then ret None
                  else
                    processed <-
                      (match progress_data with
                       | Some pd =>
                           if doc_truthy pd then get_processed_count pd 0 else ret 0
                       | None => ret 0
                       end);;
                    ret (Some (py_max 0 (n - processed)))
              end);;
           status <- get_status sd;;
           schedule_type <- get_schedule_type sd;;
           progress <- as_dict progress_data;;
           ret (Returned {| usi_user_id := user_id;
                            schedule_active :=
                              bool_decide (status = Some "active");
                            usi_schedule_type := schedule_type;
                            next_execution := None;
                            chunks_remaining := remaining_chunks;
                            usi_progress := progress |})
     end)
    "Failed to get schedule information".

End Api.

(** ** tasks.py: one chunk through the limiter and the provider *)

Module Pipeline.

Import RateLimiter.
Local Open Scope rl_scope.

(** What [await provider_fn(...)] does: it returns the insight with the
    usage of the call, raises [aiohttp.ClientResponseError] with a
    status, or raises another exception, of which [str(e)] is kept. *)
Inductive ProviderResult :=
| Insight (insight : string) (usage : Sys.Usage)
| ClientResponseError (status : Z)
| OtherException (message : string).

(** [{"chunk_index": chunk_index, "error": msg}] *)
Definition failed (chunk_index : Z) (msg : string) : Sys.InsightRecord :=
  {| Sys.chunk_index := chunk_index; Sys.insight := None;
     Sys.error := Some msg; Sys.usage := None |}.

Section ProcessChunk.

(** The provider of [INSIGHT_PROVIDERS], called on the text of a chunk;
    it is handed the limiter. *)
Variable provider_fn : string -> M ProviderResult.

(** [for attempt in range(retries)] with [retries = 2]: [remaining] is
    the number of iterations left. A loop that ends without [return]
    makes [process_chunk] return [None]. [asyncio.sleep] leaves the
    state alone. The usage of a call has no key [model]. *)
Fixpoint attempts (remaining : nat) (attempt : Z) (chunk_index : Z) (text : string)
  : M (option Sys.InsightRecord) :=
  match remaining with
  | O => ret None
  | S remaining' =>
      r <- provider_fn text;;
      match r with
      | Insight insight usage =>
          record_actual_usage (Sys.usage_total_tokens usage)
            (Sys.usage_prompt_tokens usage) (Sys.usage_completion_tokens usage)
            text "unknown";;
          ret (Some {| Sys.chunk_index := chunk_index; Sys.insight := Some insight;
                       Sys.error := None; Sys.usage := Some usage |})
      | ClientResponseError status =>
          if (status =? 429) && (attempt <? 2 - 1)
          then attempts remaining' (attempt + 1) chunk_index text
          else ret (Some (failed chunk_index ("HTTP " +:+ pretty status)))
      | OtherException message => ret (Some (failed chunk_index message))
      end
  end.

(** [process_chunk] of [generate_insights], for one chunk at a time. *)
Definition process_chunk (chunk : Models.Chunk) : M (option Sys.InsightRecord) :=
  let chunk_index := Models.index chunk in
  let text := Models.text chunk in
  check <- can_process_request text 500;;
  match check with
  | Denied reason =>
      ret (Some (failed chunk_index ("Rate limit hit: " +:+ reason)))
  | Allowed _ _ =>
      acquired <- acquire_tokens text 500;;
      if negb acquired
      then ret (Some (failed chunk_index "Token acquisition failed"))
      else attempts 2 0 chunk_index text
  end.

End ProcessChunk.

(** *** Notions and states the statements below refer to *)

(** A record of [process_chunk]: an insight with its usage, or an
    error. *)
Definition well_formed (r : Sys.InsightRecord) : Prop :=
  (Sys.insight r <> None /\ Sys.error r = None /\ Sys.usage r <> None)
  \/ (Sys.insight r = None /\ Sys.error r <> None /\ Sys.usage r = None).

End Pipeline.

(** ** Firings in a row *)

Module Firings.

Import Py Sys Scheduler Tasks.

(** [k] firings of the job of a subject, one after the other: the
    results, first firing first, and the state they leave. *)
Fixpoint fire (k : nat) (user_id : string) (chunks_per_delivery start_index : Z)
         (env : Env) (w : World) : list (res ScheduledResult) * World :=
  match k with
  | O => ([], w)
  | S k' =>
      let (r, w') :=
        process_scheduled_chunks user_id chunks_per_delivery start_index env w in
      let (rs, w'') := fire k' user_id chunks_per_delivery start_index env w' in
      (r :: rs, w'')
  end.

(** The chunks handed to [generate_insights] by the tasks of a queue,
    in the order of the queue. *)
Fixpoint dispatched (q : list (nat * Task)) : list Models.Chunk :=
  match q with
  | [] => []
  | (_, GenerateInsights _ chunks) :: q' => chunks ++ dispatched q'
  | (_, SendEmailChunk _ _ _) :: q' => dispatched q'
  end.

End Firings.

(** ** States the statements are instantiated on *)

Module Scenarios.

Import Py Sys Scheduler Tasks.

(** The metadata of a daily schedule for the subject with three chunks,
    the first processed at once. *)
Definition daily_schedule : ScheduleMetadata :=
  {| sm_user_id := "u1"; sm_task_name := "process_user_chunks_u1";
     sm_schedule_type := "daily"; sm_schedule_time := "09:00";
     sm_timezone := "Asia/Kolkata"; sm_chunks_per_delivery := 2;
     sm_start_index := 1; sm_remaining_chunks := 2;
     sm_created_at := "2025-01-01T08:00:00+05:30"; sm_status := "active";
     sm_hours_interval := None; sm_completed_at := None |}.

(** The subject with its chunks, its schedule, the job of the schedule
    and the progress of one firing. *)
Definition scheduled : World :=
  {| redis :=
       <[schedule_key "u1" := UserSchedule daily_schedule]>
         (<[progress_key "u1" :=
              UserProgress {| current_index := 3; processed_count := 2;
                              last_processed_at := "2025-01-02T09:00:00+05:30";
                              last_task_id := 0; p_completed_at := None |}]>
            (redis before_firing));
     beat_schedule :=
       {[ "process_user_chunks_u1" :=
            {| be_task := "tasks.process_scheduled_chunks"; be_user_id := "u1";
               be_chunks_per_delivery := 2; be_start_index := 1 |} ]};
     queue := []; next_task_id := 1; outbox := [] |}.

(** The same subject without schedule metadata, after the firing that
    dispatched its last chunks. *)
Definition all_dispatched : World :=
  set_redis before_firing
    (<[progress_key "u1" :=
         UserProgress {| current_index := 3; processed_count := 2;
                         last_processed_at := "2025-01-02T09:00:00+05:30";
                         last_task_id := 0; p_completed_at := None |}]>
       (redis before_firing)).

End Scenarios.

(** * Properties *)

(** ** Token bucket and quota manager *)

Module RateLimiterFacts.

Import RateLimiter.
Local Open Scope rl_scope.

Lemma py_min_Qmin (a b : Q) : (py_min a b == Qmin a b)%Q.
Proof.
  unfold py_min. destruct (Qcompare b a) eqn:E.
  - apply Qeq_alt in E. rewrite E. symmetry. apply Q.min_id.
  - rewrite <- Qlt_alt in E. symmetry.
    rewrite Q.min_r; [reflexivity | apply Qlt_le_weak; exact E].
  - rewrite <- Qgt_alt in E. symmetry.
    rewrite Q.min_l; [reflexivity | apply Qlt_le_weak; exact E].
Qed.

Lemma py_int_floor (x : Q) : (0 <= x)%Q -> py_int x = Qfloor x.
Proof.
  destruct x as [n d]. unfold py_int, Qfloor, Qle. simpl. intros H.
  apply Z.quot_div_nonneg; lia.
Qed.

Lemma refill_bounded (now : Q) (b : TokenBucket) :
  (tokens (_refill now b) <= inject_Z (capacity b))%Q.
Proof.
  cbn. rewrite py_min_Qmin. apply Q.le_min_l.
Qed.

(** C3. [consume(n)] refills first: the level becomes
    [min(capacity, tokens + elapsed * refill_rate)]. It then succeeds
    exactly when that level is at least [n]; on success the level drops
    by [n], on failure it stays at the refilled level. *)
Theorem consume_spec (now : Q) (n : Z) (b : TokenBucket) :
  let r := consume now n b in
  (refilled now b ==
     Qmin (inject_Z (capacity b))
          (tokens b + (now - last_refill b) * refill_rate b))%Q
  /\ (fst r = true <-> (inject_Z n <= refilled now b)%Q)
  /\ tokens (snd r)
     = (if fst r then refilled now b - inject_Z n else refilled now b)%Q
  /\ last_refill (snd r) = now
  /\ capacity (snd r) = capacity b
  /\ refill_rate (snd r) = refill_rate b.
Proof.
  intros r. split; [apply py_min_Qmin|].
  subst r. unfold consume. cbn [_refill tokens]. fold (refilled now b).
  destruct (Qle_bool (inject_Z n) (refilled now b)) eqn:E; cbn.
  - apply Qle_bool_iff in E. repeat split; auto.
  - repeat split; auto; try discriminate.
    intros H. apply Qle_bool_iff in H. congruence.
Qed.

(** What [can_process_request] has checked when it allows a request;
    [l] is the limiter as the lazy daily reset leaves it. *)
Lemma can_process_request_inv text ect w est buf :
  fst (can_process_request text ect w) = Allowed est buf ->
  let l := limiter (snd (_check_daily_reset w)) in
  est = token_estimator l text + ect
  /\ buf = buffer (config l) est
  /\ daily_requests_used l < daily_request_limit (config l)
  /\ daily_tokens_used l + buf <= daily_token_limit (config l).
Proof.
  unfold can_process_request. unfold bind at 1.
  destruct (_check_daily_reset w) as [[] w1]. cbn [snd].
  unfold bind at 1. unfold get at 1. cbn [limiter].
  destruct (Z.leb_spec (daily_request_limit (config (limiter w1)))
                       (daily_requests_used (limiter w1))); [discriminate|].
  destruct (Z.ltb_spec (daily_token_limit (config (limiter w1)))
              (daily_tokens_used (limiter w1) +
               buffer (config (limiter w1))
                 (token_estimator (limiter w1) text + ect))); [discriminate|].
  unfold bind at 1. destruct (on_request_bucket _ w1) as [r w2].
  destruct r; cbn [negb]; [|discriminate].
  unfold bind at 1. destruct (on_token_bucket _ w2) as [t w3].
  destruct t; cbn [negb]; [|discriminate].
  cbn. intros [= <- <-]. auto.
Qed.

(** The daily reset leaves the configuration and the estimator alone. *)
Lemma check_daily_reset_static w :
  config (limiter (snd (_check_daily_reset w))) = config (limiter w)
  /\ token_estimator (limiter (snd (_check_daily_reset w)))
     = token_estimator (limiter w).
Proof.
  unfold _check_daily_reset, bind, time_time, get, put, _get_next_daily_reset, ret.
  destruct w as [l c]; cbn.
  destruct (Qle_bool _ _); cbn; auto.
Qed.

(** When the reset time is still ahead, the daily reset changes nothing
    in the limiter. *)
Lemma check_daily_reset_not_due w :
  (Clock.readings (clock w) (Clock.ticks (clock w)) < daily_reset_time (limiter w))%Q ->
  limiter (snd (_check_daily_reset w)) = limiter w.
Proof.
  intros H.
  unfold _check_daily_reset, bind, time_time, get, put, _get_next_daily_reset, ret.
  destruct w as [l c]; cbn in *.
  destruct (Qle_bool _ _) eqn:E; cbn; auto.
  apply Qle_bool_iff in E. exfalso. apply (Qlt_not_le _ _ H E).
Qed.

(** C4, as the specification has it, does not hold: a four-character
    text is estimated at 31 units, [31 * 1.1 = 34.1], and the limiter
    returns 34 where the ceiling is 35. *)
Lemma can_process_buffered_not_ceiling :
  ~ (forall w text ect est buf,
        fst (can_process_request text ect w) = Allowed est buf ->
        buf = Qceiling (inject_Z (token_estimator (limiter w) text + ect)
                        * (1 + safety_buffer (config (limiter w))))).
Proof.
  intros H. specialize (H w0 "abcd" 0 31 34 eq_refl).
  vm_compute in H. discriminate.
Qed.

(** C4, amended. When [can_process_request] allows the request, the
    buffered value it returns is [int(...)] of the product
    [(estimate(text) + estimated_completion_units) * (1 + safety_buffer)]:
    the product truncated toward zero, which is its floor whenever the
    product is not negative. *)
Theorem can_process_buffered_value text ect w est buf :
  fst (can_process_request text ect w) = Allowed est buf ->
  let product :=
    (inject_Z (token_estimator (limiter w) text + ect)
     * (1 + safety_buffer (config (limiter w))))%Q in
  est = token_estimator (limiter w) text + ect
  /\ buf = py_int product
  /\ ((0 <= product)%Q -> buf = Qfloor product).
Proof.
  intros H product. apply can_process_request_inv in H. cbn zeta in H.
  destruct (check_daily_reset_static w) as [Hc He].
  rewrite Hc, He in H. destruct H as (-> & -> & _ & _).
  repeat split. intros Hp. unfold buffer. fold product. apply py_int_floor, Hp.
Qed.

Lemma can_process_buffered_value_witness :
  31 = token_estimator (limiter w0) "abcd" + 0
  /\ 34 = py_int (inject_Z (token_estimator (limiter w0) "abcd" + 0)
                  * (1 + safety_buffer (config (limiter w0))))%Q.
Proof.
  destruct (can_process_buffered_value "abcd" 0 w0 31 34 eq_refl) as (H1 & H2 & _).
  split; [exact H1 | exact H2].
Defined.

(** [acquire_tokens] stops at the first check of [can_process_request]
    when the counter has reached the limit. *)
Lemma acquire_denied_aux text ect w :
  daily_request_limit (config (limiter (snd (_check_daily_reset w))))
  <= daily_requests_used (limiter (snd (_check_daily_reset w))) ->
  acquire_tokens text ect w = (false, snd (_check_daily_reset w)).
Proof.
  intros H.
  unfold acquire_tokens, can_process_request. unfold bind at 1. unfold bind at 1.
  destruct (_check_daily_reset w) as [[] w1]. cbn [snd] in *.
  unfold bind at 1. unfold get at 1. cbn [limiter].
  apply Z.leb_le in H. rewrite H. reflexivity.
Qed.

(** [acquire_tokens] returns [False] whenever the daily request
    counter, as the lazy daily reset at the start of the call leaves
    it, has reached the daily request limit. *)
Lemma acquire_denied_at_daily_request_limit text ect w :
  daily_request_limit (config (limiter (snd (_check_daily_reset w))))
  <= daily_requests_used (limiter (snd (_check_daily_reset w))) ->
  fst (acquire_tokens text ect w) = false.
Proof.
  intros H. rewrite (acquire_denied_aux text ect w H). reflexivity.
Qed.

Lemma acquire_denied_at_daily_request_limit_witness :
  daily_request_limit (config (limiter (snd (_check_daily_reset exhausted))))
  <= daily_requests_used (limiter (snd (_check_daily_reset exhausted)))
  /\ fst (acquire_tokens "abcd" 0 exhausted) = false.
Proof.
  assert (H : daily_request_limit (config (limiter (snd (_check_daily_reset exhausted))))
              <= daily_requests_used (limiter (snd (_check_daily_reset exhausted))))
    by (vm_compute; discriminate).
  split; [exact H |].
  exact (acquire_denied_at_daily_request_limit "abcd" 0 exhausted H).
Defined.

(** C9 (as corrected). For every text, [acquire_tokens] returns [False]
    when the daily request counter of the state it is called in has
    reached the daily request limit and the clock reads a time before
    the daily reset time. *)
Theorem acquire_denied_before_reset text ect w :
  (Clock.readings (clock w) (Clock.ticks (clock w)) < daily_reset_time (limiter w))%Q ->
  daily_request_limit (config (limiter w)) <= daily_requests_used (limiter w) ->
  fst (acquire_tokens text ect w) = false.
Proof.
  intros Hclock Hused. rewrite acquire_denied_aux; [reflexivity|].
  rewrite (check_daily_reset_not_due w Hclock). exact Hused.
Qed.

Lemma acquire_denied_before_reset_witness :
  (Clock.readings (clock exhausted) (Clock.ticks (clock exhausted))
   < daily_reset_time (limiter exhausted))%Q
  /\ daily_request_limit (config (limiter exhausted))
     <= daily_requests_used (limiter exhausted)
  /\ fst (acquire_tokens "abcd" 0 exhausted) = false.
Proof.
  assert (Hclock : (Clock.readings (clock exhausted) (Clock.ticks (clock exhausted))
                    < daily_reset_time (limiter exhausted))%Q)
    by (vm_compute; reflexivity).
  assert (Hused : daily_request_limit (config (limiter exhausted))
                  <= daily_requests_used (limiter exhausted))
    by (vm_compute; discriminate).
  split; [exact Hclock|]. split; [exact Hused|].
  exact (acquire_denied_before_reset "abcd" 0 exhausted Hclock Hused).
Defined.

(** C9: the statement as the specification has it fails. The counter
    of the limiter is at the limit of 1000 requests and the clock reads
    a time past the daily reset time; [acquire_tokens] first resets the
    counters and then returns [True]. *)
Lemma acquire_granted_at_daily_request_limit :
  daily_requests_used (limiter exhausted_next_day) = 1000
  /\ daily_request_limit (config (limiter exhausted_next_day)) = 1000
  /\ fst (acquire_tokens "abcd" 0 exhausted_next_day) = true.
Proof. vm_compute. auto. Qed.

(** A successful [acquire_tokens] has seen a daily request counter below
    the limit. *)
Lemma acquire_success_below_limit text ect w :
  fst (acquire_tokens text ect w) = true ->
  daily_requests_used (limiter (snd (_check_daily_reset w)))
  < daily_request_limit (config (limiter (snd (_check_daily_reset w)))).
Proof.
  intros H.
  destruct (Z.lt_ge_cases
              (daily_requests_used (limiter (snd (_check_daily_reset w))))
              (daily_request_limit (config (limiter (snd (_check_daily_reset w))))))
    as [|Hge]; [assumption|].
  rewrite (acquire_denied_aux text ect w Hge) in H. discriminate.
Qed.

(** [acquire_tokens] after an allowing check: both buckets are asked in
    turn, and the state the second [consume] leaves is returned whatever
    the two answers are. *)
Lemma acquire_after_allowed text ect w est buf :
  fst (can_process_request text ect w) = Allowed est buf ->
  let w1 := snd (can_process_request text ect w) in
  let r := on_request_bucket (fun now => consume now 1) w1 in
  let t := on_token_bucket (fun now => consume now buf) (snd r) in
  acquire_tokens text ect w = (fst r && fst t, snd t).
Proof.
  intros H. unfold acquire_tokens. unfold bind at 1.
  destruct (can_process_request text ect w) as [c w1]. cbn [fst snd] in *.
  subst c. cbn zeta. unfold bind at 1.
  destruct (on_request_bucket _ w1) as [ra w2]. cbn [fst snd].
  unfold bind at 1.
  destruct (on_token_bucket _ w2) as [ta w3]. cbn [fst snd].
  destruct (ra && ta); reflexivity.
Qed.

(** A later refill, at a non-negative rate, does not lower the level. *)
Lemma refill_again_keeps (b : TokenBucket) (t1 t2 n : Q) :
  (t1 <= t2)%Q -> (0 <= refill_rate b)%Q ->
  (n <= tokens (_refill t1 b))%Q ->
  (n <= tokens (_refill t2 (_refill t1 b)))%Q.
Proof.
  intros Ht Hr Hn.
  pose proof (refill_bounded t1 b) as Hcap.
  cbn [_refill tokens capacity refill_rate last_refill] in *.
  set (x := py_min (inject_Z (capacity b)) (tokens b + (t1 - last_refill b) * refill_rate b)%Q) in *.
  rewrite py_min_Qmin. apply Q.min_glb.
  - apply (Qle_trans _ x); assumption.
  - apply (Qle_trans _ x); [assumption|].
    assert (0 <= (t2 - t1) * refill_rate b)%Q.
    { apply Qmult_le_0_compat; [|assumption]. lra. }
    lra.
Qed.

(** The daily reset reads the clock and leaves the buckets alone. *)
Lemma check_daily_reset_frame w :
  let w1 := snd (_check_daily_reset w) in
  request_bucket (limiter w1) = request_bucket (limiter w)
  /\ token_bucket (limiter w1) = token_bucket (limiter w)
  /\ Clock.readings (clock w1) = Clock.readings (clock w)
  /\ (Clock.ticks (clock w) <= Clock.ticks (clock w1))%nat.
Proof.
  unfold _check_daily_reset, bind, time_time, get, put, _get_next_daily_reset, ret.
  destruct w as [l c]; cbn.
  destruct (Qle_bool _ _); cbn; repeat split; lia.
Qed.

(** The state an allowing check leaves: both buckets refilled, at the
    two clock readings that follow the daily reset, and found to hold
    what was asked of them. *)
Lemma can_process_allowed_state text ect w est buf w' :
  can_process_request text ect w = (Allowed est buf, w') ->
  let w1 := snd (_check_daily_reset w) in
  let k := Clock.ticks (clock w1) in
  let rb := _refill (Clock.readings (clock w1) k) (request_bucket (limiter w1)) in
  let tb := _refill (Clock.readings (clock w1) (S k)) (token_bucket (limiter w1)) in
  w' = {| limiter := set_token_bucket (set_request_bucket (limiter w1) rb) tb;
          clock := {| Clock.readings := Clock.readings (clock w1);
                      Clock.ticks := S (S k) |} |}
  /\ (1 <= tokens rb)%Q
  /\ (inject_Z buf <= tokens tb)%Q.
Proof.
  unfold can_process_request. unfold bind at 1.
  destruct (_check_daily_reset w) as [[] [l1 c1]]. cbn [snd limiter clock].
  unfold bind at 1. unfold get at 1. cbn [limiter].
  destruct (_ <=? _); [discriminate|]. destruct (_ <? _); [discriminate|].
  unfold on_request_bucket, on_token_bucket, bind, time_time, get, put, ret,
    has_capacity, Clock.time.
  cbn [limiter clock fst snd set_request_bucket set_token_bucket request_bucket
       token_bucket Clock.readings Clock.ticks].
  destruct (Qle_bool (inject_Z 1) _) eqn:E1; cbn [negb]; [|discriminate].
  cbn [limiter clock fst snd set_request_bucket set_token_bucket request_bucket
       token_bucket Clock.readings Clock.ticks].
  match goal with
  | |- context [Qle_bool (inject_Z ?b) (tokens (_refill ?t (token_bucket l1)))] =>
      destruct (Qle_bool (inject_Z b) (tokens (_refill t (token_bucket l1)))) eqn:E2
  end; cbn [negb]; [|discriminate].
  intros [= <- <- <-].
  apply Qle_bool_iff in E1, E2. split; [reflexivity|]. split; [exact E1 | exact E2].
Qed.

(** X3. With a clock that does not go back and refill rates that are not
    negative, what the check of [acquire_tokens] found is still there
    when the buckets are asked: a single caller never sees the failure
    branch. *)
Lemma acquire_succeeds_under_monotone_clock text ect w est buf :
  Clock.monotone (clock w) ->
  (0 <= refill_rate (request_bucket (limiter w)))%Q ->
  (0 <= refill_rate (token_bucket (limiter w)))%Q ->
  fst (can_process_request text ect w) = Allowed est buf ->
  fst (acquire_tokens text ect w) = true.
Proof.
  intros Hmono Hrr Htr Hallowed.
  rewrite (acquire_after_allowed text ect w est buf Hallowed). cbn zeta. cbn [fst].
  destruct (can_process_request text ect w) as [c w'] eqn:Ecp.
  cbn [fst snd] in *. subst c.
  destruct (can_process_allowed_state text ect w est buf w' Ecp) as (-> & E1 & E2).
  clear Ecp.
  destruct (check_daily_reset_frame w) as (Hrb & Htb & Hrd & Hticks).
  cbn zeta in *.
  set (w1 := snd (_check_daily_reset w)) in *.
  assert (Hm : forall i j, (Clock.ticks (clock w1) <= i)%nat -> (i <= j)%nat ->
                           (Clock.readings (clock w1) i <= Clock.readings (clock w1) j)%Q).
  { intros i j Hi Hj. rewrite Hrd. apply Hmono; lia. }
  rewrite Hrb, Htb in *. clearbody w1.
  unfold on_request_bucket, on_token_bucket, bind, time_time, get, put, ret,
    consume, Clock.time.
  cbn [limiter clock fst snd set_request_bucket set_token_bucket request_bucket
       token_bucket Clock.readings Clock.ticks].
  match goal with
  | |- context [Qle_bool (inject_Z 1) ?x] =>
      assert (H1 : Qle_bool (inject_Z 1) x = true)
  end.
  { apply Qle_bool_iff. apply refill_again_keeps; [apply Hm; lia| assumption | assumption]. }
  rewrite H1.
  cbn [limiter clock fst snd set_request_bucket set_token_bucket request_bucket
       token_bucket Clock.readings Clock.ticks].
  match goal with
  | |- context [Qle_bool (inject_Z buf) ?x] =>
      assert (H2 : Qle_bool (inject_Z buf) x = true)
  end.
  { apply Qle_bool_iff. apply refill_again_keeps; [apply Hm; lia| assumption | assumption]. }
  rewrite H2. reflexivity.
Qed.


End RateLimiterFacts.

(** ** Schedule validator *)

Module ValidatorFacts.

Import Py Validators.

(** [ScheduleType] has no member [EVERY_N_HOURS]; the validator (and
    [scheduler.py]) name it all the same. *)
Lemma ScheduleType_has_no_EVERY_N_HOURS :
  Models.ScheduleType_attr "EVERY_N_HOURS" = Raise (AttributeError "EVERY_N_HOURS").
Proof. reflexivity. Qed.

(** The body of the validator returns only through the short cut for
    the schedule type [none]: every other path evaluates
    [ScheduleType.EVERY_N_HOURS]. *)
Lemma validate_body_ok (tzs : gset string) (ud ud' : gmap string val) :
  validate_body tzs ud = Ok ud' ->
  eq_str (get ud "schedule_type") "none" = true /\ ud' = ud.
Proof.
  unfold validate_body.
  destruct (raise_if _ _); cbn [Py.bind]; [|discriminate].
  destruct (raise_if _ _); cbn [Py.bind]; [|discriminate].
  destruct (raise_if _ _); cbn [Py.bind]; [|discriminate].
  change (Models.ScheduleType_attr "NONE") with (@Ok string "none"). cbn [Py.bind].
  destruct (eq_str (get ud "schedule_type") "none") eqn:E.
  - intros [= <-]. auto.
  - destruct (not_in_timezones _ _); cbn [Py.bind]; [|discriminate].
    match goal with
    | |- context [Py.bind ?m _] => destruct m; cbn [Py.bind]; [|discriminate]
    end.
    rewrite ScheduleType_has_no_EVERY_N_HOURS. cbn [Py.bind]. discriminate.
Qed.

(** Every request whose schedule type is not [none] is turned down,
    whatever its other fields are. *)
Lemma validate_rejects_all_but_none (tzs : gset string) (ud : gmap string val) :
  eq_str (get ud "schedule_type") "none" = false ->
  exists msg, validate_schedule_data tzs ud = Raise (InvalidScheduleDataException msg).
Proof.
  intros Hnone. unfold validate_schedule_data.
  destruct (validate_body tzs ud) as [ud'|e] eqn:E; cbn.
  - apply validate_body_ok in E. destruct E as [E _]. congruence.
  - eauto.
Qed.

(** The request passes every check the validator makes before it names
    the missing member. *)
Lemma daily_request_well_formed :
  truthy (get daily_request "user_id") = true
  /\ (exists n, as_int (get daily_request "total_chunks") = Some n /\ 0 < n)
  /\ existsb (eq_str (get daily_request "schedule_type")) Models.ScheduleType_values = true
  /\ eq_str (get daily_request "schedule_type") "none" = false
  /\ _validate_schedule_time (get daily_request "schedule_time") = Ok tt
  /\ not_in_timezones some_timezones (get daily_request "user_timezone") = Ok false.
Proof.
  repeat split; try (vm_compute; reflexivity).
  exists 3. split; [vm_compute; reflexivity | lia].
Qed.

(** C1 (the code departs from it). The validator turns down the
    well-formed daily request: evaluating [ScheduleType.EVERY_N_HOURS]
    raises [AttributeError], which the handler of the validator
    re-raises as [InvalidScheduleDataException]. *)
Theorem validate_rejects_daily_request :
  validate_schedule_data some_timezones daily_request
  = Raise (InvalidScheduleDataException "EVERY_N_HOURS").
Proof. vm_compute. reflexivity. Qed.

End ValidatorFacts.

(** ** Text segmenter *)

Module SegmenterFacts.

Import Segmenter.

(** *** Lengths of slices and of stripped strings *)

Lemma length_substring (s : string) (n m : nat) :
  (String.length (substring n m s) <= m)%nat.
Proof.
  revert n m. induction s as [|c s IH]; intros [|n] [|m]; cbn; try lia.
  - specialize (IH 0%nat m). lia.
  - apply IH.
  - apply IH.
Qed.

Lemma length_rev_app (s acc : string) :
  String.length (String.rev_app s acc) = (String.length s + String.length acc)%nat.
Proof.
  revert acc. induction s as [|c s IH]; intros acc; cbn; [reflexivity|].
  rewrite IH. cbn. lia.
Qed.

Lemma length_lstrip (s : string) : (String.length (lstrip s) <= String.length s)%nat.
Proof.
  induction s as [|c s IH]; cbn; [lia|]. destruct (isspace c); cbn; lia.
Qed.

Lemma len_strip (s : string) : len (strip s) <= len s.
Proof.
  unfold len, strip, rstrip, String.rev.
  rewrite length_rev_app. cbn.
  pose proof (length_lstrip (String.rev_app (lstrip s) "")) as H1.
  rewrite length_rev_app in H1. cbn in H1.
  pose proof (length_lstrip s). lia.
Qed.

Lemma len_str_slice (s : string) (i j : Z) :
  0 <= i <= j -> len (str_slice s i j) <= j - i.
Proof.
  intros H. unfold str_slice, slice_bound.
  destruct (Z.ltb_spec i 0); [lia|]. destruct (Z.ltb_spec j 0); [lia|].
  unfold len at 1.
  pose proof (length_substring s (Z.to_nat (i `min` len s))
                (Z.to_nat (j `min` len s - i `min` len s))).
  lia.
Qed.

(** *** Where the search loops can cut *)

Lemma first_down_range (p : Z -> bool) (n : nat) (i k : Z) :
  first_down p i n = Some k -> i - Z.of_nat n < k <= i.
Proof.
  revert i. induction n as [|n IH]; intros i; cbn; [discriminate|].
  destruct (p i).
  - intros [= <-]. lia.
  - intros H. apply IH in H. lia.
Qed.

Lemma range_down_find_range (p : Z -> bool) (start stop k : Z) :
  range_down_find p start stop = Some k -> stop < k <= start.
Proof.
  unfold range_down_find. intros H. apply first_down_range in H. lia.
Qed.

(** The cut is the end of the window, or lies above
    [current_pos + 100] and at most one past the window. *)
Lemma find_break_range text max_chars current_pos end_pos :
  let r := find_break text max_chars current_pos end_pos in
  r = end_pos \/ current_pos + 100 < r <= end_pos + 1.
Proof.
  unfold find_break.
  destruct (range_down_find (sentence_end text) _ _) as [i|] eqn:E1.
  - apply range_down_find_range in E1. right. lia.
  - destruct (range_down_find (soft_break text) _ _) as [i|] eqn:E2.
    + apply range_down_find_range in E2. right. lia.
    + left. reflexivity.
Qed.

(** One iteration, for a positive [max_chars]: the position advances,
    stays within the text, and the chunk has at most [max_chars + 1]
    characters. *)
Lemma step_range text max_chars current_pos :
  1 <= max_chars -> 0 <= current_pos < len text ->
  let r := step text max_chars current_pos in
  current_pos < fst r <= len text
  /\ fst r <= current_pos + max_chars + 1
  /\ forall c, snd r = Some c -> 1 <= len c <= max_chars + 1.
Proof.
  intros Hmax Hpos. unfold step.
  set (e0 := (current_pos + max_chars) `min` len text).
  set (e := if e0 <? len text then find_break text max_chars current_pos e0 else e0).
  assert (He : current_pos < e <= len text /\ e <= current_pos + max_chars + 1).
  { subst e. destruct (Z.ltb_spec e0 (len text)).
    - destruct (find_break_range text max_chars current_pos e0) as [-> | ?]; lia.
    - lia. }
  cbn [fst snd]. split; [tauto|]. split; [tauto|].
  intros c. destruct (String.eqb_spec (strip (str_slice text current_pos e)) "") as [|Hne];
    [discriminate|].
  intros [= <-]. split.
  - unfold len. destruct (strip _); [congruence | cbn; lia].
  - pose proof (len_strip (str_slice text current_pos e)).
    pose proof (len_str_slice text current_pos e). lia.
Qed.

Lemma chunk_loop_bound text max_chars fuel current_pos chunks out :
  1 <= max_chars -> 0 <= current_pos ->
  Forall (fun c => 1 <= len c <= max_chars + 1) chunks ->
  chunk_loop fuel text max_chars current_pos chunks = Returned out ->
  Forall (fun c => 1 <= len c <= max_chars + 1) out.
Proof.
  intros Hmax. revert current_pos chunks.
  induction fuel as [|fuel IH]; intros current_pos chunks Hpos Hall; cbn [chunk_loop].
  - destruct (Z.ltb_spec current_pos (len text)); [discriminate|]. intros [= <-]. exact Hall.
  - destruct (Z.ltb_spec current_pos (len text)); [|intros [= <-]; exact Hall].
    pose proof (step_range text max_chars current_pos Hmax ltac:(lia)) as Hs.
    destruct (step text max_chars current_pos) as [e c]. cbn [fst snd] in Hs.
    destruct Hs as (He & _ & Hc).
    apply IH; [lia|].
    destruct c as [c|]; [|exact Hall].
    apply Forall_app. split; [exact Hall|]. constructor; [|constructor]. apply Hc. reflexivity.
Qed.

Lemma chunk_loop_returns text max_chars fuel current_pos chunks :
  1 <= max_chars -> 0 <= current_pos ->
  len text - current_pos <= Z.of_nat fuel ->
  exists out, chunk_loop fuel text max_chars current_pos chunks = Returned out.
Proof.
  intros Hmax. revert current_pos chunks.
  induction fuel as [|fuel IH]; intros current_pos chunks Hpos Hfuel; cbn [chunk_loop].
  - destruct (Z.ltb_spec current_pos (len text)); [lia|]. eauto.
  - destruct (Z.ltb_spec current_pos (len text)); [|eauto].
    pose proof (step_range text max_chars current_pos Hmax ltac:(lia)) as Hs.
    destruct (step text max_chars current_pos) as [e c]. cbn [fst snd] in Hs.
    apply IH; lia.
Qed.

(** X8. For a positive [max_chars] and a longer text, [simple_chunk_text]
    returns within [len(text)] iterations, and its chunks are not empty
    and have at most [max_chars + 1] characters: one more than the bound
    is the most the second loop can add. *)
Lemma simple_chunk_text_returns_bounded text max_chars :
  1 <= max_chars -> max_chars < len text ->
  exists chunks,
    simple_chunk_text (Z.to_nat (len text)) text max_chars = Returned chunks
    /\ Forall (fun c => 1 <= len c <= max_chars + 1) chunks.
Proof.
  intros Hmax Hlong. unfold simple_chunk_text.
  destruct (Z.leb_spec (len text) max_chars); [lia|].
  destruct (chunk_loop_returns text max_chars (Z.to_nat (len text)) 0 [] Hmax ltac:(lia) ltac:(lia))
    as [out Hout].
  exists out. split; [exact Hout|].
  apply (chunk_loop_bound text max_chars _ 0 [] out Hmax ltac:(lia) ltac:(constructor) Hout).
Qed.
(** With [max_chars = 101] the first window ends at index 101. The only
    index either search loop visits is 101; [text[100:102]] is no
    sentence end, [text[101]] is a full stop, and the second loop cuts
    at [i + 1 = 102]. *)
Lemma short_words_first_step :
  len short_words = 126
  /\ find_break short_words 101 0 101 = 102
  /\ step short_words 101 0
     = (102, Some (repeat_str 20 "word " +:+ "x.")).
Proof. repeat split; vm_compute; reflexivity. Qed.

(** C6 (the code departs from it). For a text longer than [max_chars]
    made of words of at most four letters, [simple_chunk_text] returns
    a first chunk of [max_chars + 1] characters: the fallback loop tests
    [text[i]] from [i = end_pos] on and cuts at [i + 1]. *)
Theorem simple_chunk_text_exceeds_max_chars :
  101 < len short_words
  /\ simple_chunk_text 10 short_words 101
     = Returned [repeat_str 20 "word " +:+ "x."; "More text follows here."]
  /\ len (repeat_str 20 "word " +:+ "x.") = 102
  /\ longest_run (repeat_str 20 "word " +:+ "x.") = 4%nat.
Proof. repeat split; vm_compute; reflexivity. Qed.

End SegmenterFacts.

(** ** Periodic delivery manager *)

Module SchedulerFacts.

Import Py Sys Scheduler.
Local Open Scope sys_scope.

(** An access of the manager that is answered, and one that is not. *)
Lemma get_json_ok key env w :
  redis_up env (Access Manager GET key) = true ->
  get_json key env w = (Ok (redis w !! key), w).
Proof.
  intros H. unfold get_json, as_redis_exception, try_catch, client_get.
  rewrite H. reflexivity.
Qed.

Lemma get_json_fails key env w :
  redis_up env (Access Manager GET key) = false ->
  exists msg, get_json key env w = (Raise (RedisConnectionException msg), w).
Proof.
  intros H. unfold get_json, as_redis_exception, try_catch, client_get, raise.
  rewrite H. eauto.
Qed.

Lemma setex_json_ok key v env w :
  redis_up env (Access Manager SETEX key) = true ->
  setex_json key v env w = (Ok tt, set_redis w (<[key := v]> (redis w))).
Proof.
  intros H. unfold setex_json, as_redis_exception, try_catch, client_setex.
  rewrite H. reflexivity.
Qed.

Lemma setex_json_fails key v env w :
  redis_up env (Access Manager SETEX key) = false ->
  exists msg, setex_json key v env w = (Raise (RedisConnectionException msg), w).
Proof.
  intros H. unfold setex_json, as_redis_exception, try_catch, client_setex, raise.
  rewrite H. eauto.
Qed.

Lemma delete_key_ok key env w :
  redis_up env (Access Manager DEL key) = true ->
  delete_key key env w = (Ok tt, set_redis w (delete key (redis w))).
Proof.
  intros H. unfold delete_key, as_redis_exception, try_catch, client_delete.
  rewrite H. reflexivity.
Qed.

Lemma delete_key_fails key env w :
  redis_up env (Access Manager DEL key) = false ->
  exists msg, delete_key key env w = (Raise (RedisConnectionException msg), w).
Proof.
  intros H. unfold delete_key, as_redis_exception, try_catch, client_delete, raise.
  rewrite H. eauto.
Qed.

Lemma redis_get_ok key env w :
  redis_up env (Access Direct GET key) = true ->
  redis_get key env w = (Ok (redis w !! key), w).
Proof. intros H. unfold redis_get, client_get. rewrite H. reflexivity. Qed.

Lemma redis_get_fails key env w :
  redis_up env (Access Direct GET key) = false ->
  redis_get key env w = (Raise (ConnectionError "redis"), w).
Proof. intros H. unfold redis_get, client_get. rewrite H. reflexivity. Qed.

Lemma redis_setex_ok key v env w :
  redis_up env (Access Direct SETEX key) = true ->
  redis_setex key v env w = (Ok tt, set_redis w (<[key := v]> (redis w))).
Proof. intros H. unfold redis_setex, client_setex. rewrite H. reflexivity. Qed.

Lemma redis_setex_fails key v env w :
  redis_up env (Access Direct SETEX key) = false ->
  redis_setex key v env w = (Raise (ConnectionError "redis"), w).
Proof. intros H. unfold redis_setex, client_setex. rewrite H. reflexivity. Qed.

(** With a store that answers every access. *)
Lemma get_json_up key env w :
  reachable env -> get_json key env w = (Ok (redis w !! key), w).
Proof. intros H. apply get_json_ok, H. Qed.

Lemma setex_json_up key v env w :
  reachable env -> setex_json key v env w = (Ok tt, set_redis w (<[key := v]> (redis w))).
Proof. intros H. apply setex_json_ok, H. Qed.

Lemma delete_key_up key env w :
  reachable env -> delete_key key env w = (Ok tt, set_redis w (delete key (redis w))).
Proof. intros H. apply delete_key_ok, H. Qed.

Lemma redis_get_up key env w :
  reachable env -> redis_get key env w = (Ok (redis w !! key), w).
Proof. intros H. apply redis_get_ok, H. Qed.

Lemma redis_setex_up key v env w :
  reachable env ->
  redis_setex key v env w = (Ok tt, set_redis w (<[key := v]> (redis w))).
Proof. intros H. apply redis_setex_ok, H. Qed.

Lemma all_up_reachable : reachable all_up.
Proof. intros a. reflexivity. Qed.

(** C5 (the code departs from it). For a subject with no schedule
    metadata in a reachable store, [cleanup_user_schedule] deletes the
    progress key and returns [True]. *)
Theorem cleanup_without_schedule_returns_true user_id env w :
  reachable env ->
  redis w !! schedule_key user_id = None ->
  cleanup_user_schedule user_id env w
  = (Ok true, set_redis w (delete (progress_key user_id) (redis w))).
Proof.
  intros Hup Hnone.
  unfold cleanup_user_schedule, try_catch, bind.
  rewrite (get_json_up _ _ _ Hup), Hnone. cbn.
  rewrite (delete_key_up _ _ _ Hup). reflexivity.
Qed.

Lemma cleanup_without_schedule_returns_true_witness :
  fst (cleanup_user_schedule "u1" all_up empty_world) = Ok true.
Proof.
  rewrite (cleanup_without_schedule_returns_true "u1" all_up empty_world);
    [reflexivity | intros a; reflexivity | reflexivity].
Defined.

(** [False] is the answer of the exception handler: it is what a call
    returns when the store cannot be reached. *)
Lemma cleanup_redis_down user_id env w :
  redis_up env (Access Manager GET (schedule_key user_id)) = false ->
  cleanup_user_schedule user_id env w = (Ok false, w).
Proof.
  intros Hdown. unfold cleanup_user_schedule, try_catch, bind.
  destruct (get_json_fails (schedule_key user_id) env w Hdown) as [e ->]. reflexivity.
Qed.

(** The cancel path for a subject that has a schedule. *)
Lemma cleanup_with_schedule user_id env w m :
  reachable env ->
  redis w !! schedule_key user_id = Some (UserSchedule m) ->
  fst (cleanup_user_schedule user_id env w) = Ok true
  /\ redis (snd (cleanup_user_schedule user_id env w))
     = delete (progress_key user_id)
         (<[schedule_key user_id := UserSchedule (complete m (now_iso env))]> (redis w)).
Proof.
  intros Hup Hm.
  unfold cleanup_user_schedule, try_catch, bind.
  rewrite (get_json_up _ _ _ Hup), Hm. cbn.
  unfold remove_beat_entry.
  destruct (_ && _); cbn; rewrite setex_json_up by assumption; cbn;
    rewrite delete_key_up by assumption; cbn; split; reflexivity.
Qed.

(** The cancel path in full, for a subject with schedule metadata or
    with none, in a store that answers. *)
Lemma cleanup_cancels user_id env w sched :
  reachable env ->
  redis w !! schedule_key user_id = UserSchedule <$> sched ->
  cleanup_user_schedule user_id env w
  = (Ok true,
     {| redis :=
          delete (progress_key user_id)
            (match sched with
             | Some m =>
                 <[schedule_key user_id := UserSchedule (complete m (now_iso env))]>
                   (redis w)
             | None => redis w
             end);
        beat_schedule :=
          match sched with
          | Some m =>
              if String.eqb (sm_task_name m) "" then beat_schedule w
              else delete (sm_task_name m) (beat_schedule w)
          | None => beat_schedule w
          end;
        queue := queue w; next_task_id := next_task_id w; outbox := outbox w |}).
Proof.
  intros Hup Hs. unfold cleanup_user_schedule, try_catch, bind.
  rewrite (get_json_up _ _ _ Hup), Hs.
  destruct sched as [m|];
    cbn [fmap option_fmap option_map doc_truthy get_task_name completed ret].
  - unfold remove_beat_entry, ask.
    destruct (String.eqb (sm_task_name m) "") eqn:En; cbn [negb andb].
    + rewrite setex_json_up by assumption. rewrite delete_key_up by assumption.
      reflexivity.
    + destruct (bool_decide (is_Some (beat_schedule w !! sm_task_name m))) eqn:Eb.
      * rewrite setex_json_up by assumption. rewrite delete_key_up by assumption.
        reflexivity.
      * rewrite setex_json_up by assumption. rewrite delete_key_up by assumption.
        assert (Hid : delete (sm_task_name m) (beat_schedule w) = beat_schedule w);
          [|rewrite Hid; reflexivity].
        apply delete_id.
        apply bool_decide_eq_false in Eb.
        destruct (beat_schedule w !! sm_task_name m) eqn:E; [|reflexivity].
        exfalso. apply Eb. eauto.
  - rewrite delete_key_up by assumption. reflexivity.
Qed.

(** The cancel path removes the progress of the subject, or leaves it
    as it was: whatever the schedule key holds and whichever access
    fails. *)
Lemma cleanup_progress user_id env w :
  let w' := snd (cleanup_user_schedule user_id env w) in
  redis w' !! progress_key user_id = None
  \/ redis w' !! progress_key user_id = redis w !! progress_key user_id.
Proof.
  assert (Hkeys : schedule_key user_id <> progress_key user_id).
  { unfold progress_key, schedule_key. cbn. discriminate. }
  cbn zeta.
  unfold cleanup_user_schedule, try_catch, bind, get_json, setex_json, delete_key,
    as_redis_exception, try_catch, client_get, client_setex, client_delete,
    remove_beat_entry, ask.
  destruct (redis_up env (Access Manager GET (schedule_key user_id)));
    [|right; reflexivity].
  destruct (redis w !! schedule_key user_id) as [[d|[|i l]|m|p|]|]; cbn;
    repeat (match goal with
            | |- context [if ?b then _ else _] => destruct b; cbn
            end);
    first [ left; apply lookup_delete_eq
          | right; reflexivity
          | right; apply lookup_insert_ne; exact Hkeys ].
Qed.

End SchedulerFacts.

(** ** Delivery pipeline *)

Module TasksFacts.

Import Py Sys Scheduler Tasks SchedulerFacts Scenarios.
Local Open Scope sys_scope.











(** *** Merging insight records *)

Lemma update_entries_lookup (rs : list InsightRecord) (m : gmap Z InsightRecord) (k : Z) :
  update_entries m rs !! k
  = match last_write rs k with Some r => Some r | None => m !! k end.
Proof.
  unfold update_entries, last_write. revert m.
  induction rs as [|r rs IH]; intros m; [reflexivity|].
  cbn [foldl]. rewrite IH. rewrite filter_cons.
  destruct (decide (chunk_index r = k)) as [->|Hne].
  - rewrite last_cons. destruct (last _); [reflexivity|]. apply lookup_insert_eq.
  - destruct (last _); [reflexivity|]. apply lookup_insert_ne. exact Hne.
Qed.

Lemma last_write_index rs k r : last_write rs k = Some r -> chunk_index r = k /\ r ∈ rs.
Proof.
  unfold last_write. intros H. apply last_Some in H as [l' H].
  assert (Hin : r ∈ filter (fun r => chunk_index r = k) rs).
  { rewrite H. apply elem_of_app. right. apply list_elem_of_singleton. reflexivity. }
  apply list_elem_of_filter in Hin. exact Hin.
Qed.

Lemma merged_map_lookup existing results k :
  merged_map existing results !! k = last_write (existing ++ results) k.
Proof.
  unfold merged_map. unfold update_entries at 1 2. rewrite <- foldl_app.
  fold (update_entries ∅ (existing ++ results)).
  rewrite update_entries_lookup, lookup_empty. destruct (last_write _ _); reflexivity.
Qed.

Lemma sorted_keys_spec (m : gmap Z InsightRecord) :
  StronglySorted Z.lt (sorted_keys m)
  /\ forall k, k ∈ sorted_keys m <-> is_Some (m !! k).
Proof.
  unfold sorted_keys.
  assert (Hperm : merge_sort Z.le (map fst (map_to_list m)) ≡ₚ (map_to_list m).*1)
    by apply merge_sort_Permutation.
  assert (Hnd : NoDup (merge_sort Z.le (map fst (map_to_list m)))).
  { rewrite Hperm. apply NoDup_fst_map_to_list. }
  assert (Hs : StronglySorted Z.le (merge_sort Z.le (map fst (map_to_list m)))).
  { apply StronglySorted_merge_sort.
    - intros x y z; lia.
    - intros x y; lia. }
  split.
  - clear Hperm. induction Hs as [|x l Hs IH Hall]; [constructor|].
    apply NoDup_cons in Hnd as [Hx Hnd]. constructor; [auto|].
    rewrite Forall_forall in *. intros y Hy.
    specialize (Hall y Hy). assert (x <> y) by (intros ->; contradiction). lia.
  - intros k. rewrite Hperm. rewrite list_elem_of_fmap. split.
    + intros [[k' r] [-> H]]. apply elem_of_map_to_list in H. eauto.
    + intros [r H]. exists (k, r). split; [reflexivity|]. apply elem_of_map_to_list, H.
Qed.

Lemma omap_lookup_indices (m : gmap Z InsightRecord) (ks : list Z) :
  (forall k r, m !! k = Some r -> chunk_index r = k) ->
  (forall k, k ∈ ks -> is_Some (m !! k)) ->
  chunk_index <$> omap (fun k => m !! k) ks = ks.
Proof.
  intros Hidx. induction ks as [|k ks IH]; intros Hin; [reflexivity|].
  cbn [omap]. destruct (Hin k ltac:(left)) as [r Hr].
  unfold omap in *. cbn. rewrite Hr. cbn. rewrite (Hidx _ _ Hr). f_equal. apply IH.
  intros k' Hk'. apply Hin. right. exact Hk'.
Qed.

(** The merged list has one record per index, in increasing order of
    index, and holds for each index the record written last. *)
Lemma merge_results_spec (existing results : list InsightRecord) :
  let final := merge_results existing results in
  NoDup (chunk_index <$> final)
  /\ StronglySorted Z.lt (chunk_index <$> final)
  /\ forall r, r ∈ final <-> last_write (existing ++ results) (chunk_index r) = Some r.
Proof.
  intros final. subst final. unfold merge_results.
  fold (merged_map existing results). set (m := merged_map existing results).
  destruct (sorted_keys_spec m) as [Hsorted Hkeys].
  assert (Hidx : forall k r, m !! k = Some r -> chunk_index r = k).
  { intros k r H. subst m. rewrite merged_map_lookup in H.
    apply last_write_index in H. tauto. }
  rewrite omap_lookup_indices; [|exact Hidx|intros k; apply Hkeys].
  split; [|split].
  - clear Hkeys. induction Hsorted as [|x l Hs IH Hall]; constructor; auto.
    intros Hx. rewrite Forall_forall in Hall. specialize (Hall x Hx). lia.
  - exact Hsorted.
  - intros r. rewrite list_elem_of_omap. rewrite <- merged_map_lookup. fold m. split.
    + intros [k [_ H]]. rewrite (Hidx _ _ H). exact H.
    + intros H. exists (chunk_index r). split; [|exact H]. apply Hkeys. eauto.
Qed.

(** Queueing the notifications leaves the store alone. *)
Lemma enqueue_emails_redis userId task_id items env w :
  fst (enqueue_emails userId task_id items env w) = Ok tt
  /\ redis (snd (enqueue_emails userId task_id items env w)) = redis w.
Proof.
  revert w. induction items as [|item items IH]; intros w; [split; reflexivity|].
  cbn [enqueue_emails]. unfold bind, delay.
  match goal with
  | |- context [enqueue_emails _ _ _ _ ?w1] => destruct (IH w1) as [H1 H2]
  end.
  split; [exact H1 | rewrite H2; reflexivity].
Qed.

(** C8. After [generate_insights] has merged and stored its results,
    the list stored for the subject has at most one record per chunk
    index, is in increasing order of chunk index, and holds for each
    index the record written last, the results of this call coming
    after the records stored before. *)
Theorem generate_insights_stores_merged task_id userId results env w :
  reachable env ->
  let existing := existing_insights (redis w !! insights_key userId) in
  let w' := snd (generate_insights task_id userId results env w) in
  exists final,
    redis w' !! insights_key userId = Some (UserInsights final)
    /\ NoDup (chunk_index <$> final)
    /\ StronglySorted Z.lt (chunk_index <$> final)
    /\ forall r, r ∈ final
                 <-> last_write (existing ++ results) (chunk_index r) = Some r.
Proof.
  intros Hup existing w'.
  exists (merge_results existing results).
  split; [|apply merge_results_spec].
  subst w'. unfold generate_insights.
  unfold bind at 1. rewrite (redis_get_up _ _ _ Hup).
  unfold bind at 1. rewrite (redis_setex_up _ _ _ _ Hup).
  unfold bind at 1.
  match goal with
  | |- context [enqueue_emails _ _ _ _ ?w1] =>
      destruct (enqueue_emails_redis userId task_id results env w1) as [H1 H2];
      destruct (enqueue_emails userId task_id results env w1) as [r w2]
  end.
  cbn [fst snd] in H1, H2. subst r. cbn [ret snd]. rewrite H2. cbn [set_redis redis].
  apply lookup_insert_eq.
Qed.

Example merge_results_example :
  merge_results [record_for 0 "a"; record_for 1 "b"] new_results
  = [record_for 0 "a2"; record_for 1 "b"; record_for 2 "c"].
Proof. vm_compute. reflexivity. Qed.

Lemma generate_insights_stores_merged_witness :
  reachable all_up
  /\ exists final,
      redis (snd (generate_insights 7 "u1" new_results all_up stored_two))
        !! insights_key "u1" = Some (UserInsights final)
      /\ NoDup (chunk_index <$> final)
      /\ StronglySorted Z.lt (chunk_index <$> final)
      /\ forall r, r ∈ final
                   <-> last_write
                         (existing_insights (redis stored_two !! insights_key "u1")
                          ++ new_results) (chunk_index r) = Some r.
Proof.
  split; [exact all_up_reachable|].
  exact (generate_insights_stores_merged 7 "u1" new_results all_up stored_two
           all_up_reachable).
Defined.

(** *** Scheduled batches *)

(** [l[i:j]] for bounds within the list is the segment of the positions
    [i <= p < j]. *)
Lemma py_slice_segment {A} (l : list A) (i j : Z) :
  0 <= i -> 0 <= j <= Z.of_nat (length l) ->
  py_slice l i j = take (Z.to_nat (j - i)) (drop (Z.to_nat i) l).
Proof.
  intros Hi Hj. unfold py_slice, slice_bound.
  destruct (Z.ltb_spec i 0); [lia|]. destruct (Z.ltb_spec j 0); [lia|].
  rewrite (Z.min_l j) by lia.
  destruct (Z.le_gt_cases i (Z.of_nat (length l))).
  - rewrite Z.min_l by lia. reflexivity.
  - rewrite Z.min_r by lia.
    replace (Z.to_nat (j - Z.of_nat (length l))) with 0%nat by lia.
    rewrite (drop_ge l (Z.to_nat i)) by lia. rewrite take_nil. reflexivity.
Qed.

Lemma get_user_processing_state_ok user_id start_index env w :
  redis_up env (Access Manager GET (progress_key user_id)) = true ->
  get_user_processing_state user_id start_index env w
  = (Ok (stored_progress w user_id start_index), w).
Proof.
  intros Hup. unfold get_user_processing_state, try_catch, bind, stored_progress.
  rewrite (get_json_ok _ _ _ Hup).
  destruct (redis w !! progress_key user_id) as [[d|[|i l]|m|p|]|]; reflexivity.
Qed.

Lemma get_user_processing_state_up user_id start_index env w :
  reachable env ->
  get_user_processing_state user_id start_index env w
  = (Ok (stored_progress w user_id start_index), w).
Proof. intros Hup. apply get_user_processing_state_ok, Hup. Qed.

Lemma get_user_chunks_up user_id env w d :
  reachable env ->
  redis w !! chunks_key user_id = Some (UserChunks d) ->
  get_user_chunks user_id env w = (Ok (Some (ud_chunks d)), w).
Proof.
  intros Hup Hd. unfold get_user_chunks, try_catch, bind.
  rewrite (get_json_up _ _ _ Hup), Hd. reflexivity.
Qed.

Lemma update_user_progress_up user_id new_index processed_count task_id env w :
  reachable env ->
  update_user_progress user_id new_index processed_count task_id env w
  = (Ok true,
     set_redis w (<[progress_key user_id :=
                      UserProgress {| current_index := new_index;
                                      processed_count := processed_count;
                                      last_processed_at := now_iso env;
                                      last_task_id := task_id;
                                      p_completed_at := None |}]> (redis w))).
Proof.
  intros Hup. unfold update_user_progress, try_catch, bind, ask.
  rewrite (setex_json_up _ _ _ _ Hup). reflexivity.
Qed.

Lemma cleanup_never_raises user_id env w :
  exists b, fst (cleanup_user_schedule user_id env w) = Ok b.
Proof.
  unfold cleanup_user_schedule, try_catch.
  destruct (bind _ _ env w) as [[b|e] w']; cbn; eauto.
Qed.

(** The two ways a firing with chunk data goes. *)
Lemma process_scheduled_chunks_batch_aux
        user_id chunks_per_delivery start_index env w d current processed :
  reachable env ->
  redis w !! chunks_key user_id = Some (UserChunks d) ->
  ud_chunks d <> [] ->
  stored_progress w user_id start_index = (current, processed) ->
  0 <= current -> 0 <= chunks_per_delivery ->
  let total := Z.of_nat (length (ud_chunks d)) in
  let end_index := Z.min (current + chunks_per_delivery) total in
  let batch :=
    take (Z.to_nat (end_index - current)) (drop (Z.to_nat current) (ud_chunks d)) in
  (batch = [] <-> end_index <= current)
  /\ process_scheduled_chunks user_id chunks_per_delivery start_index env w
     = match batch with
       | [] => (Ok (Completed processed), snd (cleanup_user_schedule user_id env w))
       | _ =>
           (Ok (BatchQueued (Z.of_nat (length batch)) (next_task_id w)
                  current (end_index - 1) (processed + Z.of_nat (length batch))
                  (total - end_index)),
            after_dispatch w env user_id batch end_index
              (processed + Z.of_nat (length batch)))
       end.
Proof.
  intros Hup Hd Hne Hp Hcur Hcpd total end_index batch.
  assert (Hend : 0 <= end_index <= total) by (subst end_index total; lia).
  assert (Hslice : py_slice (ud_chunks d) current end_index = batch)
    by (apply py_slice_segment; assumption).
  split.
  - subst batch. split.
    + intros H. destruct (Z.le_gt_cases end_index current) as [|Hgt]; [assumption|].
      exfalso. apply (f_equal length) in H. rewrite length_take, length_drop in H.
      cbn in H. subst total. lia.
    + intros H. replace (Z.to_nat (end_index - current)) with 0%nat by lia. reflexivity.
  - unfold process_scheduled_chunks, try_catch. unfold bind at 1.
    rewrite (get_user_chunks_up _ _ _ _ Hup Hd).
    destruct (ud_chunks d) as [|c cs] eqn:Hchunks; [congruence|].
    unfold bind at 1. rewrite (redis_get_up _ _ _ Hup), Hd.
    unfold bind at 1. cbn [get_chunks ret]. rewrite Hchunks.
    unfold bind at 1. rewrite (get_user_processing_state_up _ _ _ _ Hup), Hp.
    fold total. fold end_index. rewrite Hslice.
    destruct batch as [|b bs] eqn:Hb.
    + unfold bind at 1.
      destruct (cleanup_never_raises user_id env w) as [ok Hok].
      destruct (cleanup_user_schedule user_id env w) as [r w1]. cbn in Hok. subst r.
      reflexivity.
    + unfold bind at 1. unfold delay at 1.
      unfold bind at 1. rewrite (update_user_progress_up _ _ _ _ _ _ Hup).
      reflexivity.
Qed.

(** C7. A firing of [process_scheduled_chunks] that finds the chunk
    data of the subject, in a store that answers, computes
    [end = min(current_index + chunks_per_delivery, total_chunks)].
    When the slice [[current_index, end)] is empty it returns [completed]
    with the processed count as stored and leaves the state of the cancel
    path: for a subject with schedule metadata or with none, the progress
    key is deleted, the metadata is stored with status [completed] and
    the time of the call, the job named in the metadata is removed from
    the beat schedule, and nothing is queued or sent. Otherwise it queues
    [generate_insights] for exactly that slice and stores the progress
    [current_index = end] with [processed_count] increased by the length
    of the slice. [current] and [processed] are the stored progress, or
    [start_index] and [0] when there is none. *)
Theorem process_scheduled_chunks_batch
        user_id chunks_per_delivery start_index env w d current processed :
  reachable env ->
  redis w !! chunks_key user_id = Some (UserChunks d) ->
  ud_chunks d <> [] ->
  stored_progress w user_id start_index = (current, processed) ->
  0 <= current -> 0 <= chunks_per_delivery ->
  let total := Z.of_nat (length (ud_chunks d)) in
  let end_index := Z.min (current + chunks_per_delivery) total in
  let batch :=
    take (Z.to_nat (end_index - current)) (drop (Z.to_nat current) (ud_chunks d)) in
  let r := process_scheduled_chunks user_id chunks_per_delivery start_index env w in
  (batch = [] <-> end_index <= current)
  /\ match batch with
     | [] =>
         r = (Ok (Completed processed), snd (cleanup_user_schedule user_id env w))
         /\ forall sched,
             redis w !! schedule_key user_id = UserSchedule <$> sched ->
             redis (snd r)
             = delete (progress_key user_id)
                 (match sched with
                  | Some m =>
                      <[schedule_key user_id :=
                          UserSchedule (complete m (now_iso env))]> (redis w)
                  | None => redis w
                  end)
             /\ beat_schedule (snd r)
                = match sched with
                  | Some m =>
                      if String.eqb (sm_task_name m) "" then beat_schedule w
                      else delete (sm_task_name m) (beat_schedule w)
                  | None => beat_schedule w
                  end
             /\ queue (snd r) = queue w
             /\ next_task_id (snd r) = next_task_id w
             /\ outbox (snd r) = outbox w
     | _ =>
         r = (Ok (BatchQueued (Z.of_nat (length batch)) (next_task_id w)
                    current (end_index - 1) (processed + Z.of_nat (length batch))
                    (total - end_index)),
              after_dispatch w env user_id batch end_index
                (processed + Z.of_nat (length batch)))
     end.
Proof.
  intros Hup Hd Hne Hp Hcur Hcpd total end_index batch r.
  destruct (process_scheduled_chunks_batch_aux user_id chunks_per_delivery start_index
              env w d current processed Hup Hd Hne Hp Hcur Hcpd) as [Hb Hr].
  fold total end_index batch r in Hb, Hr.
  split; [exact Hb|].
  destruct batch as [|c cs]; [|exact Hr].
  split; [exact Hr|].
  intros sched Hs. rewrite Hr. cbn [snd].
  rewrite (cleanup_cancels user_id env w sched Hup Hs). cbn [snd].
  repeat split; reflexivity.
Qed.

(** The index a firing leaves in the store is again not negative: the
    condition of the statement above holds from one firing to the
    next. *)
Lemma firing_keeps_index_nonneg
      user_id chunks_per_delivery start_index env w d current processed :
  reachable env ->
  redis w !! chunks_key user_id = Some (UserChunks d) ->
  ud_chunks d <> [] ->
  stored_progress w user_id start_index = (current, processed) ->
  0 <= current -> 0 <= chunks_per_delivery -> 0 <= start_index ->
  let w' := snd (process_scheduled_chunks user_id chunks_per_delivery start_index env w) in
  0 <= fst (stored_progress w' user_id start_index).
Proof.
  intros Hup Hd Hne Hp Hcur Hcpd Hstart.
  destruct (process_scheduled_chunks_batch_aux user_id chunks_per_delivery start_index
              env w d current processed Hup Hd Hne Hp Hcur Hcpd) as [_ ->].
  destruct (take _ _) as [|c cs].
  - cbn [snd]. unfold stored_progress in *.
    destruct (cleanup_progress user_id env w) as [-> | ->]; cbn; [lia|].
    rewrite Hp. cbn. exact Hcur.
  - cbn [snd]. unfold stored_progress, after_dispatch. cbn [redis].
    rewrite lookup_insert_eq. cbn. lia.
Qed.

Lemma process_scheduled_chunks_batch_witness :
  (let r := process_scheduled_chunks "u1" 2 1 all_up scheduled in
   fst r = Ok (Completed 2)
   /\ redis (snd r)
      = delete (progress_key "u1")
          (<[schedule_key "u1" := UserSchedule (complete daily_schedule (now_iso all_up))]>
             (redis scheduled))
   /\ beat_schedule (snd r) = delete "process_user_chunks_u1" (beat_schedule scheduled)
   /\ queue (snd r) = [] /\ outbox (snd r) = [])
  /\ process_scheduled_chunks "u1" 2 1 all_up before_firing
     = (Ok (BatchQueued 2 0 1 2 2 0),
        after_dispatch before_firing all_up "u1"
          [chunk_of 1 "two"; chunk_of 2 "three"] 3 2).
Proof.
  split.
  - destruct (process_scheduled_chunks_batch "u1" 2 1 all_up scheduled
                three_chunks 3 2 all_up_reachable eq_refl) as [_ [H1 H2]];
      [discriminate | reflexivity | lia | lia |].
    destruct (H2 (Some daily_schedule) eq_refl) as (Hr & Hb & Hq & _ & Ho).
    cbn zeta. rewrite Hr, Hb, Hq, Ho. rewrite H1. repeat split; reflexivity.
  - destruct (process_scheduled_chunks_batch "u1" 2 1 all_up before_firing
                three_chunks 1 0 all_up_reachable eq_refl) as [_ H];
      [discriminate | reflexivity | lia | lia |].
    exact H.
Defined.

End TasksFacts.

(** ** Rate limiter: buckets, counters and statistics *)

Module LimiterCoverage.

Import RateLimiter RateLimiterFacts UsageStats.
Local Open Scope rl_scope.

Lemma Qle_bool_false (x y : Q) : (y < x)%Q -> Qle_bool x y = false.
Proof.
  intros H. destruct (Qle_bool x y) eqn:E; [|reflexivity].
  apply Qle_bool_iff in E. exfalso. apply (Qlt_not_le _ _ H E).
Qed.

(** A request for more tokens than the capacity is never served,
    whatever the time, and only refills the bucket. *)
Lemma bucket_refuses_above_capacity (now : Q) (n : Z) (b : TokenBucket) :
  capacity b < n ->
  fst (has_capacity now n b) = false
  /\ consume now n b = (false, _refill now b).
Proof.
  intros Hn.
  assert (H : Qle_bool (inject_Z n) (tokens (_refill now b)) = false).
  { apply Qle_bool_false. eapply Qle_lt_trans; [apply refill_bounded|].
    rewrite <- Zlt_Qlt. exact Hn. }
  unfold has_capacity, consume. cbn zeta. rewrite H. split; reflexivity.
Qed.

Lemma bucket_refuses_above_capacity_witness :
  capacity (new_bucket 5 (1 # 2) 0) < 6
  /\ fst (has_capacity 1000 6 (new_bucket 5 (1 # 2) 0)) = false.
Proof.
  assert (H : capacity (new_bucket 5 (1 # 2) 0) < 6) by (cbn; lia).
  split; [exact H|].
  exact (proj1 (bucket_refuses_above_capacity 1000 6 (new_bucket 5 (1 # 2) 0) H)).
Defined.


Lemma settled_refilled now b j :
  settled now b j -> (tokens (_refill now b) == inject_Z j)%Q.
Proof.
  intros (Ht & Hj & He & Hcase). cbn. rewrite py_min_Qmin.
  destruct Hcase as [H0 | ->].
  - rewrite H0, Ht, Qplus_0_r. apply Q.min_r. rewrite <- Zle_Qle. exact Hj.
  - apply Q.min_l. rewrite Ht. lra.
Qed.

Lemma settled_after_consume now b j :
  settled now b j -> 1 <= j ->
  consume now 1 b = (true, snd (consume now 1 b))
  /\ settled now (snd (consume now 1 b)) (j - 1).
Proof.
  intros Hs Hj. pose proof (settled_refilled now b j Hs) as Hr.
  destruct Hs as (Ht & Hcap & He & Hcase).
  unfold consume. cbn zeta.
  assert (H : Qle_bool (inject_Z 1) (tokens (_refill now b)) = true).
  { apply Qle_bool_iff. rewrite Hr. rewrite <- Zle_Qle. exact Hj. }
  rewrite H. cbn [fst snd]. split; [reflexivity|].
  unfold settled. cbn [with_tokens tokens capacity last_refill refill_rate _refill].
  fold (refilled now b). change (tokens (_refill now b)) with (refilled now b) in Hr.
  split; [|split; [lia|split]].
  - rewrite Hr. unfold Z.sub. rewrite inject_Z_plus, inject_Z_opp. reflexivity.
  - assert (E : ((now - now) * refill_rate b == 0)%Q) by ring. rewrite E. lra.
  - left. ring.
Qed.

Lemma settled_empty now b :
  settled now b 0 ->
  consume now 1 b = (false, _refill now b) /\ settled now (_refill now b) 0.
Proof.
  intros Hs. pose proof (settled_refilled now b 0 Hs) as Hr.
  destruct Hs as (Ht & Hcap & He & Hcase).
  unfold consume. cbn zeta.
  rewrite Qle_bool_false; [|rewrite Hr; reflexivity].
  split; [reflexivity|].
  unfold settled. cbn [tokens capacity last_refill refill_rate _refill].
  fold (refilled now b). change (tokens (_refill now b)) with (refilled now b) in Hr.
  split; [exact Hr|]. split; [exact Hcap|]. split.
  - assert (E : ((now - now) * refill_rate b == 0)%Q) by ring. rewrite E. lra.
  - left. ring.
Qed.

Lemma consume_times_settled (k : nat) now b (j : nat) :
  settled now b (Z.of_nat j) ->
  fst (consume_times k now 1 b)
  = replicate (Nat.min k j) true ++ replicate (k - j) false.
Proof.
  revert b j. induction k as [|k IH]; intros b j Hs; [reflexivity|].
  cbn [consume_times]. destruct j as [|j].
  - destruct (settled_empty now b Hs) as [-> Hs'].
    specialize (IH (_refill now b) 0%nat Hs').
    destruct (consume_times k now 1 (_refill now b)) as [oks b'']. cbn [fst] in *.
    rewrite IH. rewrite Nat.min_0_r. cbn. rewrite Nat.sub_0_r. reflexivity.
  - destruct (settled_after_consume now b (Z.of_nat (S j)) Hs ltac:(lia)) as [E Hs'].
    rewrite E. replace (Z.of_nat (S j) - 1) with (Z.of_nat j) in Hs' by lia.
    specialize (IH _ j Hs').
    destruct (consume_times k now 1 _) as [oks b'']. cbn [fst] in *.
    rewrite IH. reflexivity.
Qed.

(** X1. A bucket built with capacity [C] starts full: of [k] calls of
    [consume(1)] made with no time passing between them, the first
    [min k C] succeed and every later one fails, whatever the refill
    rate. *)
Theorem fresh_bucket_burst (C : nat) (r now0 now : Q) (k : nat) :
  (0 <= r)%Q -> (now0 <= now)%Q ->
  fst (consume_times k now 1 (new_bucket (Z.of_nat C) r now0))
  = replicate (Nat.min k C) true ++ replicate (k - C) false.
Proof.
  intros Hr Hnow. apply consume_times_settled.
  unfold settled, new_bucket. cbn.
  split; [reflexivity|]. split; [lia|]. split.
  - apply Qmult_le_0_compat; [lra | exact Hr].
  - right. reflexivity.
Qed.

Lemma fresh_bucket_burst_witness :
  fst (consume_times 7 1000 1 (new_bucket 5 (1 # 2) 1000))
  = [true; true; true; true; true; false; false].
Proof.
  exact (fresh_bucket_burst 5 (1 # 2) 1000 1000 7 ltac:(discriminate) ltac:(discriminate)).
Defined.


Lemma on_request_bucket_daily {A} (f : Q -> TokenBucket -> A * TokenBucket) w :
  daily (limiter (snd (on_request_bucket f w))) = daily (limiter w).
Proof.
  unfold on_request_bucket, bind, time_time, get, put, ret.
  destruct w as [l c]. cbn. destruct (f _ _). reflexivity.
Qed.

Lemma on_token_bucket_daily {A} (f : Q -> TokenBucket -> A * TokenBucket) w :
  daily (limiter (snd (on_token_bucket f w))) = daily (limiter w).
Proof.
  unfold on_token_bucket, bind, time_time, get, put, ret.
  destruct w as [l c]. cbn. destruct (f _ _). reflexivity.
Qed.

Lemma can_process_daily text ect w :
  daily (limiter (snd (can_process_request text ect w)))
  = daily (limiter (snd (_check_daily_reset w))).
Proof.
  unfold can_process_request. unfold bind at 1.
  destruct (_check_daily_reset w) as [[] w1]. cbn [snd].
  unfold bind at 1. unfold get at 1. cbn [limiter].
  destruct (_ <=? _); [reflexivity|]. destruct (_ <? _); [reflexivity|].
  unfold bind at 1.
  pose proof (on_request_bucket_daily (fun now => has_capacity now 1) w1) as H1.
  destruct (on_request_bucket _ w1) as [r w2]. cbn [snd] in H1.
  destruct r; cbn [negb]; [|unfold ret; cbn [snd]; assumption].
  unfold bind at 1.
  match goal with
  | |- context [on_token_bucket ?f w2] =>
      pose proof (on_token_bucket_daily f w2) as H2;
      destruct (on_token_bucket f w2) as [t w3]
  end.
  cbn [snd] in H2. destruct t; unfold ret; cbn [snd negb]; congruence.
Qed.

Lemma acquire_daily text ect w :
  daily (limiter (snd (acquire_tokens text ect w)))
  = daily (limiter (snd (_check_daily_reset w))).
Proof.
  pose proof (can_process_daily text ect w) as Hd.
  unfold acquire_tokens. unfold bind at 1.
  destruct (can_process_request text ect w) as [c w1]. cbn [snd] in Hd.
  destruct c as [reason | est buf]; [unfold ret; cbn [snd]; assumption|].
  unfold bind at 1.
  pose proof (on_request_bucket_daily (fun now => consume now 1) w1) as H1.
  destruct (on_request_bucket _ w1) as [ra w2]. cbn [snd] in H1.
  unfold bind at 1.
  pose proof (on_token_bucket_daily (fun now => consume now buf) w2) as H2.
  destruct (on_token_bucket _ w2) as [ta w3]. cbn [snd] in H2.
  destruct (negb (ra && ta)); unfold ret; cbn [snd]; congruence.
Qed.

(** [acquire_tokens] changes nothing but the buckets: the daily
    counters, the reset time and the history are those the daily reset
    that opens the call leaves. *)
Lemma acquire_keeps_daily_counters text ect w :
  let l' := limiter (snd (acquire_tokens text ect w)) in
  let l1 := limiter (snd (_check_daily_reset w)) in
  daily_requests_used l' = daily_requests_used l1
  /\ daily_tokens_used l' = daily_tokens_used l1
  /\ daily_reset_time l' = daily_reset_time l1
  /\ usage_history l' = usage_history l1.
Proof.
  cbn zeta. pose proof (acquire_daily text ect w) as H.
  unfold daily in H. injection H as H1 H2 H3 H4. auto.
Qed.

(** X2. A call of [acquire_tokens] that returns [True] has taken one
    token from the request bucket and the buffered token estimate of the
    check from the token bucket, each from the level the bucket has after
    its refill at the time of the call of [consume]. *)
Theorem acquire_success_takes text ect w :
  fst (acquire_tokens text ect w) = true ->
  exists est buf,
    fst (can_process_request text ect w) = Allowed est buf
    /\ let w1 := snd (can_process_request text ect w) in
       let k := Clock.ticks (clock w1) in
       let w' := snd (acquire_tokens text ect w) in
       tokens (request_bucket (limiter w'))
       = (refilled (Clock.readings (clock w1) k) (request_bucket (limiter w1)) - 1)%Q
       /\ tokens (token_bucket (limiter w'))
          = (refilled (Clock.readings (clock w1) (S k)) (token_bucket (limiter w1))
             - inject_Z buf)%Q.
Proof.
  intros Hok.
  destruct (fst (can_process_request text ect w)) as [reason | est buf] eqn:Hc.
  - exfalso. revert Hok. unfold acquire_tokens. unfold bind at 1.
    destruct (can_process_request text ect w) as [c w1]. cbn [fst] in Hc. subst c.
    cbn. discriminate.
  - exists est, buf. split; [reflexivity|]. cbn zeta.
    rewrite (acquire_after_allowed text ect w est buf Hc) in *. cbn zeta in *.
    cbn [fst snd] in *.
    set (w1 := snd (can_process_request text ect w)) in *. clearbody w1.
    destruct w1 as [l1 c1].
    revert Hok.
    unfold on_request_bucket, on_token_bucket, bind, time_time, get, put, ret,
      consume, Clock.time.
    cbn [limiter clock fst snd set_request_bucket set_token_bucket request_bucket
         token_bucket Clock.readings Clock.ticks].
    destruct (Qle_bool (inject_Z 1) _) eqn:E1; [|discriminate].
    cbn [limiter clock fst snd set_request_bucket set_token_bucket request_bucket
         token_bucket Clock.readings Clock.ticks].
    destruct (Qle_bool (inject_Z buf) _) eqn:E2; [|discriminate].
    intros _. cbn. split; reflexivity.
Qed.

Lemma acquire_success_takes_witness :
  exists est buf, fst (can_process_request "abcd" 0 w0) = Allowed est buf.
Proof.
  destruct (acquire_success_takes "abcd" 0 w0 ltac:(vm_compute; reflexivity))
    as (est & buf & H & _).
  exists est, buf. exact H.
Defined.

(** [l[-n:]] for [n] below the length is the list without its first
    [length l - n] elements. *)
Lemma py_slice_last {A} (l : list A) (n : nat) :
  (0 < n <= length l)%nat ->
  py_slice l (- Z.of_nat n) (Z.of_nat (length l)) = drop (length l - n) l.
Proof.
  intros H. unfold py_slice, slice_bound.
  destruct (Z.ltb_spec (- Z.of_nat n) 0); [|lia].
  destruct (Z.ltb_spec (Z.of_nat (length l)) 0); [lia|].
  rewrite Z.min_id.
  rewrite Z.max_l by lia.
  replace (Z.to_nat (- Z.of_nat n + Z.of_nat (length l))) with (length l - n)%nat by lia.
  apply take_ge. rewrite length_drop. lia.
Qed.

(** X4. [record_actual_usage] adds one to the daily request counter
    and the reported total to the daily token counter, appends a record
    stamped with the current time, keeps the last 1000 records, the new
    one last, and leaves the buckets alone. *)
Theorem record_actual_usage_effect total prompt completion text model w :
  let l := limiter w in
  let l' := limiter (snd (record_actual_usage total prompt completion text model w)) in
  let record :=
    {| chunk_length := len text; total_tokens := total;
       prompt_tokens := prompt; completion_tokens := completion;
       timestamp := Clock.readings (clock w) (Clock.ticks (clock w));
       model := model |} in
  daily_requests_used l' = daily_requests_used l + 1
  /\ daily_tokens_used l' = daily_tokens_used l + total
  /\ usage_history l'
     = drop (length (usage_history l ++ [record]) - 1000) (usage_history l ++ [record])
  /\ (length (usage_history l') <= 1000)%nat
  /\ last (usage_history l') = Some record
  /\ request_bucket l' = request_bucket l
  /\ token_bucket l' = token_bucket l.
Proof.
  cbn zeta.
  unfold record_actual_usage, bind, get, time_time, put, ret, Clock.time.
  destruct w as [l c]. cbn [limiter clock fst snd daily_requests_used daily_tokens_used
    usage_history request_bucket token_bucket] in *.
  set (rec := {| chunk_length := len text; total_tokens := total;
                 prompt_tokens := prompt; completion_tokens := completion;
                 timestamp := Clock.readings c (Clock.ticks c); model := model |}).
  set (h := usage_history l ++ [rec]).
  assert (Hh1 : length h = S (length (usage_history l)))
    by (subst h; rewrite length_app; cbn; lia).
  split; [reflexivity|]. split; [reflexivity|].
  assert (Hh : (if (1000 <? length h)%nat
                then py_slice h (-1000) (Z.of_nat (length h)) else h)
               = drop (length h - 1000) h).
  { destruct (Nat.ltb_spec 1000 (length h)).
    - apply (py_slice_last h 1000). lia.
    - replace (length h - 1000)%nat with 0%nat by lia. reflexivity. }
  rewrite Hh. split; [reflexivity|]. split; [|split; [|split; reflexivity]].
  - rewrite length_drop. lia.
  - subst h. rewrite drop_app_le by lia. apply last_snoc.
Qed.


(** The next midnight after [now]: a multiple of a day, later than
    [now] and at most a day later. *)
Lemma next_midnight_bounds (now : Q) :
  let r := inject_Z ((Qfloor (now / 86400) + 1) * 86400) in
  (now < r)%Q /\ (r <= now + 86400)%Q.
Proof.
  cbn zeta. pose proof (Qfloor_le (now / 86400)) as Hlo.
  pose proof (Qlt_floor (now / 86400)) as Hhi.
  rewrite inject_Z_mult. rewrite inject_Z_plus in *.
  change (inject_Z 86400) with 86400%Q. change (inject_Z 1) with 1%Q in *.
  assert (E : (now == now / 86400 * 86400)%Q) by field.
  set (x := (now / 86400)%Q) in *. set (f := inject_Z (Qfloor x)) in *.
  clearbody f. clearbody x. split; rewrite E; lra.
Qed.

(** X5. When the clock has reached the reset time,
    [_check_daily_reset] sets both daily counters to zero and moves the
    reset time to the next multiple of 86400 seconds after the second
    clock reading, at most a day ahead of it; buckets and history are
    kept. *)
Theorem daily_reset_when_due w :
  let now := Clock.readings (clock w) (Clock.ticks (clock w)) in
  let now' := Clock.readings (clock w) (S (Clock.ticks (clock w))) in
  (daily_reset_time (limiter w) <= now)%Q ->
  let l' := limiter (snd (_check_daily_reset w)) in
  daily_requests_used l' = 0
  /\ daily_tokens_used l' = 0
  /\ (now' < daily_reset_time l')%Q
  /\ (daily_reset_time l' <= now' + 86400)%Q
  /\ (exists day : Z, daily_reset_time l' = inject_Z (day * 86400))
  /\ request_bucket l' = request_bucket (limiter w)
  /\ token_bucket l' = token_bucket (limiter w)
  /\ usage_history l' = usage_history (limiter w).
Proof.
  cbn zeta. intros Hdue.
  unfold _check_daily_reset, bind, time_time, get, put, _get_next_daily_reset, ret,
    Clock.time.
  destruct w as [l c]. cbn [limiter clock fst snd] in *.
  apply Qle_bool_iff in Hdue. rewrite Hdue.
  cbn [limiter clock fst snd set_daily daily_requests_used daily_tokens_used
       daily_reset_time request_bucket token_bucket usage_history
       Clock.readings Clock.ticks].
  destruct (next_midnight_bounds (Clock.readings c (S (Clock.ticks c)))) as [H1 H2].
  repeat split; try assumption. eexists. reflexivity.
Qed.

Lemma daily_reset_when_due_witness :
  daily_requests_used (limiter (snd (_check_daily_reset next_day))) = 0.
Proof.
  exact (proj1 (daily_reset_when_due next_day ltac:(vm_compute; discriminate))).
Defined.

Lemma default_estimate_bounds (text : string) :
  31 <= _default_token_estimator text
  /\ len text / 4 + 30 <= _default_token_estimator text.
Proof.
  unfold _default_token_estimator, py_max.
  destruct (Z.ltb_spec 1 (len text / 4)); lia.
Qed.

(** For a buffer that is not negative, the buffered estimate lies
    between the estimate and the estimate times [1 + safety_buffer]. *)
Lemma buffer_at_least_estimate (cfg : RateLimitConfig) (total : Z) :
  0 <= total -> (0 <= safety_buffer cfg)%Q ->
  total <= buffer cfg total
  /\ (inject_Z (buffer cfg total) <= inject_Z total * (1 + safety_buffer cfg))%Q.
Proof.
  intros Ht Hs. unfold buffer.
  assert (Hp : (inject_Z total <= inject_Z total * (1 + safety_buffer cfg))%Q).
  { assert (0 <= inject_Z total)%Q by (change 0%Q with (inject_Z 0); rewrite <- Zle_Qle; lia).
    assert (0 <= inject_Z total * safety_buffer cfg)%Q by (apply Qmult_le_0_compat; assumption).
    lra. }
  assert (H0 : (0 <= inject_Z total * (1 + safety_buffer cfg))%Q).
  { eapply Qle_trans; [|exact Hp]. change 0%Q with (inject_Z 0). rewrite <- Zle_Qle. lia. }
  rewrite (py_int_floor _ H0). split.
  - rewrite <- (Qfloor_Z total) at 1. apply Qfloor_resp_le. exact Hp.
  - apply Qfloor_le.
Qed.

Lemma buffer_at_least_estimate_witness :
  31 <= buffer ratelimitconfig 31.
Proof.
  exact (proj1 (buffer_at_least_estimate ratelimitconfig 31 ltac:(lia) ltac:(discriminate))).
Defined.

(** A denial for a daily limit is decided before the buckets are
    looked at. *)
Lemma daily_denial_leaves_buckets text ect w reason w' :
  can_process_request text ect w = (Denied reason, w') ->
  reason = "daily_request_limit_exceeded" \/ reason = "daily_token_limit_exceeded" ->
  w' = snd (_check_daily_reset w).
Proof.
  unfold can_process_request. unfold bind at 1.
  destruct (_check_daily_reset w) as [[] w1]. cbn [snd].
  unfold bind at 1. unfold get at 1. cbn [limiter].
  destruct (_ <=? _); [intros [= _ <-]; reflexivity|].
  destruct (_ <? _); [intros [= _ <-]; reflexivity|].
  unfold bind at 1.
  destruct (on_request_bucket _ w1) as [r w2].
  destruct r; cbn [negb].
  - unfold bind at 1. destruct (on_token_bucket _ w2) as [t w3].
    destruct t; cbn [negb]; cbn; intros [= <- _]; intros [H|H]; discriminate.
  - cbn. intros [= <- _]; intros [H|H]; discriminate.
Qed.

Lemma daily_denial_leaves_buckets_witness :
  snd (can_process_request "abcd" 0 exhausted) = snd (_check_daily_reset exhausted).
Proof.
  apply (daily_denial_leaves_buckets "abcd" 0 exhausted "daily_request_limit_exceeded").
  - destruct (can_process_request "abcd" 0 exhausted) as [c w'] eqn:E.
    assert (Hc : c = fst (can_process_request "abcd" 0 exhausted)) by (rewrite E; reflexivity).
    rewrite Hc. reflexivity.
  - left. reflexivity.
Defined.

(** X6. With the reset time still ahead, [get_usage_stats] reports
    [daily_requests_remaining = 0] exactly when [can_process_request]
    denies with [daily_request_limit_exceeded]. *)
Theorem no_requests_left_iff_denied text ect w :
  (Clock.readings (clock w) (Clock.ticks (clock w)) < daily_reset_time (limiter w))%Q ->
  daily_requests_remaining (get_usage_stats (limiter w)) = 0
  <-> fst (can_process_request text ect w) = Denied "daily_request_limit_exceeded".
Proof.
  intros Hclock. pose proof (check_daily_reset_not_due w Hclock) as Hl.
  unfold get_usage_stats, py_max. cbn [daily_requests_remaining].
  unfold can_process_request. unfold bind at 1.
  destruct (_check_daily_reset w) as [[] w1]. cbn [snd] in Hl.
  unfold bind at 1. unfold get at 1. cbn [limiter]. rewrite Hl.
  destruct (Z.leb_spec (daily_request_limit (config (limiter w)))
                       (daily_requests_used (limiter w))) as [Hle|Hgt].
  - split; [reflexivity|]. intros _.
    destruct (Z.ltb_spec 0 (daily_request_limit (config (limiter w))
                            - daily_requests_used (limiter w))); lia.
  - split.
    + destruct (Z.ltb_spec 0 (daily_request_limit (config (limiter w))
                              - daily_requests_used (limiter w))); lia.
    + intros H. exfalso. revert H.
      destruct (_ <? _); [discriminate|].
      unfold bind at 1. destruct (on_request_bucket _ w1) as [r w2].
      destruct r; cbn [negb]; [|discriminate].
      unfold bind at 1. destruct (on_token_bucket _ w2) as [t w3].
      destruct t; discriminate.
Qed.

Lemma no_requests_left_iff_denied_witness :
  fst (can_process_request "abcd" 0 exhausted) = Denied "daily_request_limit_exceeded".
Proof.
  apply (no_requests_left_iff_denied "abcd" 0 exhausted); reflexivity.
Defined.


(** The limiter of [tasks.py], used at one instant, passes check and
    acquisition for a four-character text. *)
Lemma acquire_succeeds_under_monotone_clock_witness :
  fst (acquire_tokens "abcd" 0 w0) = true.
Proof.
  apply (acquire_succeeds_under_monotone_clock "abcd" 0 w0 31 34).
  - intros i j _ _. apply Qle_refl.
  - discriminate.
  - discriminate.
  - vm_compute. reflexivity.
Defined.

End LimiterCoverage.

(** ** One chunk through the limiter and the provider *)

Module PipelineCoverage.

Import RateLimiter RateLimiterFacts Pipeline.
Local Open Scope rl_scope.


Lemma attempts_record provider_fn remaining attempt chunk_index text w :
  match fst (attempts provider_fn remaining attempt chunk_index text w) with
  | Some r => Sys.chunk_index r = chunk_index /\ well_formed r
  | None => (remaining <= Z.to_nat (1 - attempt))%nat
  end.
Proof.
  revert attempt w. induction remaining as [|n IH]; intros attempt w;
    cbn [attempts]; [cbn; lia|].
  unfold bind at 1. destruct (provider_fn text w) as [[i u | status | msg] w1].
  - unfold bind, ret. destruct (record_actual_usage _ _ _ _ _ w1). cbn.
    split; [reflexivity|]. left. repeat split; discriminate.
  - destruct (Z.eqb_spec status 429); cbn [andb].
    + destruct (Z.ltb_spec attempt (2 - 1)).
      * specialize (IH (attempt + 1) w1).
        destruct (fst (attempts provider_fn n (attempt + 1) chunk_index text w1)); [exact IH | lia].
      * cbn. split; [reflexivity|]. right. repeat split; discriminate.
    + cbn. split; [reflexivity|]. right. repeat split; discriminate.
  - cbn. split; [reflexivity|]. right. repeat split; discriminate.
Qed.

(** X7. Whatever the provider does, [process_chunk] returns a record,
    never [None], with the index of its chunk and either an insight with
    its usage or an error; when the check of the limiter denies, the
    record says "Rate limit hit: " with the reason and the provider is
    not called: the state is the one the check leaves. *)
Theorem process_chunk_returns_record
        (provider_fn : string -> M ProviderResult) (chunk : Models.Chunk) (w : World) :
  (exists r, fst (process_chunk provider_fn chunk w) = Some r
             /\ Sys.chunk_index r = Models.index chunk /\ well_formed r)
  /\ (forall reason,
        fst (can_process_request (Models.text chunk) 500 w) = Denied reason ->
        process_chunk provider_fn chunk w
        = (Some (failed (Models.index chunk) ("Rate limit hit: " +:+ reason)),
           snd (can_process_request (Models.text chunk) 500 w))).
Proof.
  split.
  - unfold process_chunk. cbn zeta. unfold bind at 1.
    destruct (can_process_request (Models.text chunk) 500 w) as [[reason | est buf] w1].
    + cbn. eexists. split; [reflexivity|]. split; [reflexivity|].
      right. repeat split; discriminate.
    + unfold bind at 1. destruct (acquire_tokens (Models.text chunk) 500 w1) as [[] w2];
        cbn [negb].
      * pose proof (attempts_record provider_fn 2 0 (Models.index chunk)
                      (Models.text chunk) w2) as H.
        destruct (fst (attempts provider_fn 2 0 (Models.index chunk) (Models.text chunk) w2))
          as [r|]; [eauto | cbn in H; lia].
      * cbn. eexists. split; [reflexivity|]. split; [reflexivity|].
        right. repeat split; discriminate.
  - intros reason H. unfold process_chunk. cbn zeta. unfold bind at 1.
    destruct (can_process_request (Models.text chunk) 500 w) as [c w1].
    cbn [fst snd] in *. subst c. reflexivity.
Qed.

End PipelineCoverage.

(** ** Segmenter: termination, trimming and coverage *)

Module SegmenterCoverage.

Import Segmenter SegmenterFacts Text.

Lemma first_down_zero p i : first_down p i 0 = None.
Proof. reflexivity. Qed.

Lemma range_down_find_empty p start stop :
  start <= stop -> range_down_find p start stop = None.
Proof.
  intros H. unfold range_down_find.
  replace (Z.to_nat (start - stop)) with 0%nat by lia. reflexivity.
Qed.

(** With [max_chars <= 0] an iteration does not move forward. *)
Lemma step_stalls text max_chars current_pos :
  max_chars <= 0 -> current_pos < len text ->
  fst (step text max_chars current_pos) = current_pos + max_chars.
Proof.
  intros Hmax Hpos. unfold step. cbn [fst].
  rewrite Z.min_l by lia.
  destruct (Z.ltb_spec (current_pos + max_chars) (len text)); [|lia].
  unfold find_break.
  rewrite !range_down_find_empty by lia. reflexivity.
Qed.

Lemma chunk_loop_stalls text max_chars fuel current_pos chunks :
  max_chars <= 0 -> current_pos < len text ->
  chunk_loop fuel text max_chars current_pos chunks = OutOfFuel.
Proof.
  intros Hmax. revert current_pos chunks.
  induction fuel as [|fuel IH]; intros current_pos chunks Hpos; cbn [chunk_loop];
    destruct (Z.ltb_spec current_pos (len text)); try lia; [reflexivity|].
  pose proof (step_stalls text max_chars current_pos Hmax Hpos) as Hs.
  destruct (step text max_chars current_pos) as [e c]. cbn [fst] in Hs. subst e.
  apply IH. lia.
Qed.

(** X9. For [max_chars <= 0] and a text that is not empty the loop of
    [simple_chunk_text] never moves past the end of the text: no number
    of iterations makes the call return. *)
Theorem simple_chunk_text_never_returns fuel text max_chars :
  max_chars <= 0 -> 0 < len text ->
  simple_chunk_text fuel text max_chars = OutOfFuel.
Proof.
  intros Hmax Hlen. unfold simple_chunk_text.
  destruct (Z.leb_spec (len text) max_chars); [lia|].
  apply chunk_loop_stalls; assumption.
Qed.

Lemma simple_chunk_text_never_returns_witness :
  simple_chunk_text 1000 "abc" 0 = OutOfFuel.
Proof.
  apply simple_chunk_text_never_returns; [lia | reflexivity].
Defined.


(** *** What [strip] leaves *)


Lemma chars_rev_app s acc :
  chars (String.rev_app s acc) = rev (chars s) ++ chars acc.
Proof.
  revert acc. induction s as [|c s IH]; intros acc; cbn; [reflexivity|].
  rewrite IH. cbn. rewrite <- app_assoc. reflexivity.
Qed.

Lemma chars_rev s : chars (String.rev s) = rev (chars s).
Proof. unfold String.rev. rewrite chars_rev_app. cbn. apply app_nil_r. Qed.


Lemma lstrip_head s c : head (chars (lstrip s)) = Some c -> isspace c = false.
Proof.
  induction s as [|d s IH]; cbn; [discriminate|].
  destruct (isspace d) eqn:E; [exact IH|]. cbn. intros [= <-]. exact E.
Qed.

Lemma lstrip_suffix s : exists p, chars s = p ++ chars (lstrip s).
Proof.
  induction s as [|d s [p IH]]; cbn; [exists []; reflexivity|].
  destruct (isspace d).
  - exists (d :: p). cbn. rewrite IH. reflexivity.
  - exists []. reflexivity.
Qed.

Lemma chars_rstrip_prefix t :
  exists q, chars t = chars (rstrip t) ++ q.
Proof.
  unfold rstrip. rewrite chars_rev.
  destruct (lstrip_suffix (String.rev t)) as [p Hp]. rewrite chars_rev in Hp.
  exists (rev p). apply (f_equal (@rev ascii)) in Hp.
  rewrite rev_involutive, rev_app_distr in Hp. exact Hp.
Qed.

Lemma strip_trimmed s : trimmed (strip s).
Proof.
  unfold strip. split; intros c Hc.
  - destruct (chars_rstrip_prefix (lstrip s)) as [q Hq].
    apply (lstrip_head s c). rewrite Hq.
    destruct (chars (rstrip (lstrip s))); [discriminate | exact Hc].
  - unfold rstrip in Hc. rewrite chars_rev in Hc.
    apply (lstrip_head (String.rev (lstrip s)) c).
    destruct (chars (lstrip (String.rev (lstrip s)))) as [|d l]; [discriminate|].
    cbn in *. rewrite last_app in Hc. cbn in Hc. exact Hc.
Qed.

Lemma chunk_loop_Forall (P : string -> Prop) text max_chars :
  (forall pos c, snd (step text max_chars pos) = Some c -> P c) ->
  forall fuel current_pos chunks out,
    Forall P chunks ->
    chunk_loop fuel text max_chars current_pos chunks = Returned out ->
    Forall P out.
Proof.
  intros Hstep. induction fuel as [|fuel IH]; intros current_pos chunks out Hall;
    cbn [chunk_loop]; destruct (current_pos <? len text);
    try discriminate; try (intros [= <-]; exact Hall).
  specialize (Hstep current_pos).
  destruct (step text max_chars current_pos) as [e c]. cbn [snd] in Hstep.
  apply IH. destruct c as [c|]; [|exact Hall].
  apply Forall_app. split; [exact Hall|]. constructor; [|constructor]. apply Hstep. reflexivity.
Qed.

(** X10. For a text longer than [max_chars], every chunk
    [simple_chunk_text] returns is not empty and has no white space at
    either end. *)
Theorem chunks_are_trimmed fuel text max_chars chunks :
  max_chars < len text ->
  simple_chunk_text fuel text max_chars = Returned chunks ->
  Forall (fun c => c <> "" /\ trimmed c) chunks.
Proof.
  intros Hlong. unfold simple_chunk_text.
  destruct (Z.leb_spec (len text) max_chars); [lia|].
  apply chunk_loop_Forall; [|constructor].
  intros pos c. unfold step. cbn [snd].
  destruct (String.eqb_spec (strip (str_slice text pos
              (if (pos + max_chars) `min` len text <? len text
               then find_break text max_chars pos ((pos + max_chars) `min` len text)
               else (pos + max_chars) `min` len text))) "") as [|Hne]; [discriminate|].
  intros [= <-]. split; [exact Hne | apply strip_trimmed].
Qed.

Lemma chunks_are_trimmed_witness :
  Forall (fun c => c <> "" /\ trimmed c) ["ab"; "cd"].
Proof.
  apply (chunks_are_trimmed 5 "ab cd" 3); reflexivity.
Defined.


Lemma ink_app l1 l2 : ink (l1 ++ l2) = ink l1 ++ ink l2.
Proof. apply filter_app. Qed.

Lemma chars_length s : length (chars s) = String.length s.
Proof. induction s; cbn; congruence. Qed.

Lemma chars_substring s n m :
  chars (substring n m s) = take m (drop n (chars s)).
Proof.
  revert n m. induction s as [|c s IH]; intros [|n] [|m]; cbn; try reflexivity.
  - rewrite (IH 0%nat m). cbn. rewrite drop_0. reflexivity.
  - apply IH.
  - apply IH.
Qed.

Lemma chars_str_slice s i j :
  0 <= i <= j -> j <= len s ->
  chars (str_slice s i j) = take (Z.to_nat (j - i)) (drop (Z.to_nat i) (chars s)).
Proof.
  intros Hi Hj. unfold str_slice, slice_bound.
  destruct (Z.ltb_spec i 0); [lia|]. destruct (Z.ltb_spec j 0); [lia|].
  rewrite !Z.min_l by lia. apply chars_substring.
Qed.

Lemma ink_lstrip s : ink (chars (lstrip s)) = ink (chars s).
Proof.
  induction s as [|c s IH]; [reflexivity|]. cbn [lstrip].
  destruct (isspace c) eqn:E; [|reflexivity].
  rewrite IH. cbn [chars]. unfold ink. rewrite filter_cons.
  destruct (decide (isspace c = false)); [congruence | reflexivity].
Qed.

Lemma ink_rev l : ink (rev l) = rev (ink l).
Proof.
  induction l as [|c l IH]; [reflexivity|]. cbn.
  rewrite ink_app, IH. unfold ink. rewrite !filter_cons, filter_nil.
  destruct (decide (isspace c = false)); cbn; [reflexivity | rewrite app_nil_r; reflexivity].
Qed.

Lemma ink_strip s : ink (chars (strip s)) = ink (chars s).
Proof.
  unfold strip, rstrip. rewrite chars_rev, ink_rev, ink_lstrip, chars_rev, ink_rev.
  rewrite rev_involutive. apply ink_lstrip.
Qed.

Lemma chars_empty s : chars s = [] -> s = "".
Proof. destruct s; [reflexivity | discriminate]. Qed.


Lemma all_chars_snoc chunks c : all_chars (chunks ++ [c]) = all_chars chunks ++ chars c.
Proof.
  unfold all_chars. rewrite map_app, concat_app. cbn. rewrite app_nil_r. reflexivity.
Qed.

Lemma chunk_loop_covers text max_chars fuel current_pos chunks out :
  1 <= max_chars -> 0 <= current_pos ->
  ink (all_chars chunks) = ink (take (Z.to_nat current_pos) (chars text)) ->
  chunk_loop fuel text max_chars current_pos chunks = Returned out ->
  ink (all_chars out) = ink (chars text).
Proof.
  intros Hmax. revert current_pos chunks.
  induction fuel as [|fuel IH]; intros current_pos chunks Hpos Hinv; cbn [chunk_loop];
    destruct (Z.ltb_spec current_pos (len text)); try discriminate.
  - intros [= <-]. rewrite Hinv. rewrite take_ge; [reflexivity|].
    rewrite chars_length. unfold len in *. lia.
  - pose proof (step_range text max_chars current_pos Hmax ltac:(lia)) as Hs.
    assert (Hchunk : ink (match snd (step text max_chars current_pos) with
                          | Some c => chars c | None => [] end)
                     = ink (take (Z.to_nat (fst (step text max_chars current_pos) - current_pos))
                              (drop (Z.to_nat current_pos) (chars text)))).
    { unfold step in *. cbn [fst snd] in *.
      set (e := if (current_pos + max_chars) `min` len text <? len text
                then find_break text max_chars current_pos ((current_pos + max_chars) `min` len text)
                else (current_pos + max_chars) `min` len text) in *.
      rewrite <- chars_str_slice by lia. rewrite <- ink_strip.
      destruct (String.eqb_spec (strip (str_slice text current_pos e)) "") as [-> |]; reflexivity. }
    destruct (step text max_chars current_pos) as [e c]. cbn [fst snd] in *.
    destruct Hs as (He & _ & _).
    apply IH; [lia|].
    assert (Htake : take (Z.to_nat e) (chars text)
                    = take (Z.to_nat current_pos) (chars text)
                      ++ take (Z.to_nat (e - current_pos))
                           (drop (Z.to_nat current_pos) (chars text))).
    { replace (Z.to_nat e) with (Z.to_nat current_pos + Z.to_nat (e - current_pos))%nat by lia.
      rewrite <- take_take_drop. reflexivity. }
    rewrite Htake, ink_app, <- Hinv, <- Hchunk.
    destruct c as [c|].
    + rewrite all_chars_snoc, ink_app. reflexivity.
    + cbn. rewrite app_nil_r. reflexivity.
  - intros [= <-]. rewrite Hinv. rewrite take_ge; [reflexivity|].
    rewrite chars_length. unfold len in *. lia.
Qed.

(** X11. For a positive [max_chars] and a longer text, the chunks
    [simple_chunk_text] returns hold, in order, exactly the characters of
    the text that are no white space: the cuts drop white space only and
    repeat nothing. *)
Theorem chunks_cover_text fuel text max_chars chunks :
  1 <= max_chars -> max_chars < len text ->
  simple_chunk_text fuel text max_chars = Returned chunks ->
  ink (all_chars chunks) = ink (chars text).
Proof.
  intros Hmax Hlong. unfold simple_chunk_text.
  destruct (Z.leb_spec (len text) max_chars); [lia|].
  apply chunk_loop_covers; [assumption | lia | reflexivity].
Qed.

Lemma chunks_cover_text_witness :
  ink (all_chars ["ab"; "cd"]) = ink (chars "ab cd").
Proof.
  apply (chunks_cover_text 5 "ab cd" 3); [lia | reflexivity | reflexivity].
Defined.


Lemma simple_chunk_text_returns_bounded_witness :
  exists chunks,
    simple_chunk_text (Z.to_nat (len "ab cd")) "ab cd" 3 = Returned chunks
    /\ Forall (fun c => 1 <= len c <= 3 + 1) chunks.
Proof.
  exact (simple_chunk_text_returns_bounded "ab cd" 3 ltac:(lia) ltac:(reflexivity)).
Defined.

End SegmenterCoverage.

(** ** Validator: what is accepted and what is raised *)

Module ValidatorCoverage.

Import Py Validators ValidatorFacts.

Lemma raise_if_ok cond e : raise_if cond e = Ok tt <-> cond = false.
Proof. unfold raise_if. destruct cond; split; congruence. Qed.

(** The validator returns its argument, for the schedule type [none],
    or raises [InvalidScheduleDataException]. *)
Lemma validate_outcome (tzs : gset string) (ud : gmap string val) :
  (get ud "schedule_type" = Str "none" /\ validate_schedule_data tzs ud = Ok ud)
  \/ exists msg, validate_schedule_data tzs ud = Raise (InvalidScheduleDataException msg).
Proof.
  unfold validate_schedule_data.
  destruct (validate_body tzs ud) as [ud'|e] eqn:E; cbn [try_except].
  - apply validate_body_ok in E as [Hnone ->]. left. split; [|reflexivity].
    unfold eq_str in Hnone. destruct (get ud "schedule_type"); try discriminate.
    apply String.eqb_eq in Hnone. congruence.
  - right. eauto.
Qed.

(** X12. [validate_schedule_data] returns its argument exactly when
    the request has a [user_id], a positive integer [total_chunks] and the
    schedule type [none]; whatever it returns is the argument unchanged,
    and whatever it raises is an [InvalidScheduleDataException]. *)
Theorem validate_schedule_data_accepts (tzs : gset string) (ud : gmap string val) :
  (validate_schedule_data tzs ud = Ok ud
   <-> truthy (get ud "user_id") = true
       /\ (exists n, as_int (get ud "total_chunks") = Some n /\ 0 < n)
       /\ get ud "schedule_type" = Str "none")
  /\ (forall ud', validate_schedule_data tzs ud = Ok ud' -> ud' = ud)
  /\ (forall e, validate_schedule_data tzs ud = Raise e ->
                exists msg, e = InvalidScheduleDataException msg).
Proof.
  assert (Hok : forall ud', validate_schedule_data tzs ud = Ok ud' ->
                            validate_body tzs ud = Ok ud').
  { intros ud'. unfold validate_schedule_data.
    destruct (validate_body tzs ud); cbn; congruence. }
  split; [split|split].
  - intros H. apply Hok in H. pose proof (validate_body_ok _ _ _ H) as [Hnone _].
    revert H. unfold validate_body.
    destruct (raise_if _ _) as [[]|] eqn:E1; cbn [Py.bind]; [|discriminate].
    destruct (raise_if _ _) as [[]|] eqn:E2 in |- *; cbn [Py.bind]; [|discriminate].
    intros _. apply raise_if_ok in E1, E2.
    split; [destruct (truthy _); [reflexivity | discriminate]|].
    split.
    + destruct (as_int (get ud "total_chunks")) as [n|]; [|discriminate].
      exists n. split; [reflexivity|]. apply Z.leb_gt. exact E2.
    + unfold eq_str in Hnone. destruct (get ud "schedule_type"); try discriminate.
      apply String.eqb_eq in Hnone. congruence.
  - intros (Hid & (n & Hn & Hpos) & Hty).
    unfold validate_schedule_data, validate_body.
    rewrite Hid, Hn, Hty. cbn [negb raise_if Py.bind].
    destruct (Z.leb_spec n 0); [lia|]. reflexivity.
  - intros ud' H. apply Hok in H. apply validate_body_ok in H. tauto.
  - intros e. unfold validate_schedule_data.
    destruct (validate_body tzs ud); cbn; [discriminate|]. intros [= <-]. eauto.
Qed.

Lemma in_range_raise v hi e :
  in_range v hi = Raise e -> as_int v = None /\ exists m, e = TypeError m.
Proof.
  unfold in_range. destruct (as_int v); [discriminate|]. intros [= <-]. eauto.
Qed.

(** [_validate_schedule_time] raises
    [InvalidScheduleDataException], except for a dictionary whose hour or
    minute is no number, where the [TypeError] of the comparison escapes
    its handler. *)
Lemma schedule_time_errors (v : val) (e : exn) :
  _validate_schedule_time v = Raise e ->
  (exists msg, e = InvalidScheduleDataException msg)
  \/ (exists d msg, v = Dict d /\ e = TypeError msg
      /\ (as_int (get_or d "hour" (Int 9)) = None
          \/ as_int (get_or d "minute" (Int 0)) = None)).
Proof.
  unfold _validate_schedule_time, try_except.
  destruct v as [|b|z|s|l|d]; try (intros [= <-]; left; eauto).
  - destruct (parse_hour_minute s) as [[hour minute]|e0] eqn:Hp; cbn [Py.bind].
    + unfold raise_if. destruct (_ || _); [|discriminate]. intros [= <-]. left. eauto.
    + revert Hp. unfold parse_hour_minute.
      destruct (split ":" s) as [|h [|m [|x xs]]];
        try (intros [= <-]; intros [= <-]; left; eauto).
      destruct (int_of_str h), (int_of_str m); try discriminate;
        intros [= <-]; intros [= <-]; left; eauto.
  - destruct (in_range (get_or d "hour" (Int 9)) 23) as [hour_ok|e0] eqn:Hh; cbn [Py.bind].
    + destruct hour_ok; cbn [negb].
      * destruct (in_range (get_or d "minute" (Int 0)) 59) as [minute_ok|e1] eqn:Hm;
          cbn [Py.bind].
        -- unfold raise_if. destruct (negb minute_ok); [|discriminate].
           intros [= <-]. left. eauto.
        -- apply in_range_raise in Hm. destruct Hm as [Hm [msg ->]].
           intros [= <-]. right. eauto 10.
      * cbn [Py.bind raise_if]. intros [= <-]. left. eauto.
    + apply in_range_raise in Hh. destruct Hh as [Hh [msg ->]].
      intros [= <-]. right. eauto 10.
Qed.

Lemma schedule_time_errors_witness :
  exists e, _validate_schedule_time (Dict {[ "hour" := Str "nine" ]}) = Raise e
            /\ exists msg, e = TypeError msg.
Proof.
  exists (TypeError "'<=' not supported between instances").
  assert (Hraise : _validate_schedule_time (Dict {[ "hour" := Str "nine" ]})
                   = Raise (TypeError "'<=' not supported between instances"))
    by (vm_compute; reflexivity).
  split; [exact Hraise|].
  destruct (schedule_time_errors _ _ Hraise)
    as [[msg H] | (d & msg & _ & H & _)]; [discriminate H | eauto].
Defined.

End ValidatorCoverage.

(** ** Setting up a schedule *)

Module SetupCoverage.

Import Py Sys Scheduler Validators ValidatorFacts Setup.
Local Open Scope sys_scope.

Lemma setup_none (tzs : gset string) (_create_schedule : gmap string val -> T bool)
      (user_data : gmap string val) env w :
  validate_schedule_data tzs user_data = Ok user_data ->
  get user_data "schedule_type" = Str "none" ->
  setup_user_schedule tzs _create_schedule user_data env w
  = (Ok {| success := true; message := "No scheduling required";
           sr_schedule_type := None; sr_remaining_chunks := None |}, w).
Proof.
  intros E Hnone. unfold setup_user_schedule, try_catch, setup_body.
  unfold bind at 1. unfold lift at 1. rewrite E.
  unfold bind at 1. unfold lift at 1.
  change (Models.ScheduleType_attr "NONE") with (@Ok string "none").
  rewrite Hnone. reflexivity.
Qed.

Lemma setup_invalid (tzs : gset string) (_create_schedule : gmap string val -> T bool)
      (user_data : gmap string val) env w msg :
  validate_schedule_data tzs user_data = Raise (InvalidScheduleDataException msg) ->
  setup_user_schedule tzs _create_schedule user_data env w
  = (Ok {| success := false; message := "Invalid schedule data: " +:+ msg;
           sr_schedule_type := None; sr_remaining_chunks := None |}, w).
Proof.
  intros E. unfold setup_user_schedule, try_catch, setup_body.
  unfold bind at 1. unfold lift at 1. rewrite E. reflexivity.
Qed.

(** X13. [setup_user_schedule] never reaches [_create_schedule]:
    whatever that method does, the call leaves the state as it was and
    answers either "No scheduling required", for the schedule type
    [none], or a failure with the message of the validator. *)
Theorem setup_never_creates_a_schedule
        (tzs : gset string) (_create_schedule : gmap string val -> T bool)
        (user_data : gmap string val) env w :
  let r := setup_user_schedule tzs _create_schedule user_data env w in
  snd r = w
  /\ ((get user_data "schedule_type" = Str "none"
       /\ fst r = Ok {| success := true; message := "No scheduling required";
                        sr_schedule_type := None; sr_remaining_chunks := None |})
      \/ (exists msg,
            validate_schedule_data tzs user_data = Raise (InvalidScheduleDataException msg)
            /\ fst r = Ok {| success := false;
                             message := "Invalid schedule data: " +:+ msg;
                             sr_schedule_type := None; sr_remaining_chunks := None |})).
Proof.
  cbn zeta.
  destruct (ValidatorCoverage.validate_outcome tzs user_data) as [[Hnone E] | [msg E]].
  - rewrite (setup_none _ _ _ _ _ E Hnone). cbn [fst snd]. auto.
  - rewrite (setup_invalid _ _ _ _ _ _ E). cbn [fst snd]. split; [reflexivity|]. eauto.
Qed.

End SetupCoverage.

(** ** Scheduler: progress, the cancel path and the sweep *)

Module SchedulerCoverage.

Import Py Sys Scheduler SchedulerFacts Sweep Scenarios.
Local Open Scope sys_scope.

(** *** Progress *)

(** X14. When the store takes the write, [update_user_progress]
    returns [True] and [get_user_processing_state], when the store
    answers its read, then returns the index and the count just written;
    when the store does not take the write, [update_user_progress]
    returns [False] and changes nothing. *)
Theorem progress_round_trip
        user_id new_index processed_count task_id start_index env env' w :
  let r := update_user_progress user_id new_index processed_count task_id env w in
  (redis_up env (Access Manager SETEX (progress_key user_id)) = true
   /\ fst r = Ok true
   /\ (redis_up env' (Access Manager GET (progress_key user_id)) = true ->
       get_user_processing_state user_id start_index env' (snd r)
       = (Ok (new_index, processed_count), snd r)))
  \/ (redis_up env (Access Manager SETEX (progress_key user_id)) = false
      /\ r = (Ok false, w)).
Proof.
  cbn zeta.
  destruct (redis_up env (Access Manager SETEX (progress_key user_id))) eqn:Hup.
  - left. split; [reflexivity|].
    unfold update_user_progress, try_catch, bind, ask.
    rewrite (setex_json_ok _ _ _ _ Hup). cbn [fst snd ret].
    split; [reflexivity|]. intros Hget.
    unfold get_user_processing_state, try_catch, bind.
    rewrite (get_json_ok _ _ _ Hget). cbn [set_redis redis].
    rewrite lookup_insert_eq. reflexivity.
  - right. split; [reflexivity|].
    unfold update_user_progress, try_catch, bind, ask.
    destruct (setex_json_fails (progress_key user_id)
                (UserProgress {| current_index := new_index;
                                 processed_count := processed_count;
                                 last_processed_at := now_iso env;
                                 last_task_id := task_id;
                                 p_completed_at := None |}) env w Hup) as [msg ->].
    reflexivity.
Qed.

(** X15. [get_user_processing_state] never raises and never writes.
    When the store answers and the progress key holds a dictionary, it
    returns the entries [current_index] and [processed_count] of that
    dictionary, whichever document it is: those of a progress document,
    those of a document of [user_chunks], and [start_index] and [0] for
    schedule metadata, which has neither. In every other case (the store
    does not answer, the key is absent, or it holds a list or an
    integer) it returns [(start_index, 0)]. *)
Theorem processing_state_defaults user_id start_index env w :
  get_user_processing_state user_id start_index env w
  = (Ok (if redis_up env (Access Manager GET (progress_key user_id))
         then match redis w !! progress_key user_id with
              | Some (UserProgress p) => (current_index p, processed_count p)
              | Some (UserChunks d) => (ud_current_index d, ud_processed_count d)
              | Some (UserSchedule _) | Some (UserInsights _) | Some Marker | None =>
                  (start_index, 0)
              end
         else (start_index, 0)),
     w).
Proof.
  unfold get_user_processing_state, try_catch, bind.
  destruct (redis_up env (Access Manager GET (progress_key user_id))) eqn:Hup.
  - rewrite (get_json_ok _ _ _ Hup).
    destruct (redis w !! progress_key user_id) as [[d|[|i l]|m|p|]|]; reflexivity.
  - destruct (get_json_fails (progress_key user_id) env w Hup) as [e ->].
    reflexivity.
Qed.

(** *** The cancel path *)

(** X16. For a subject with schedule metadata in a reachable store,
    [cleanup_user_schedule] returns [True], stores the metadata with
    status [completed] and the time of the call, deletes the progress,
    removes the job named in the metadata from the beat schedule, and
    leaves queue and outbox alone. *)
Theorem cleanup_completes_schedule user_id env w m :
  reachable env ->
  redis w !! schedule_key user_id = Some (UserSchedule m) ->
  let w' := snd (cleanup_user_schedule user_id env w) in
  fst (cleanup_user_schedule user_id env w) = Ok true
  /\ redis w' !! schedule_key user_id = Some (UserSchedule (complete m (now_iso env)))
  /\ redis w' !! progress_key user_id = None
  /\ beat_schedule w'
     = (if String.eqb (sm_task_name m) "" then beat_schedule w
        else delete (sm_task_name m) (beat_schedule w))
  /\ queue w' = queue w /\ outbox w' = outbox w /\ next_task_id w' = next_task_id w.
Proof.
  intros Hup Hm. cbn zeta.
  assert (Hkeys : progress_key user_id <> schedule_key user_id).
  { unfold progress_key, schedule_key. cbn. discriminate. }
  rewrite (cleanup_cancels user_id env w (Some m) Hup Hm).
  cbn [fst snd redis beat_schedule queue outbox next_task_id].
  rewrite lookup_delete_ne by congruence. rewrite lookup_insert_eq.
  rewrite lookup_delete_eq. repeat split; reflexivity.
Qed.

Lemma cleanup_completes_schedule_witness :
  fst (cleanup_user_schedule "u1" all_up scheduled) = Ok true
  /\ beat_schedule (snd (cleanup_user_schedule "u1" all_up scheduled))
     = delete "process_user_chunks_u1" (beat_schedule scheduled).
Proof.
  destruct (cleanup_completes_schedule "u1" all_up scheduled daily_schedule
              all_up_reachable eq_refl) as (H1 & _ & _ & H2 & _).
  split; [exact H1 | exact H2].
Defined.

Lemma cleanup_frame user_id env w :
  let w' := snd (cleanup_user_schedule user_id env w) in
  (forall key, key <> schedule_key user_id -> key <> progress_key user_id ->
               redis w' !! key = redis w !! key)
  /\ queue w' = queue w /\ outbox w' = outbox w /\ next_task_id w' = next_task_id w.
Proof.
  cbn zeta.
  unfold cleanup_user_schedule, try_catch, bind, get_json, setex_json, delete_key,
    as_redis_exception, try_catch, client_get, client_setex, client_delete,
    remove_beat_entry, ask.
  destruct (redis_up env (Access Manager GET (schedule_key user_id)));
    [|repeat split; reflexivity].
  destruct (redis w !! schedule_key user_id) as [[d|[|i l]|m|p|]|]; cbn;
    repeat (match goal with
            | |- context [if ?b then _ else _] => destruct b; cbn
            end);
    (split; [|repeat split; reflexivity]); intros key H1 H2;
    rewrite ?lookup_delete_ne by congruence;
    rewrite ?lookup_insert_ne by congruence; reflexivity.
Qed.

(** X17. Whatever the state of the store, [cleanup_user_schedule]
    leaves every key other than the schedule and progress keys of its
    subject as it was, queues nothing and sends nothing. *)
Theorem cleanup_touches_only_own_keys user_id env w key :
  key <> schedule_key user_id -> key <> progress_key user_id ->
  let w' := snd (cleanup_user_schedule user_id env w) in
  redis w' !! key = redis w !! key
  /\ queue w' = queue w /\ outbox w' = outbox w.
Proof.
  intros H1 H2. cbn zeta.
  destruct (cleanup_frame user_id env w) as (Hk & Hq & Ho & _).
  split; [apply Hk; assumption | split; assumption].
Qed.

Lemma cleanup_touches_only_own_keys_witness :
  redis (snd (cleanup_user_schedule "u1" all_up scheduled)) !! "user_chunks:u1"
  = redis scheduled !! "user_chunks:u1".
Proof.
  apply (cleanup_touches_only_own_keys "u1" all_up scheduled "user_chunks:u1");
    discriminate.
Defined.

(** *** The maintenance sweep *)

Lemma foldr_delete_lookup (ks : list string) (m : gmap string value) (k : string) :
  foldr delete m ks !! k = if bool_decide (k ∈ ks) then None else m !! k.
Proof.
  induction ks as [|k' ks IH]; cbn [foldr].
  - rewrite bool_decide_eq_false_2 by apply not_elem_of_nil. reflexivity.
  - destruct (decide (k = k')) as [->|Hne].
    + rewrite lookup_delete_eq. rewrite bool_decide_eq_true_2 by left. reflexivity.
    + rewrite lookup_delete_ne by congruence. rewrite IH.
      destruct (decide (k ∈ ks)) as [Hin|Hnin].
      * rewrite !bool_decide_eq_true_2; [reflexivity | right; exact Hin | exact Hin].
      * rewrite !bool_decide_eq_false_2; [reflexivity | | exact Hnin].
        intros H. apply elem_of_cons in H as [H|H]; contradiction.
Qed.

Lemma elem_of_keys_matching p (r : gmap string value) k :
  k ∈ keys_matching p r <-> String.prefix p k = true /\ is_Some (r !! k).
Proof.
  unfold keys_matching. rewrite list_elem_of_filter. rewrite list_elem_of_fmap.
  split.
  - intros [Hp [[k' v] [-> H]]]. apply elem_of_map_to_list in H. split; [exact Hp | eauto].
  - intros [Hp [v H]]. split; [exact Hp|]. exists (k, v). split; [reflexivity|].
    apply elem_of_map_to_list. exact H.
Qed.

Lemma NoDup_keys_matching p (r : gmap string value) : NoDup (keys_matching p r).
Proof. unfold keys_matching. apply NoDup_filter. apply NoDup_fst_map_to_list. Qed.

Lemma cleanup_expired_keys_up p env w :
  reachable env ->
  cleanup_expired_keys p env w
  = (Ok (Z.of_nat (length (keys_matching p (redis w)))),
     set_redis w (foldr delete (redis w) (keys_matching p (redis w)))).
Proof.
  intros Hup. unfold cleanup_expired_keys. rewrite !Hup.
  destruct (keys_matching p (redis w)) eqn:E; [|reflexivity].
  cbn. destruct w; reflexivity.
Qed.

Lemma prefixes_apart k :
  String.prefix "metrics:" k = true -> String.prefix "user_progress:" k = false.
Proof.
  destruct k as [|c k]; cbn [String.prefix]; [discriminate|].
  destruct (ascii_dec "m" c) as [<-|]; [|discriminate]. intros _.
  destruct (ascii_dec "u" "m"); [discriminate | reflexivity].
Qed.

Lemma prefix_append p s : String.prefix p (p +:+ s) = true.
Proof.
  induction p as [|c p IH]; simpl; [destruct s; reflexivity|].
  destruct (ascii_dec c c); [exact IH | congruence].
Qed.

Lemma sweep_outcome env w :
  reachable env ->
  let w' := snd (cleanup_expired_data env w) in
  fst (cleanup_expired_data env w)
  = Ok (Cleaned (Z.of_nat (length (keys_matching "metrics:" (redis w))))
                (Z.of_nat (length (keys_matching "user_progress:" (redis w)))))
  /\ (forall k, redis w' !! k
                = if String.prefix "metrics:" k || String.prefix "user_progress:" k
                  then None else redis w !! k)
  /\ beat_schedule w' = beat_schedule w /\ queue w' = queue w /\ outbox w' = outbox w.
Proof.
  intros Hup. cbn zeta.
  unfold cleanup_expired_data, try_catch, bind.
  rewrite (cleanup_expired_keys_up _ _ _ Hup).
  rewrite (cleanup_expired_keys_up _ _ _ Hup).
  cbn [ret fst snd set_redis redis beat_schedule queue outbox].
  set (r := redis w).
  set (r1 := foldr delete r (keys_matching "metrics:" r)).
  assert (Hr1 : forall k, r1 !! k = if String.prefix "metrics:" k then None else r !! k).
  { intros k. subst r1. rewrite foldr_delete_lookup.
    destruct (String.prefix "metrics:" k) eqn:Ep.
    - destruct (r !! k) eqn:Ek.
      + rewrite bool_decide_eq_true_2; [reflexivity|].
        apply elem_of_keys_matching. eauto.
      + destruct (bool_decide _); reflexivity.
    - rewrite bool_decide_eq_false_2; [reflexivity|].
      rewrite elem_of_keys_matching. intros [H _]. congruence. }
  split; [|split; [|auto]].
  - do 3 f_equal. apply Permutation_length. apply NoDup_Permutation.
    + apply NoDup_keys_matching.
    + apply NoDup_keys_matching.
    + intros k. rewrite !elem_of_keys_matching. rewrite Hr1.
      destruct (String.prefix "metrics:" k) eqn:Ep; [|tauto].
      rewrite (prefixes_apart k Ep). split; intros [H _]; discriminate.
  - intros k. rewrite foldr_delete_lookup.
    destruct (String.prefix "user_progress:" k) eqn:Eu.
    + rewrite orb_true_r. destruct (r1 !! k) eqn:Ek.
      * rewrite bool_decide_eq_true_2; [reflexivity|].
        apply elem_of_keys_matching. eauto.
      * destruct (bool_decide _); reflexivity.
    + rewrite orb_false_r. rewrite bool_decide_eq_false_2.
      * apply Hr1.
      * rewrite elem_of_keys_matching. intros [H _]. congruence.
Qed.

(** X18. With the store reachable, [cleanup_expired_data] deletes every
    key that starts with [metrics:] or [user_progress:], whatever its
    age, reports how many of each there were, and leaves every other key,
    the beat schedule, the queue and the outbox alone. *)
Theorem sweep_deletes_by_prefix env w :
  reachable env ->
  let w' := snd (cleanup_expired_data env w) in
  fst (cleanup_expired_data env w)
  = Ok (Cleaned (Z.of_nat (length (keys_matching "metrics:" (redis w))))
                (Z.of_nat (length (keys_matching "user_progress:" (redis w)))))
  /\ (forall k, redis w' !! k
                = if String.prefix "metrics:" k || String.prefix "user_progress:" k
                  then None else redis w !! k)
  /\ beat_schedule w' = beat_schedule w /\ queue w' = queue w /\ outbox w' = outbox w.
Proof. exact (sweep_outcome env w). Qed.

Lemma sweep_deletes_by_prefix_witness :
  redis (snd (cleanup_expired_data all_up scheduled)) !! "user_progress:u1" = None.
Proof.
  destruct (sweep_deletes_by_prefix all_up scheduled all_up_reachable) as (_ & H & _).
  rewrite H. reflexivity.
Defined.

(** X19. After [cleanup_expired_data] the progress of every subject is
    gone: [get_user_processing_state] answers [(start_index, 0)]. *)
Theorem sweep_resets_progress user_id start_index env w :
  reachable env ->
  let w' := snd (cleanup_expired_data env w) in
  get_user_processing_state user_id start_index env w' = (Ok (start_index, 0), w').
Proof.
  intros Hup. cbn zeta.
  destruct (sweep_outcome env w Hup) as (_ & Hk & _).
  unfold get_user_processing_state, try_catch, bind.
  rewrite (get_json_up _ _ _ Hup). rewrite Hk.
  unfold progress_key. rewrite prefix_append. rewrite orb_true_r. reflexivity.
Qed.

Lemma sweep_resets_progress_witness :
  fst (get_user_processing_state "u1" 1 all_up (snd (cleanup_expired_data all_up scheduled)))
  = Ok (1, 0).
Proof.
  rewrite (sweep_resets_progress "u1" 1 all_up scheduled all_up_reachable). reflexivity.
Defined.

(** With the store unreachable the sweep reports that nothing was
    cleaned and does not fail. *)
Lemma sweep_without_store env w :
  unreachable env -> cleanup_expired_data env w = (Ok (Cleaned 0 0), w).
Proof.
  intros Hdown. unfold cleanup_expired_data, try_catch, bind, cleanup_expired_keys.
  rewrite !Hdown. reflexivity.
Qed.

End SchedulerCoverage.

(** ** Tasks: delivery, notifications and merging *)

Module TasksCoverage.

Import Py Sys Scheduler Tasks SchedulerFacts TasksFacts Scenarios.
Local Open Scope sys_scope.

(** *** send_email_chunk *)

Lemma chunk_at_mod (chunks : list Models.Chunk) (chunk_index : Z) c env w :
  let n := Z.of_nat (length chunks) in
  - n <= chunk_index < n ->
  chunks !! Z.to_nat (chunk_index mod n) = Some c ->
  chunk_at chunks chunk_index env w = (Ok c, w).
Proof.
  intros n Hr Hc. unfold chunk_at. fold n.
  destruct (Z.leb_spec n chunk_index); [lia|].
  destruct (Z.ltb_spec chunk_index 0).
  - assert (E : chunk_index mod n = chunk_index + n).
    { symmetry. apply (Z.mod_unique chunk_index n (-1)); lia. }
    rewrite E in Hc. destruct (Z.ltb_spec (chunk_index + n) 0); [lia|].
    rewrite Hc. reflexivity.
  - rewrite Z.mod_small in Hc by lia.
    destruct (Z.ltb_spec chunk_index 0); [lia|]. rewrite Hc. reflexivity.
Qed.

(** X20. With store and mail server reachable, no marker, an index
    [-n <= chunk_index < n] into the [n] chunks of the subject and an
    address on file, [send_email_chunk] hands over one message, to that
    address, with the text of the chunk at [chunk_index] (counted from the
    end when negative) and the insight text stored for [chunk_index],
    writes the marker and returns [sent]. *)
Theorem send_email_chunk_delivers user_id chunk_index parent env w d c stored :
  let n := Z.of_nat (length (ud_chunks d)) in
  reachable env -> smtp_up env = true ->
  raw_truthy (redis w !! marker_key user_id chunk_index) = false ->
  redis w !! chunks_key user_id = Some (UserChunks d) ->
  redis w !! insights_key user_id = UserInsights <$> stored ->
  - n <= chunk_index < n ->
  ud_chunks d !! Z.to_nat (chunk_index mod n) = Some c ->
  ud_email d <> "" ->
  send_email_chunk user_id chunk_index parent env w
  = (Ok Sent,
     with_delivery w (marker_key user_id chunk_index)
       (compose_email (EMAIL_FROM env) (ud_email d) (Models.text c)
          (insight_text_of (default [] stored) chunk_index))).
Proof.
  intros n Hup Hsmtp Hmark Hd Hi Hr Hc Hmail.
  unfold send_email_chunk. unfold bind at 1.
  rewrite (redis_get_up _ _ _ Hup), Hmark. unfold try_catch, send_body.
  unfold bind at 1. rewrite (redis_get_up _ _ _ Hup), Hd.
  unfold bind at 1. cbn [get_chunks ret].
  unfold bind at 1. rewrite (chunk_at_mod _ _ c env w Hr Hc).
  unfold bind at 1. rewrite (redis_get_up _ _ _ Hup), Hi.
  unfold bind at 1.
  assert (Hl : as_insights (UserInsights <$> stored) env w = (Ok (default [] stored), w))
    by (destruct stored; reflexivity).
  rewrite Hl.
  unfold bind at 1. cbn [get_email ret default]. unfold id.
  unfold bind at 1.
  destruct (String.eqb_spec (ud_email d) ""); [contradiction|]. cbn [ret].
  unfold bind at 1. unfold ask at 1.
  unfold bind at 1. unfold smtp_send at 1. rewrite Hsmtp.
  unfold bind at 1. unfold redis_setex at 1, client_setex at 1. rewrite Hup.
  reflexivity.
Qed.

Lemma send_email_chunk_delivers_witness :
  send_email_chunk "u1" 1 0 all_up before_firing
  = (Ok Sent,
     with_delivery before_firing (marker_key "u1" 1)
       (compose_email (EMAIL_FROM all_up) "u1@example.org" "two" "")).
Proof.
  apply (send_email_chunk_delivers "u1" 1 0 all_up before_firing three_chunks
           (chunk_of 1 "two") None);
    try exact all_up_reachable; try reflexivity; try (cbn; lia); try discriminate.
Defined.

(** X21. For an index at or past the number of chunks,
    [send_email_chunk] sends nothing, writes no marker and hands the task
    back for a retry with "chunk_index out of range". *)
Theorem send_email_chunk_out_of_range user_id chunk_index parent env w d :
  reachable env ->
  raw_truthy (redis w !! marker_key user_id chunk_index) = false ->
  redis w !! chunks_key user_id = Some (UserChunks d) ->
  Z.of_nat (length (ud_chunks d)) <= chunk_index ->
  send_email_chunk user_id chunk_index parent env w
  = (Raise (CeleryRetry "chunk_index out of range"), w).
Proof.
  intros Hup Hmark Hd Hr.
  unfold send_email_chunk. unfold bind at 1.
  rewrite (redis_get_up _ _ _ Hup), Hmark. unfold try_catch, send_body.
  unfold bind at 1. rewrite (redis_get_up _ _ _ Hup), Hd.
  unfold bind at 1. cbn [get_chunks ret].
  unfold bind at 1. unfold chunk_at.
  destruct (Z.leb_spec (Z.of_nat (length (ud_chunks d))) chunk_index); [|lia].
  reflexivity.
Qed.

Lemma send_email_chunk_out_of_range_witness :
  send_email_chunk "u1" 3 0 all_up before_firing
  = (Raise (CeleryRetry "chunk_index out of range"), before_firing).
Proof.
  apply (send_email_chunk_out_of_range "u1" 3 0 all_up before_firing three_chunks);
    first [exact all_up_reachable | reflexivity].
Defined.

(** *** generate_insights *)

Lemma enqueue_emails_queue userId task_id items env w :
  enqueue_emails userId task_id items env w
  = (Ok tt,
     {| redis := redis w; beat_schedule := beat_schedule w;
        queue := queue w
                 ++ imap (fun i item =>
                            ((next_task_id w + i)%nat,
                             SendEmailChunk userId (chunk_index item) task_id)) items;
        next_task_id := (next_task_id w + length items)%nat;
        outbox := outbox w |}).
Proof.
  revert w. induction items as [|item items IH]; intros w.
  - cbn. rewrite app_nil_r, Nat.add_0_r. destruct w; reflexivity.
  - cbn [enqueue_emails]. unfold bind at 1. unfold delay at 1.
    rewrite IH. cbn [redis beat_schedule queue next_task_id outbox length imap].
    rewrite <- app_assoc. cbn [app]. rewrite Nat.add_0_r.
    f_equal. f_equal; [|lia].
    f_equal. f_equal. apply imap_ext. intros i x _. cbn. f_equal. lia.
Qed.

Lemma generate_insights_ok task_id userId results env w :
  redis_up env (Access Direct GET (insights_key userId)) = true ->
  redis_up env (Access Direct SETEX (insights_key userId)) = true ->
  let final := merge_results (existing_insights (redis w !! insights_key userId)) results in
  generate_insights task_id userId results env w
  = (Ok {| processed := Z.of_nat (length results);
           total_stored := Z.of_nat (length final) |},
     {| redis := <[insights_key userId := UserInsights final]> (redis w);
        beat_schedule := beat_schedule w;
        queue := queue w
                 ++ imap (fun i item =>
                            ((next_task_id w + i)%nat,
                             SendEmailChunk userId (chunk_index item) task_id)) results;
        next_task_id := (next_task_id w + length results)%nat;
        outbox := outbox w |}).
Proof.
  intros Hget Hset. cbn zeta. unfold generate_insights.
  unfold bind at 1. rewrite (redis_get_ok _ _ _ Hget).
  unfold bind at 1. rewrite (redis_setex_ok _ _ _ _ Hset).
  unfold bind at 1. rewrite enqueue_emails_queue. reflexivity.
Qed.

Lemma generate_insights_up task_id userId results env w :
  reachable env ->
  let final := merge_results (existing_insights (redis w !! insights_key userId)) results in
  generate_insights task_id userId results env w
  = (Ok {| processed := Z.of_nat (length results);
           total_stored := Z.of_nat (length final) |},
     {| redis := <[insights_key userId := UserInsights final]> (redis w);
        beat_schedule := beat_schedule w;
        queue := queue w
                 ++ imap (fun i item =>
                            ((next_task_id w + i)%nat,
                             SendEmailChunk userId (chunk_index item) task_id)) results;
        next_task_id := (next_task_id w + length results)%nat;
        outbox := outbox w |}).
Proof. intros Hup. apply generate_insights_ok; apply Hup. Qed.

Lemma generate_insights_fails task_id userId results env w :
  redis_up env (Access Direct GET (insights_key userId)) = false
  \/ redis_up env (Access Direct SETEX (insights_key userId)) = false ->
  generate_insights task_id userId results env w = (Raise (ConnectionError "redis"), w).
Proof.
  intros Hdown. unfold generate_insights.
  unfold bind at 1.
  destruct (redis_up env (Access Direct GET (insights_key userId))) eqn:Hget.
  - destruct Hdown as [Hdown|Hdown]; [discriminate|].
    rewrite (redis_get_ok _ _ _ Hget).
    unfold bind at 1. rewrite (redis_setex_fails _ _ _ _ Hdown). reflexivity.
  - rewrite (redis_get_fails _ _ _ Hget). reflexivity.
Qed.

(** X22. When the store answers the read and takes the write,
    [generate_insights] queues one [send_email_chunk] task per result of
    the call, in the order of the results, each with the chunk index of
    its result and the id of the call, whether the result is an insight
    or an error; it reports the number of results and the length of the
    stored list. When the read or the write fails it raises and changes
    nothing. *)
Theorem generate_insights_queues_emails task_id userId results env w :
  let r := generate_insights task_id userId results env w in
  let final := merge_results (existing_insights (redis w !! insights_key userId)) results in
  (redis_up env (Access Direct GET (insights_key userId)) = true
   /\ redis_up env (Access Direct SETEX (insights_key userId)) = true
   /\ fst r = Ok {| processed := Z.of_nat (length results);
                    total_stored := Z.of_nat (length final) |}
   /\ queue (snd r)
      = queue w ++ imap (fun i item =>
                           ((next_task_id w + i)%nat,
                            SendEmailChunk userId (chunk_index item) task_id)) results
   /\ redis (snd r) = <[insights_key userId := UserInsights final]> (redis w)
   /\ outbox (snd r) = outbox w)
  \/ ((redis_up env (Access Direct GET (insights_key userId)) = false
       \/ redis_up env (Access Direct SETEX (insights_key userId)) = false)
      /\ r = (Raise (ConnectionError "redis"), w)).
Proof.
  cbn zeta.
  destruct (redis_up env (Access Direct GET (insights_key userId))) eqn:Hget;
    [destruct (redis_up env (Access Direct SETEX (insights_key userId))) eqn:Hset|].
  - left. rewrite (generate_insights_ok _ _ _ _ _ Hget Hset). cbn. auto 7.
  - right. rewrite (generate_insights_fails task_id userId results env w) by auto. auto.
  - right. rewrite (generate_insights_fails task_id userId results env w) by auto. auto.
Qed.

(** *** Merging batch after batch *)

Lemma last_write_app rs1 rs2 k :
  last_write (rs1 ++ rs2) k
  = match last_write rs2 k with Some r => Some r | None => last_write rs1 k end.
Proof.
  unfold last_write. rewrite filter_app, last_app. reflexivity.
Qed.

Lemma last_write_merge existing results k :
  last_write (merge_results existing results) k = last_write (existing ++ results) k.
Proof.
  destruct (merge_results_spec existing results) as (Hnd & _ & Hin).
  cbn zeta in *.
  destruct (last_write (merge_results existing results) k) as [r|] eqn:E.
  - apply last_write_index in E as [Hk Hr]. apply Hin in Hr. congruence.
  - destruct (last_write (existing ++ results) k) as [r|] eqn:E'; [|reflexivity].
    exfalso. pose proof (last_write_index _ _ _ E') as [Hk _].
    assert (Hr : r ∈ merge_results existing results) by (apply Hin; congruence).
    unfold last_write in E.
    assert (Hf : r ∈ filter (fun r => chunk_index r = k) (merge_results existing results))
      by (apply list_elem_of_filter; auto).
    destruct (filter _ _) as [|x xs] eqn:Ef using rev_ind.
    + apply elem_of_nil in Hf. exact Hf.
    + rewrite last_snoc in E. discriminate.
Qed.

Lemma merge_results_ext e1 r1 e2 r2 :
  (forall k, last_write (e1 ++ r1) k = last_write (e2 ++ r2) k) ->
  merge_results e1 r1 = merge_results e2 r2.
Proof.
  intros H. unfold merge_results.
  fold (merged_map e1 r1). fold (merged_map e2 r2).
  assert (E : merged_map e1 r1 = merged_map e2 r2).
  { apply map_eq. intros k. rewrite !merged_map_lookup. apply H. }
  rewrite E. reflexivity.
Qed.

Lemma merge_results_app existing batch1 batch2 :
  merge_results (merge_results existing batch1) batch2
  = merge_results existing (batch1 ++ batch2).
Proof.
  apply merge_results_ext. intros k.
  rewrite app_assoc. rewrite !(last_write_app _ batch2).
  rewrite last_write_merge. reflexivity.
Qed.

(** X23. Merging a second batch into the merge of a first one gives
    the merge of both batches at once; merging a batch a second time, or
    merging nothing, changes nothing. *)
Theorem merge_results_batches existing batch1 batch2 :
  merge_results (merge_results existing batch1) batch2
  = merge_results existing (batch1 ++ batch2)
  /\ merge_results (merge_results existing batch1) batch1
     = merge_results existing batch1
  /\ merge_results (merge_results existing batch1) [] = merge_results existing batch1.
Proof.
  pose proof (merge_results_app existing batch1) as H.
  split; [apply H|]. split.
  - rewrite H. apply merge_results_ext. intros k.
    rewrite app_assoc. rewrite (last_write_app _ batch1).
    rewrite (last_write_app existing batch1).
    destruct (last_write batch1 k); reflexivity.
  - rewrite H. rewrite app_nil_r. reflexivity.
Qed.

(** Two calls of [generate_insights] store what one call with
    both batches stores. *)
Lemma generate_insights_twice t1 t2 userId batch1 batch2 env w :
  reachable env ->
  let w1 := snd (generate_insights t1 userId batch1 env w) in
  let w2 := snd (generate_insights t2 userId batch2 env w1) in
  redis w2 !! insights_key userId
  = Some (UserInsights
            (merge_results (existing_insights (redis w !! insights_key userId))
               (batch1 ++ batch2))).
Proof.
  intros Hup. cbn zeta.
  rewrite (generate_insights_up t1 _ _ _ _ Hup). cbn [snd].
  rewrite (generate_insights_up t2 _ _ _ _ Hup). cbn [snd redis].
  rewrite lookup_insert_eq. rewrite lookup_insert_eq. cbn [existing_insights].
  rewrite merge_results_app. reflexivity.
Qed.

Lemma generate_insights_twice_witness :
  redis (snd (generate_insights 8 "u1" [record_for 1 "b2"] all_up
                (snd (generate_insights 7 "u1" new_results all_up stored_two))))
    !! insights_key "u1"
  = Some (UserInsights
            (merge_results (existing_insights (redis stored_two !! insights_key "u1"))
               (new_results ++ [record_for 1 "b2"]))).
Proof.
  exact (generate_insights_twice 7 8 "u1" new_results [record_for 1 "b2"] all_up
           stored_two all_up_reachable).
Defined.

(** *** Firings that find no chunk data *)

(** X24. A firing whose read of the chunk data through the scheduler
    is not answered, or that finds no chunk list that is not empty for
    its subject, runs the cancel path, answers [user_data_not_found],
    queues nothing and sends nothing. *)
Theorem firing_without_data user_id chunks_per_delivery start_index env w :
  redis_up env (Access Manager GET (chunks_key user_id)) = false
  \/ (forall d, redis w !! chunks_key user_id = Some (UserChunks d) -> ud_chunks d = []) ->
  let r := process_scheduled_chunks user_id chunks_per_delivery start_index env w in
  r = (Ok UserDataNotFound, snd (cleanup_user_schedule user_id env w))
  /\ queue (snd r) = queue w /\ outbox (snd r) = outbox w.
Proof.
  intros H. cbn zeta.
  assert (E : process_scheduled_chunks user_id chunks_per_delivery start_index env w
              = (Ok UserDataNotFound, snd (cleanup_user_schedule user_id env w))).
  { unfold process_scheduled_chunks, try_catch. unfold bind at 1.
    assert (Hc : get_user_chunks user_id env w = (Ok None, w)
                 \/ get_user_chunks user_id env w = (Ok (Some []), w)).
    { unfold get_user_chunks, try_catch, bind.
      destruct (redis_up env (Access Manager GET (chunks_key user_id))) eqn:Hup.
      - destruct H as [H|H]; [discriminate|].
        rewrite (get_json_ok _ _ _ Hup).
        destruct (redis w !! chunks_key user_id) as [[d|[|i l]|m|p|]|];
          cbn [doc_truthy item_chunks raise ret]; auto.
        rewrite (H d eq_refl). auto.
      - destruct (get_json_fails (chunks_key user_id) env w Hup) as [e ->]. auto. }
    unfold schedule_removed.
    destruct (cleanup_never_raises user_id env w) as [b Hb].
    destruct Hc as [-> | ->]; unfold bind at 1;
      destruct (cleanup_user_schedule user_id env w) as [rc w1]; cbn in Hb; subst rc;
      reflexivity. }
  rewrite E. split; [reflexivity|]. cbn [snd].
  destruct (SchedulerCoverage.cleanup_frame user_id env w) as (_ & Hq & Ho & _).
  auto.
Qed.

Lemma firing_without_data_witness :
  fst (process_scheduled_chunks "u1" 2 0 all_up empty_world) = Ok UserDataNotFound.
Proof.
  destruct (firing_without_data "u1" 2 0 all_up empty_world) as [H _].
  - right. intros d H. unfold empty_world in H. cbn [redis] in H.
    rewrite lookup_empty in H. discriminate H.
  - rewrite H. reflexivity.
Defined.

End TasksCoverage.

(** ** Firings in a row *)

Module FiringsCoverage.

Import Py Sys Scheduler Tasks SchedulerFacts TasksFacts Firings Scenarios.
Local Open Scope sys_scope.

Lemma keys_apart user_id :
  chunks_key user_id <> progress_key user_id
  /\ chunks_key user_id <> schedule_key user_id
  /\ progress_key user_id <> schedule_key user_id.
Proof. unfold chunks_key, progress_key, schedule_key. cbn. repeat split; discriminate. Qed.

Lemma take_all_the_same {A} (l : list A) (n m : nat) :
  (length l <= n)%nat -> (length l <= m)%nat -> take n l = take m l.
Proof. intros Hn Hm. rewrite !take_ge by assumption. reflexivity. Qed.

(** One firing that finds a chunk at the stored index. *)
Lemma firing_dispatches user_id chunks_per_delivery start_index env w d current processed :
  reachable env ->
  redis w !! chunks_key user_id = Some (UserChunks d) ->
  stored_progress w user_id start_index = (current, processed) ->
  0 <= current < Z.of_nat (length (ud_chunks d)) -> 1 <= chunks_per_delivery ->
  let total := Z.of_nat (length (ud_chunks d)) in
  let batch := take (Z.to_nat chunks_per_delivery) (drop (Z.to_nat current) (ud_chunks d)) in
  let w' := snd (process_scheduled_chunks user_id chunks_per_delivery start_index env w) in
  queue w' = queue w ++ [(next_task_id w, GenerateInsights user_id batch)]
  /\ stored_progress w' user_id start_index
     = (Z.min (current + chunks_per_delivery) total, processed + Z.of_nat (length batch))
  /\ redis w' !! chunks_key user_id = Some (UserChunks d).
Proof.
  intros Hup Hd Hp Hcur Hcpd total batch w'. subst w'.
  assert (Hne : ud_chunks d <> []).
  { intros E. rewrite E in Hcur. cbn in Hcur. lia. }
  destruct (process_scheduled_chunks_batch_aux user_id chunks_per_delivery start_index
              env w d current processed Hup Hd Hne Hp ltac:(lia) ltac:(lia)) as [Hb ->].
  fold total in Hb |- *.
  set (end_index := Z.min (current + chunks_per_delivery) total) in *.
  assert (Hbatch : take (Z.to_nat (end_index - current)) (drop (Z.to_nat current) (ud_chunks d))
                   = batch).
  { subst batch. destruct (Z.le_gt_cases (current + chunks_per_delivery) total).
    - subst end_index. rewrite Z.min_l by lia. f_equal. lia.
    - apply take_all_the_same; rewrite length_drop; subst end_index total; lia. }
  rewrite Hbatch in *.
  destruct batch as [|b bs] eqn:Eb.
  - exfalso. assert (end_index <= current) by (apply Hb; reflexivity).
    subst end_index. lia.
  - cbn [snd after_dispatch queue]. split; [reflexivity|].
    destruct (keys_apart user_id) as (Hk & _).
    split.
    + unfold stored_progress, after_dispatch. cbn [redis].
      rewrite lookup_insert_eq. reflexivity.
    + unfold after_dispatch. cbn [redis].
      rewrite lookup_insert_ne by congruence. exact Hd.
Qed.

Lemma fire_dispatches k :
  forall user_id chunks_per_delivery start_index env w d current processed,
    reachable env ->
    redis w !! chunks_key user_id = Some (UserChunks d) ->
    stored_progress w user_id start_index = (current, processed) ->
    0 <= current -> 1 <= chunks_per_delivery ->
    current + Z.of_nat k * chunks_per_delivery < Z.of_nat (length (ud_chunks d)) ->
    let w' := snd (fire (S k) user_id chunks_per_delivery start_index env w) in
    exists q,
      queue w' = queue w ++ q
      /\ length q = S k
      /\ dispatched q
         = take (S k * Z.to_nat chunks_per_delivery) (drop (Z.to_nat current) (ud_chunks d))
      /\ stored_progress w' user_id start_index
         = (Z.min (current + Z.of_nat (S k) * chunks_per_delivery)
                  (Z.of_nat (length (ud_chunks d))),
            processed + Z.of_nat (length (dispatched q)))
      /\ Forall (fun t => exists chunks, snd t = GenerateInsights user_id chunks) q.
Proof.
  induction k as [|k IH];
    intros user_id chunks_per_delivery start_index env w d current processed
           Hup Hd Hp Hcur Hcpd Hk.
  - cbn zeta. cbn [fire].
    destruct (firing_dispatches user_id chunks_per_delivery start_index env w d
                current processed Hup Hd Hp ltac:(lia) Hcpd) as (Hq & Hp' & _).
    destruct (process_scheduled_chunks _ _ _ env w) as [r w1]. cbn [snd] in *.
    eexists. split; [exact Hq|]. split; [reflexivity|].
    cbn [dispatched]. rewrite app_nil_r. rewrite Nat.mul_1_l.
    split; [reflexivity|]. split; [rewrite Hp'; f_equal; lia|].
    constructor; [eexists; reflexivity | constructor].
  - cbn zeta. change (fire (S (S k)) user_id chunks_per_delivery start_index env w)
      with (let (r, w1) :=
              process_scheduled_chunks user_id chunks_per_delivery start_index env w in
            let (rs, w2) := fire (S k) user_id chunks_per_delivery start_index env w1 in
            (r :: rs, w2)).
    destruct (firing_dispatches user_id chunks_per_delivery start_index env w d
                current processed Hup Hd Hp ltac:(nia) Hcpd) as (Hq & Hp' & Hd').
    destruct (process_scheduled_chunks _ _ _ env w) as [r w1]. cbn [snd] in *.
    rewrite Z.min_l in Hp' by nia.
    specialize (IH user_id chunks_per_delivery start_index env w1 d _ _
                  Hup Hd' Hp' ltac:(lia) Hcpd ltac:(nia)).
    cbn zeta in IH. destruct IH as (q & Hq2 & Hlen & Hdis & Hprog & Hkind).
    destruct (fire (S k) _ _ _ env w1) as [rs w2]. cbn [snd] in *.
    set (batch := take (Z.to_nat chunks_per_delivery)
                    (drop (Z.to_nat current) (ud_chunks d))) in *.
    assert (Hbl : length batch = Z.to_nat chunks_per_delivery).
    { subst batch. rewrite length_take, length_drop. nia. }
    exists ((next_task_id w, GenerateInsights user_id batch) :: q).
    split; [rewrite Hq2, Hq, <- app_assoc; reflexivity|].
    split; [cbn; lia|].
    assert (Hall : dispatched ((next_task_id w, GenerateInsights user_id batch) :: q)
                   = take (S (S k) * Z.to_nat chunks_per_delivery)
                       (drop (Z.to_nat current) (ud_chunks d))).
    { cbn [dispatched]. rewrite Hdis.
      replace (Z.to_nat (current + chunks_per_delivery))
        with (Z.to_nat current + Z.to_nat chunks_per_delivery)%nat by lia.
      rewrite <- drop_drop. subst batch.
      rewrite take_take_drop. f_equal; lia. }
    split; [exact Hall|].
    split; [|constructor; [eexists; reflexivity | exact Hkind]].
    rewrite Hprog. f_equal; [f_equal; lia|].
    cbn [dispatched]. rewrite length_app, Hbl. lia.
Qed.

(** X25. Starting without stored progress, [k + 1] firings in a row, the
    last of which still finds a chunk, queue [k + 1] tasks, each of them
    a [generate_insights] task for the subject, whose chunks are, in
    order and without repetition, the first
    [(k + 1) * chunks_per_delivery] chunks from [start_index] on; the
    stored progress counts them. *)
Theorem firings_dispatch_in_order k user_id chunks_per_delivery start_index env w d :
  reachable env ->
  redis w !! chunks_key user_id = Some (UserChunks d) ->
  redis w !! progress_key user_id = None ->
  0 <= start_index -> 1 <= chunks_per_delivery ->
  start_index + Z.of_nat k * chunks_per_delivery < Z.of_nat (length (ud_chunks d)) ->
  let w' := snd (fire (S k) user_id chunks_per_delivery start_index env w) in
  exists q,
    queue w' = queue w ++ q
    /\ length q = S k
    /\ dispatched q
       = take (S k * Z.to_nat chunks_per_delivery)
           (drop (Z.to_nat start_index) (ud_chunks d))
    /\ stored_progress w' user_id start_index
       = (Z.min (start_index + Z.of_nat (S k) * chunks_per_delivery)
                (Z.of_nat (length (ud_chunks d))),
          Z.of_nat (length (dispatched q)))
    /\ Forall (fun t => exists chunks, snd t = GenerateInsights user_id chunks) q.
Proof.
  intros Hup Hd Hp Hstart Hcpd Hk.
  apply (fire_dispatches k user_id chunks_per_delivery start_index env w d start_index 0);
    try assumption.
  unfold stored_progress. rewrite Hp. reflexivity.
Qed.

Lemma firings_dispatch_in_order_witness :
  exists q,
    queue (snd (fire 2 "u1" 1 1 all_up before_firing)) = queue before_firing ++ q
    /\ dispatched q = [chunk_of 1 "two"; chunk_of 2 "three"].
Proof.
  destruct (firings_dispatch_in_order 1 "u1" 1 1 all_up before_firing three_chunks
              all_up_reachable eq_refl eq_refl ltac:(lia) ltac:(lia) ltac:(reflexivity))
    as (q & H1 & _ & H2 & _).
  exists q. split; [exact H1 | exact H2].
Defined.

(** The cancel path deletes the progress whenever the schedule key is
    absent or holds a schedule. *)
Lemma cleanup_deletes_progress user_id env w :
  reachable env ->
  (forall v, redis w !! schedule_key user_id = Some v -> exists m, v = UserSchedule m) ->
  let w' := snd (cleanup_user_schedule user_id env w) in
  redis w' !! progress_key user_id = None
  /\ redis w' !! chunks_key user_id = redis w !! chunks_key user_id
  /\ queue w' = queue w.
Proof.
  intros Hup Hkind. cbn zeta.
  destruct (keys_apart user_id) as (H1 & H2 & H3).
  destruct (SchedulerCoverage.cleanup_frame user_id env w) as (Hk & Hq & _).
  split; [|split; [apply Hk; assumption | exact Hq]].
  destruct (redis w !! schedule_key user_id) as [v|] eqn:E.
  - destruct (Hkind v eq_refl) as [m ->].
    destruct (cleanup_with_schedule user_id env w m Hup E) as [_ ->].
    apply lookup_delete_eq.
  - unfold cleanup_user_schedule, try_catch, bind.
    rewrite (get_json_up _ _ _ Hup), E. cbn.
    rewrite (delete_key_up _ _ _ Hup). cbn. apply lookup_delete_eq.
Qed.

(** X26. A firing that finds every chunk dispatched answers
    [completed], queues nothing and deletes the progress: the progress
    key is absent after it. The firing after it starts over and queues
    the chunks from [start_index] on a second time. *)
Theorem firing_after_completion_restarts
        user_id chunks_per_delivery start_index env w d current processed :
  reachable env ->
  redis w !! chunks_key user_id = Some (UserChunks d) ->
  (forall v, redis w !! schedule_key user_id = Some v -> exists m, v = UserSchedule m) ->
  stored_progress w user_id start_index = (current, processed) ->
  Z.of_nat (length (ud_chunks d)) <= current ->
  0 <= start_index < Z.of_nat (length (ud_chunks d)) ->
  1 <= chunks_per_delivery ->
  let r1 := process_scheduled_chunks user_id chunks_per_delivery start_index env w in
  let r2 := process_scheduled_chunks user_id chunks_per_delivery start_index env (snd r1) in
  fst r1 = Ok (Completed processed)
  /\ queue (snd r1) = queue w
  /\ redis (snd r1) !! progress_key user_id = None
  /\ queue (snd r2)
     = queue w ++ [(next_task_id (snd r1),
                    GenerateInsights user_id
                      (take (Z.to_nat chunks_per_delivery)
                         (drop (Z.to_nat start_index) (ud_chunks d))))].
Proof.
  intros Hup Hd Hkind Hp Hcur Hstart Hcpd. cbn zeta.
  assert (Hne : ud_chunks d <> []).
  { intros E. rewrite E in Hstart. cbn in Hstart. lia. }
  destruct (process_scheduled_chunks_batch_aux user_id chunks_per_delivery start_index
              env w d current processed Hup Hd Hne Hp ltac:(lia) ltac:(lia)) as [Hb E1].
  cbn zeta in Hb, E1.
  assert (Hempty : take (Z.to_nat (Z.min (current + chunks_per_delivery)
                                       (Z.of_nat (length (ud_chunks d))) - current))
                     (drop (Z.to_nat current) (ud_chunks d)) = [])
    by (apply Hb; lia).
  rewrite Hempty in E1. rewrite E1. cbn [fst snd].
  destruct (cleanup_deletes_progress user_id env w Hup Hkind) as (Hprog & Hchunks & Hq).
  set (w1 := snd (cleanup_user_schedule user_id env w)) in *.
  split; [reflexivity|]. split; [exact Hq|]. split; [exact Hprog|].
  rewrite Hd in Hchunks.
  assert (Hp1 : stored_progress w1 user_id start_index = (start_index, 0)).
  { unfold stored_progress. rewrite Hprog. reflexivity. }
  destruct (firing_dispatches user_id chunks_per_delivery start_index env w1 d
              start_index 0 Hup Hchunks Hp1 Hstart Hcpd) as (Hq1 & _).
  rewrite Hq1, Hq. reflexivity.
Qed.

Lemma firing_after_completion_restarts_witness :
  fst (process_scheduled_chunks "u1" 2 1 all_up all_dispatched) = Ok (Completed 2)
  /\ queue (snd (process_scheduled_chunks "u1" 2 1 all_up
                   (snd (process_scheduled_chunks "u1" 2 1 all_up all_dispatched))))
     = [(0%nat, GenerateInsights "u1" [chunk_of 1 "two"; chunk_of 2 "three"])].
Proof.
  destruct (firing_after_completion_restarts "u1" 2 1 all_up all_dispatched three_chunks
              3 2 all_up_reachable eq_refl) as (H1 & H2 & _ & H3);
    try reflexivity; try lia.
  - intros v H. discriminate H.
  - cbn. lia.
  - split; [exact H1|]. rewrite H3. reflexivity.
Defined.

End FiringsCoverage.

(** ** Endpoints *)

Module ApiCoverage.

Import Py Sys Scheduler Tasks SchedulerFacts TasksFacts Api Scenarios.
Local Open Scope sys_scope.

(** *** DELETE /user-schedule/{user_id} *)

Lemma cancel_by_cleanup user_id env w b w' :
  cleanup_user_schedule user_id env w = (Ok b, w') ->
  cancel_user_schedule user_id env w
  = (if b then Returned ("Schedule cancelled for user " +:+ user_id)
     else HTTPException 500 "Failed to cancel schedule", w').
Proof.
  intros H. unfold cancel_user_schedule, except_500, bind. rewrite H.
  destruct b; reflexivity.
Qed.

(** X27. [DELETE /user-schedule/{user_id}] never answers 404: it
    confirms the cancellation when [cleanup_user_schedule] returns [True]
    and answers 500 "Failed to cancel schedule" when it returns [False];
    the state is the one [cleanup_user_schedule] leaves. *)
Theorem cancel_user_schedule_answers user_id env w :
  let r := cancel_user_schedule user_id env w in
  snd r = snd (cleanup_user_schedule user_id env w)
  /\ ((fst (cleanup_user_schedule user_id env w) = Ok true
       /\ fst r = Returned ("Schedule cancelled for user " +:+ user_id))
      \/ (fst (cleanup_user_schedule user_id env w) = Ok false
          /\ fst r = HTTPException 500 "Failed to cancel schedule")).
Proof.
  cbn zeta. destruct (cleanup_never_raises user_id env w) as [b Hb].
  destruct (cleanup_user_schedule user_id env w) as [rc w'] eqn:E.
  cbn [fst snd] in *. subst rc.
  rewrite (cancel_by_cleanup _ _ _ _ _ E). cbn [fst snd].
  split; [reflexivity|]. destruct b; auto.
Qed.

(** A subject without schedule metadata gets the confirmation. *)
Lemma cancel_unknown_subject_succeeds user_id env w :
  reachable env ->
  redis w !! schedule_key user_id = None ->
  fst (cancel_user_schedule user_id env w)
  = Returned ("Schedule cancelled for user " +:+ user_id).
Proof.
  intros Hup Hnone.
  assert (E : cleanup_user_schedule user_id env w
              = (Ok true, set_redis w (delete (progress_key user_id) (redis w)))).
  { unfold cleanup_user_schedule, try_catch, bind.
    rewrite (get_json_up _ _ _ Hup), Hnone. cbn.
    rewrite (delete_key_up _ _ _ Hup). reflexivity. }
  rewrite (cancel_by_cleanup _ _ _ _ _ E). reflexivity.
Qed.

Lemma cancel_unknown_subject_succeeds_witness :
  fst (cancel_user_schedule "u1" all_up empty_world)
  = Returned "Schedule cancelled for user u1".
Proof.
  exact (cancel_unknown_subject_succeeds "u1" all_up empty_world all_up_reachable
           eq_refl).
Defined.

(** *** GET /user-insights/{user_id} *)

(** X28. [GET /user-insights/{user_id}] changes nothing and never
    answers 404: when the store does not answer, and when the subject
    has no value under the insights key, it answers 500 "Failed to
    retrieve insights"; for a value that is there it returns that value,
    decoded, for the subject, with the time of the reading. *)
Theorem get_user_insights_answers user_id env w :
  let r := get_user_insights user_id env w in
  snd r = w
  /\ fst r
     = if redis_up env (Access Direct GET (insights_key user_id))
       then match redis w !! insights_key user_id with
            | Some insights =>
                Returned {| ib_user_id := user_id; ib_insights := insights;
                            ib_retrieved_at := now_iso env |}
            | None => HTTPException 500 "Failed to retrieve insights"
            end
       else HTTPException 500 "Failed to retrieve insights".
Proof.
  cbn zeta. unfold get_user_insights, except_500, bind, redis_get, client_get.
  destruct (redis_up env (Access Direct GET (insights_key user_id)));
    [|split; reflexivity].
  destruct (redis w !! insights_key user_id); split; reflexivity.
Qed.

(** X29. After [generate_insights], [GET /user-insights/{user_id}]
    returns the merged list that call stored. *)
Theorem get_user_insights_after_generate task_id user_id results env w :
  reachable env ->
  let w' := snd (generate_insights task_id user_id results env w) in
  fst (get_user_insights user_id env w')
  = Returned {| ib_user_id := user_id;
                ib_insights :=
                  UserInsights
                    (merge_results
                       (existing_insights (redis w !! insights_key user_id))
                       results);
                ib_retrieved_at := now_iso env |}.
Proof.
  intros Hup. cbn zeta.
  rewrite (TasksCoverage.generate_insights_up task_id _ _ _ _ Hup). cbn [snd].
  unfold get_user_insights, except_500, bind.
  rewrite (redis_get_up _ _ _ Hup). cbn [redis].
  rewrite lookup_insert_eq. reflexivity.
Qed.

Lemma get_user_insights_after_generate_witness :
  fst (get_user_insights "u1" all_up
         (snd (generate_insights 7 "u1" new_results all_up stored_two)))
  = Returned {| ib_user_id := "u1";
                ib_insights :=
                  UserInsights
                    (merge_results
                       (existing_insights (redis stored_two !! insights_key "u1"))
                       new_results);
                ib_retrieved_at := now_iso all_up |}.
Proof.
  exact (get_user_insights_after_generate 7 "u1" new_results all_up stored_two
           all_up_reachable).
Defined.

(** *** GET /user-schedule/{user_id} *)

(** X30. After a cancellation, [GET /user-schedule/{user_id}] reports
    the schedule as not active, with its schedule type, no progress, and
    the chunks that remained when the schedule was made, none of them
    counted as processed. *)
Theorem schedule_info_after_cancel user_id env w m :
  reachable env ->
  redis w !! schedule_key user_id = Some (UserSchedule m) ->
  let w' := snd (cancel_user_schedule user_id env w) in
  get_user_schedule_info user_id env w'
  = (Returned {| usi_user_id := user_id; schedule_active := false;
                 usi_schedule_type := Some (sm_schedule_type m);
                 next_execution := None;
                 chunks_remaining :=
                   if sm_remaining_chunks m =? 0 then None
                   else Some (py_max 0 (sm_remaining_chunks m - 0));
                 usi_progress := None |}, w').
Proof.
  intros Hup Hm. cbn zeta.
  destruct (cleanup_with_schedule user_id env w m Hup Hm) as [Hok Hredis].
  destruct (cleanup_user_schedule user_id env w) as [rc w'] eqn:E.
  cbn [fst snd] in *. subst rc.
  rewrite (cancel_by_cleanup _ _ _ _ _ E). cbn [snd].
  assert (Hkeys : progress_key user_id <> schedule_key user_id).
  { unfold progress_key, schedule_key. cbn. discriminate. }
  unfold get_user_schedule_info, except_500. unfold bind at 1.
  rewrite (get_json_up _ _ _ Hup). rewrite Hredis.
  rewrite lookup_delete_ne by congruence. rewrite lookup_insert_eq.
  cbn [doc_truthy negb].
  unfold bind at 1. rewrite (get_json_up _ _ _ Hup). rewrite Hredis.
  rewrite lookup_delete_eq.
  unfold bind at 1. cbn [get_remaining_chunks ret complete sm_remaining_chunks].
  destruct (sm_remaining_chunks m =? 0); reflexivity.
Qed.

Lemma schedule_info_after_cancel_witness :
  fst (get_user_schedule_info "u1" all_up (snd (cancel_user_schedule "u1" all_up scheduled)))
  = Returned {| usi_user_id := "u1"; schedule_active := false;
                usi_schedule_type := Some "daily"; next_execution := None;
                chunks_remaining := Some 2; usi_progress := None |}.
Proof.
  rewrite (schedule_info_after_cancel "u1" all_up scheduled daily_schedule
             all_up_reachable eq_refl).
  reflexivity.
Defined.

End ApiCoverage.
